(** * Redux: store, reducer composition, function composition, middleware

    A shallow embedding of [createStore.js], [combineReducers.js],
    [compose.js], [applyMiddleware.js] and [bindActionCreators.js].

    Library code is embedded as Rocq functions.  Caller-supplied callbacks
    (reducers, listeners, middlewares) may call back into the store, so in
    the store part they are trees of store calls ([prog]) that the
    interpreter [exec] runs against the store's closure variables. *)

From Stdlib Require Import ZArith Lia Ascii String.
From stdpp Require Import base list strings pretty.

Local Open Scope string_scope.
Local Open Scope list_scope.

(** ** JavaScript values *)

(** Objects are immutable records with an identity [id] (what [===]
    compares) and their own enumerable properties in [Object.keys] order;
    [plain] is lodash's [isPlainObject].  Numbers are the integers (no NaN,
    no fractions).  A value holds its own enumerable properties; what it
    inherits along its prototype chain is asked of the host of the run
    where [combineReducers.js] reads a property ([read_prop]), and an
    [Error] is known by its message. *)
#[warnings="-register-all"] Inductive value : Type :=
| VUndef
| VNull
| VBool (b : bool)
| VNum (n : Z)
| VStr (s : string)
| VObj (id : nat) (plain : bool) (props : list (string * value))
| VFun (id : nat)
| VError (msg : string).

(** A call either returns or throws a value. *)
Inductive outcome (A : Type) : Type :=
| Ok (a : A)
| Err (e : value).
Arguments Ok {A} a.
Arguments Err {A} e.

Definition is_undefined (v : value) : bool :=
  match v with VUndef => true | _ => false end.

Definition is_function (v : value) : bool :=
  match v with VFun _ => true | _ => false end.

Definition isPlainObject (v : value) : bool :=
  match v with VObj _ plain _ => plain | _ => false end.

(** [ToBoolean] *)
Definition truthy (v : value) : bool :=
  match v with
  | VUndef | VNull => false
  | VBool b => b
  | VNum n => negb (n =? 0)%Z
  | VStr s => negb (String.eqb s EmptyString)
  | VObj _ _ _ | VFun _ | VError _ => true
  end.

(** [a === b] *)
Definition strict_eq (a b : value) : bool :=
  match a, b with
  | VUndef, VUndef | VNull, VNull => true
  | VBool x, VBool y => Bool.eqb x y
  | VNum x, VNum y => (x =? y)%Z
  | VStr x, VStr y => String.eqb x y
  | VObj i _ _, VObj j _ _ => Nat.eqb i j
  | VFun i, VFun j => Nat.eqb i j
  | VError x, VError y => String.eqb x y
  | _, _ => false
  end.

(** Own-property tables: lookup, assignment (in place when the key exists,
    appended otherwise) and [Object.keys]. *)
Fixpoint obj_get (props : list (string * value)) (key : string) : value :=
  match props with
  | [] => VUndef
  | (k, v) :: rest => if String.eqb k key then v else obj_get rest key
  end.

Fixpoint obj_set (props : list (string * value)) (key : string) (v : value)
  : list (string * value) :=
  match props with
  | [] => [(key, v)]
  | (k, w) :: rest =>
      if String.eqb k key then (k, v) :: rest else (k, w) :: obj_set rest key v
  end.

Fixpoint obj_has (props : list (string * value)) (key : string) : bool :=
  match props with
  | [] => false
  | (k, _) :: rest => String.eqb k key || obj_has rest key
  end.

Definition obj_keys (props : list (string * value)) : list string :=
  map fst props.

Definition dq : string := String "034"%char EmptyString.

(** ** compose.js *)

Section Compose.
(** [M] is the effect of a call, [T] the values passed along the pipeline;
    a JavaScript function takes its argument list. *)
Context {M : Type -> Type} {T : Type}.
Variable ret : T -> M T.
Variable bind : M T -> (T -> M T) -> M T.
Variable undef : T.

Definition jsfn : Type := list T -> M T.

(** [(a, b) => (...args) => a(b(...args))] *)
Definition compose_step (a b : jsfn) : jsfn :=
  fun args => bind (b args) (fun r => a [r]).

Definition compose (funcs : list jsfn) : jsfn :=
  match funcs with
  | [] => fun args => ret (hd undef args)
  | [f] => f
  | f :: rest => fold_left compose_step rest f
  end.
End Compose.

(** ** createStore.js: the reserved action type *)

Definition ActionTypes_INIT : string := "@@redux/INIT".

(** ** combineReducers.js *)

(** What the callers' code can read and write while the library runs: the
    allocator of object identities, the state of [Math.random] (the number
    of draws so far) and whatever else the reducers keep ([user]). *)
Record uworld (U : Type) : Type := UWorld {
  next_obj : nat;
  rng : nat;
  user : U
}.
Arguments UWorld {U} _ _ _.
Arguments next_obj {U} _.
Arguments rng {U} _.
Arguments user {U} _.

(** The state the embedding threads through [combineReducers.js]: the
    callers' world, the keys that the [unexpectedKeyCache] object of each
    combination holds (by the identity of that object), the messages
    handed to [warning], and a record of every invocation
    [reducer(state, action)] made by the library (key, function, arguments,
    outcome), kept only to state properties. *)
Record call_record : Type := Call {
  call_key : string;
  call_fn : value;
  call_state : value;
  call_action : value;
  call_result : outcome value
}.

Record cstate (U : Type) : Type := CState {
  uw : uworld U;
  unexpectedKeyCache : list (nat * list string);
  warnings : list string;
  calls : list call_record
}.
Arguments CState {U} _ _ _ _.
Arguments uw {U} _.
Arguments unexpectedKeyCache {U} _.
Arguments warnings {U} _.
Arguments calls {U} _.

(** The environment of a run: the code of the function values; the suffix
    that the n-th draw of
    [Math.random().toString(36).substring(7).split('').join('.')] yields;
    what [v[key]] reads when [key] is not an own enumerable property of [v]
    ([inherited]: the property found along the prototype chain of an
    object, which is asked by its identity alone, or a property of a
    primitive, a function or an Error; [undefined] when there is none);
    the outcome of [v.toString()] inside a template literal for a [v]
    whose text the language does not fix ([text_of]: an object, a function,
    an Error, a number beyond the safe integers; it may run code of the
    callers and may raise); the class name that the pattern
    [/\s([a-z|A-Z]+)/] finds in [({}).toString.call(v)] for a [v] that is
    not a primitive, if it finds one ([class_of]); and whether
    [process.env.NODE_ENV] is ['production']. *)
Record host (U : Type) : Type := Host {
  renv : nat -> list value -> uworld U -> outcome value * uworld U;
  random_suffix : nat -> string;
  inherited : value -> string -> value;
  text_of : value -> uworld U -> outcome string * uworld U;
  class_of : value -> option string;
  production : bool
}.
Arguments Host {U} _ _ _ _ _ _.
Arguments renv {U} _ _ _ _.
Arguments random_suffix {U} _ _.
Arguments inherited {U} _ _ _.
Arguments text_of {U} _ _ _.
Arguments class_of {U} _ _.
Arguments production {U} _.

(** What [combineReducers] leaves in the closure of [combination]; the
    variable [unexpectedKeyCache] holds an object, named here by its
    identity, or [undefined]. *)
Record combined : Type := Combined {
  finalReducers : list (string * value);
  finalReducerKeys : list string;
  unexpectedKeyCacheRef : option nat;
  shapeAssertionError : value
}.

(** The own keys of the cache object [id], and their replacement. *)
Fixpoint cache_keys (caches : list (nat * list string)) (id : nat)
  : list string :=
  match caches with
  | [] => []
  | (i, keys) :: rest => if Nat.eqb i id then keys else cache_keys rest id
  end.

Fixpoint cache_put (caches : list (nat * list string)) (id : nat)
    (keys : list string) : list (nat * list string) :=
  match caches with
  | [] => [(id, keys)]
  | (i, old) :: rest =>
      if Nat.eqb i id then (i, keys) :: rest
      else (i, old) :: cache_put rest id keys
  end.



Definition type_error : value :=
  VError "TypeError: Cannot read properties of null or undefined".

Definition all_functions (props : list (string * value)) : Prop :=
  Forall (fun kv => is_function kv.2 = true) props.

Section Combine.
Context {U : Type}.
Variable h : host U.

Definition CM (A : Type) : Type := cstate U -> outcome A * cstate U.

Definition cret {A} (a : A) : CM A := fun st => (Ok a, st).

Definition cthrow {A} (e : value) : CM A := fun st => (Err e, st).

Definition cbind {A B} (m : CM A) (k : A -> CM B) : CM B :=
  fun st => match m st with
            | (Ok a, st') => k a st'
            | (Err e, st') => (Err e, st')
            end.

(** [try { m } catch (e) { handler(e) }] *)
Definition ctry {A} (m : CM A) (handler : value -> CM A) : CM A :=
  fun st => match m st with
            | (Ok a, st') => (Ok a, st')
            | (Err e, st') => handler e st'
            end.

Local Notation "'let*' x ':=' m 'in' k" := (cbind m (fun x => k))
  (at level 10, x name, m at level 100, k at level 200, only parsing).

(** The identity of a newly created object. *)
Definition fresh_id : CM nat :=
  fun st =>
    let w := uw st in
    (Ok (next_obj w),
     CState (UWorld (S (next_obj w)) (rng w) (user w))
            (unexpectedKeyCache st) (warnings st) (calls st)).

(** An object literal. *)
Definition new_object (props : list (string * value)) : CM value :=
  let* id := fresh_id in cret (VObj id true props).

(** One draw of [Math.random], rendered as the probe suffix. *)
Definition random_probe_suffix : CM string :=
  fun st =>
    let w := uw st in
    (Ok (random_suffix h (rng w)),
     CState (UWorld (next_obj w) (S (rng w)) (user w))
            (unexpectedKeyCache st) (warnings st) (calls st)).

(** Modelled from the spec: [utils/warning.js] is not among the sources; the
    warning sink takes a message, never fails and returns nothing. *)
Definition warning (message : string) : CM unit :=
  fun st =>
    (Ok tt, CState (uw st) (unexpectedKeyCache st)
                   (warnings st ++ [message]) (calls st)).

(** [reducer(state, action)] for the reducer stored under [key]; calling
    what is not a function is a [TypeError]. *)
Definition call_reducer (key : string) (reducer state action : value)
  : CM value :=
  fun st =>
    match reducer with
    | VFun id =>
        let (r, w') := renv h id [state; action] (uw st) in
        (r, CState w' (unexpectedKeyCache st) (warnings st)
                   (calls st ++ [Call key reducer state action r]))
    | _ => (Err (VError "TypeError: reducer is not a function"), st)
    end.

(** [f(...args)] for a value [f], outside the record of the reducer
    invocations. *)
Definition call_value (f : value) (args : list value) : CM value :=
  fun st =>
    match f with
    | VFun id =>
        let (r, w') := renv h id args (uw st) in
        (r, CState w' (unexpectedKeyCache st) (warnings st) (calls st))
    | _ => (Err (VError "TypeError: not a function"), st)
    end.

(** The text that the host gives for [v]. *)
Definition host_text (v : value) : CM string :=
  fun st =>
    let (r, w') := text_of h v (uw st) in
    (r, CState w' (unexpectedKeyCache st) (warnings st) (calls st)).

(** The safe integers, which print as their decimal digits. *)
Definition safe_integer (n : Z) : bool :=
  (Z.abs n <=? 9007199254740992)%Z.

(** [v.toString()] inside a template literal. *)
Definition to_string (v : value) : CM string :=
  match v with
  | VUndef | VNull => cthrow type_error
  | VBool true => cret "true"
  | VBool false => cret "false"
  | VNum n => if safe_integer n then cret (pretty n) else host_text v
  | VStr s => cret s
  | VObj _ _ _ | VFun _ | VError _ => host_text v
  end.

(** [v[key]] on the own enumerable properties of [v]: reading a property of
    [null] or [undefined] throws. *)
Definition get_prop (v : value) (key : string) : outcome value :=
  match v with
  | VUndef | VNull =>
      Err (VError "TypeError: Cannot read properties of null or undefined")
  | VObj _ _ props => Ok (obj_get props key)
  | _ => Ok VUndef
  end.

(** [v[key]]: an own property of an object if there is one, what the value
    inherits otherwise. *)
Definition read_prop (v : value) (key : string) : outcome value :=
  match v with
  | VUndef | VNull => get_prop v key
  | VObj id plain props =>
      Ok (if obj_has props key then obj_get props key
          else inherited h (VObj id plain []) key)
  | VError msg =>
      Ok (if String.eqb key "message" then VStr msg else inherited h v key)
  | _ => Ok (inherited h v key)
  end.

(** [action && action.type] *)
Definition action_type_of (action : value) : value :=
  if truthy action
  then match read_prop action "type" with Ok t => t | Err _ => VUndef end
  else action.

Definition undefined_state_message (actionName key : string) : string :=
  "Given action " +:+ actionName +:+ ", reducer " +:+ dq +:+ key +:+ dq
  +:+ " returned undefined. "
  +:+ "To ignore an action, you must explicitly return the previous state. "
  +:+ "If you want this reducer to hold no value, you can return null instead of undefined.".

Definition getUndefinedStateErrorMessage (key : string) (action : value)
  : CM string :=
  let actionType := action_type_of action in
  let* actionName :=
    (if truthy actionType
     then let* text := to_string actionType in cret (dq +:+ text +:+ dq)
     else cret "an action") in
  cret (undefined_state_message actionName key).

(** What [({}).toString.call(v).match(/\s([a-z|A-Z]+)/)] captures: the
    class name, or nothing when the pattern does not match. *)
Definition class_name (v : value) : option string :=
  match v with
  | VUndef => Some "Undefined"
  | VNull => Some "Null"
  | VBool _ => Some "Boolean"
  | VNum _ => Some "Number"
  | VStr _ => Some "String"
  | VObj _ _ _ | VFun _ | VError _ => class_of h v
  end.

Definition join_keys (keys : list string) : string :=
  String.concat (dq +:+ ", " +:+ dq) keys.

Definition mem_string (k : string) (l : list string) : bool :=
  existsb (String.eqb k) l.

(** [reducers.hasOwnProperty(key)]: the method is the built-in one unless
    [reducers] has an own property of that name, which is then what is
    called, with the key. *)
Definition hasOwnProperty (reducers : list (string * value)) (key : string)
  : CM bool :=
  if obj_has reducers "hasOwnProperty"
  then let* r := call_value (obj_get reducers "hasOwnProperty") [VStr key] in
       cret (truthy r)
  else cret (obj_has reducers key).

(** [unexpectedKeyCache[key]] as a condition: an own key of the cache
    object holds [true]; any other key reads what the object inherits. *)
Definition cache_has (cache : option nat) (key : string) : CM bool :=
  fun st =>
    match cache with
    | None => (Err type_error, st)
    | Some id =>
        (Ok (mem_string key (cache_keys (unexpectedKeyCache st) id)
             || truthy (inherited h (VObj id true []) key)), st)
    end.

(** [keys.filter(key => !reducers.hasOwnProperty(key) && !unexpectedKeyCache[key])] *)
Fixpoint unexpected_keys (reducers : list (string * value))
    (cache : option nat) (keys : list string) : CM (list string) :=
  match keys with
  | [] => cret []
  | key :: rest =>
      let* own := hasOwnProperty reducers key in
      let* keep := (if own then cret false
                    else let* cached := cache_has cache key in
                         cret (negb cached)) in
      let* others := unexpected_keys reducers cache rest in
      cret (if keep then key :: others else others)
  end.

(** [unexpectedKeys.forEach(key => { unexpectedKeyCache[key] = true })] *)
Definition mark_unexpected (cache : option nat) (keys : list string)
  : CM unit :=
  fun st =>
    match keys, cache with
    | [], _ => (Ok tt, st)
    | _ :: _, None => (Err type_error, st)
    | _ :: _, Some id =>
        (Ok tt,
         CState (uw st)
                (cache_put (unexpectedKeyCache st) id
                   (cache_keys (unexpectedKeyCache st) id ++ keys))
                (warnings st) (calls st))
    end.

(** Returns the message, or [None] for [undefined]; marks the keys it
    reports in the cache object. *)
Definition getUnexpectedStateShapeWarningMessage
    (inputState : value) (reducers : list (string * value)) (action : value)
    (cache : option nat)
  : CM (option string) :=
  let reducerKeys := obj_keys reducers in
  let argumentName :=
    if truthy action
       && strict_eq (action_type_of action) (VStr ActionTypes_INIT)
    then "preloadedState argument passed to createStore"
    else "previous state received by the reducer" in
  if Nat.eqb (length reducerKeys) 0 then
    cret (Some ("Store does not have a valid reducer. Make sure the argument passed "
                +:+ "to combineReducers is an object whose values are reducers."))
  else if negb (isPlainObject inputState) then
    match class_name inputState with
    | Some class =>
        cret (Some ("The " +:+ argumentName +:+ " has unexpected type of " +:+ dq
                    +:+ class +:+ dq
                    +:+ ". Expected argument to be an object with the following "
                    +:+ "keys: " +:+ dq +:+ join_keys reducerKeys +:+ dq))
    | None => cthrow type_error
    end
  else
    let inputKeys :=
      match inputState with VObj _ _ props => obj_keys props | _ => [] end in
    let* unexpectedKeys := unexpected_keys reducers cache inputKeys in
    let* _ := mark_unexpected cache unexpectedKeys in
    if Nat.ltb 0 (length unexpectedKeys) then
      cret (Some ("Unexpected "
                  +:+ (if Nat.ltb 1 (length unexpectedKeys) then "keys" else "key")
                  +:+ " " +:+ dq +:+ join_keys unexpectedKeys +:+ dq
                  +:+ " found in " +:+ argumentName +:+ ". "
                  +:+ "Expected to find one of the known reducer keys instead: "
                  +:+ dq +:+ join_keys reducerKeys +:+ dq
                  +:+ ". Unexpected keys will be ignored."))
    else cret None.

Definition init_error_message (key : string) : string :=
  "Reducer " +:+ dq +:+ key +:+ dq +:+ " returned undefined during initialization. "
  +:+ "If the state passed to the reducer is undefined, you must "
  +:+ "explicitly return the initial state. The initial state may "
  +:+ "not be undefined. If you don't want to set a value for this reducer, "
  +:+ "you can use null instead of undefined.".

Definition probe_error_message (key : string) : string :=
  "Reducer " +:+ dq +:+ key +:+ dq +:+ " returned undefined when probed with a random type. "
  +:+ "Don't try to handle " +:+ ActionTypes_INIT +:+ " or other actions in "
  +:+ dq +:+ "redux/*" +:+ dq +:+ " "
  +:+ "namespace. They are considered private. Instead, you must return the "
  +:+ "current state for any unknown actions, unless it is undefined, "
  +:+ "in which case you must return the initial state, regardless of the "
  +:+ "action type. The initial state may not be undefined, but can be null.".

Definition probe_type (suffix : string) : string :=
  "@@redux/PROBE_UNKNOWN_ACTION_" +:+ suffix.

(** The body of the [forEach] callback of [assertReducerShape]. *)
Definition assert_one (reducers : list (string * value)) (key : string)
  : CM unit :=
  let reducer := obj_get reducers key in
  let* initAction := new_object [("type", VStr ActionTypes_INIT)] in
  let* initialState := call_reducer key reducer VUndef initAction in
  if is_undefined initialState then cthrow (VError (init_error_message key))
  else
    let* suffix := random_probe_suffix in
    let* probeAction := new_object [("type", VStr (probe_type suffix))] in
    let* probed := call_reducer key reducer VUndef probeAction in
    if is_undefined probed then cthrow (VError (probe_error_message key))
    else cret tt.

(** [keys.forEach(callback)]: a throw ends the iteration. *)
Fixpoint for_each (callback : string -> CM unit) (keys : list string)
  : CM unit :=
  match keys with
  | [] => cret tt
  | key :: rest => let* _ := callback key in for_each callback rest
  end.

Definition assertReducerShape (reducers : list (string * value)) : CM unit :=
  for_each (assert_one reducers) (obj_keys reducers).

(** The first loop of [combineReducers]: warn about the keys without a
    reducer, retain the functions. *)
Fixpoint retain_functions (reducers : list (string * value))
    (reducerKeys : list string) (finalReducers : list (string * value))
  : CM (list (string * value)) :=
  match reducerKeys with
  | [] => cret finalReducers
  | key :: rest =>
      let* _ :=
        (if negb (production h) && is_undefined (obj_get reducers key)
         then warning ("No reducer provided for key " +:+ dq +:+ key +:+ dq)
         else cret tt) in
      retain_functions reducers rest
        (if is_function (obj_get reducers key)
         then obj_set finalReducers key (obj_get reducers key)
         else finalReducers)
  end.

(** [unexpectedKeyCache = {}]: a new object, with no key. *)
Definition new_cache : CM (option nat) :=
  fun st =>
    let w := uw st in
    (Ok (Some (next_obj w)),
     CState (UWorld (S (next_obj w)) (rng w) (user w))
            (cache_put (unexpectedKeyCache st) (next_obj w) [])
            (warnings st) (calls st)).

(** [combineReducers(reducers)], up to the closure it returns. *)
Definition combineReducers (reducers : list (string * value)) : CM combined :=
  let reducerKeys := obj_keys reducers in
  let* finalReducers := retain_functions reducers reducerKeys [] in
  let finalReducerKeys := obj_keys finalReducers in
  let* unexpectedKeyCache :=
    (if negb (production h) then new_cache else cret None) in
  let* shapeAssertionError :=
    ctry (let* _ := assertReducerShape finalReducers in cret VUndef)
         (fun e => cret e) in
  cret (Combined finalReducers finalReducerKeys unexpectedKeyCache
                 shapeAssertionError).

(** The [for] loop of [combination], carrying [hasChanged] and the
    properties of [nextState]. *)
Fixpoint combination_loop (c : combined) (state action : value)
    (keys : list string) (hasChanged : bool)
    (nextState : list (string * value))
  : CM (bool * list (string * value)) :=
  match keys with
  | [] => cret (hasChanged, nextState)
  | key :: rest =>
      let reducer := obj_get (finalReducers c) key in
      match read_prop state key with
      | Err e => cthrow e
      | Ok previousStateForKey =>
          let* nextStateForKey :=
            call_reducer key reducer previousStateForKey action in
          if is_undefined nextStateForKey
          then let* errorMessage := getUndefinedStateErrorMessage key action in
               cthrow (VError errorMessage)
          else
            combination_loop c state action rest
              (hasChanged || negb (strict_eq nextStateForKey previousStateForKey))
              (obj_set nextState key nextStateForKey)
      end
  end.

(** The default parameter [state = {}]. *)
Definition default_state (state : value) : CM value :=
  if is_undefined state then new_object [] else cret state.

(** The diagnostic block of [combination]. *)
Definition report_unexpected_state_shape (c : combined) (state action : value)
  : CM unit :=
  if negb (production h) then
    let* warningMessage :=
      getUnexpectedStateShapeWarningMessage state (finalReducers c) action
        (unexpectedKeyCacheRef c) in
    match warningMessage with
    | Some message => warning message
    | None => cret tt
    end
  else cret tt.

(** [combination(state = {}, action)] *)
Definition combination (c : combined) (state action : value) : CM value :=
  let* state := default_state state in
  if truthy (shapeAssertionError c) then cthrow (shapeAssertionError c)
  else
    let* _ := report_unexpected_state_shape c state action in
    let* nextStateId := fresh_id in
    let* result :=
      combination_loop c state action (finalReducerKeys c) false [] in
    let (hasChanged, nextProps) := result in
    cret (if hasChanged then VObj nextStateId true nextProps else state).

(** *** What the record of invocations looks like *)

Definition is_init_action (a : value) : Prop :=
  exists id, a = VObj id true [("type", VStr ActionTypes_INIT)].

Definition is_probe_action (a : value) : Prop :=
  exists id n,
    a = VObj id true [("type", VStr (probe_type (random_suffix h n)))].

(** [validation_trace reducers keys trace err]: [trace] is what validating
    [keys] in order invokes, and [err] what it leaves to be captured
    ([undefined] when every key passes). *)
Inductive validation_trace (reducers : list (string * value))
  : list string -> list call_record -> value -> Prop :=
| vt_done : validation_trace reducers [] [] VUndef
| vt_pass key keys a1 v1 a2 v2 rest err :
    is_init_action a1 -> v1 <> VUndef ->
    is_probe_action a2 -> v2 <> VUndef ->
    validation_trace reducers keys rest err ->
    validation_trace reducers (key :: keys)
      (Call key (obj_get reducers key) VUndef a1 (Ok v1)
       :: Call key (obj_get reducers key) VUndef a2 (Ok v2) :: rest) err
| vt_init_undefined key keys a1 :
    is_init_action a1 ->
    validation_trace reducers (key :: keys)
      [Call key (obj_get reducers key) VUndef a1 (Ok VUndef)]
      (VError (init_error_message key))
| vt_probe_undefined key keys a1 v1 a2 :
    is_init_action a1 -> v1 <> VUndef -> is_probe_action a2 ->
    validation_trace reducers (key :: keys)
      [Call key (obj_get reducers key) VUndef a1 (Ok v1);
       Call key (obj_get reducers key) VUndef a2 (Ok VUndef)]
      (VError (probe_error_message key))
| vt_init_throws key keys a1 e :
    is_init_action a1 ->
    validation_trace reducers (key :: keys)
      [Call key (obj_get reducers key) VUndef a1 (Err e)] e
| vt_probe_throws key keys a1 v1 a2 e :
    is_init_action a1 -> v1 <> VUndef -> is_probe_action a2 ->
    validation_trace reducers (key :: keys)
      [Call key (obj_get reducers key) VUndef a1 (Ok v1);
       Call key (obj_get reducers key) VUndef a2 (Err e)] e.

(** The invocation of the reducer of [key] by [combination], with previous
    sub-state [prev] and defined result [next]. *)
Definition sub_call (c : combined) (action : value)
    (sub : string * value * value) : call_record :=
  let '(key, prev, next) := sub in
  Call key (obj_get (finalReducers c) key) prev action (Ok next).

(** Every retained reducer, called with [action] and any previous
    sub-state, returns, and returns a value that is not [undefined]. *)
Definition returns_defined (c : combined) (action : value) : Prop :=
  forall key id prev w,
    In key (finalReducerKeys c) ->
    obj_get (finalReducers c) key = VFun id ->
    exists v w',
      renv h id [prev; action] w = (Ok v, w') /\ is_undefined v = false.

(** What is enough for the diagnostic block of [combination] to return
    without calling anything: a production build, or no retained reducer,
    or a state that is no plain object and has a class name, or a plain
    state with no key, or a plain state and no retained reducer named
    [hasOwnProperty] (with the cache object in place). *)
Definition diagnostics_return (c : combined) (state : value) : Prop :=
  production h = true
  \/ finalReducers c = []
  \/ (isPlainObject state = false /\ class_name state <> None)
  \/ (exists id, state = VObj id true [])
  \/ (isPlainObject state = true
      /\ obj_has (finalReducers c) "hasOwnProperty" = false
      /\ unexpectedKeyCacheRef c <> None).

(** The condition of the [filter] in [getUnexpectedStateShapeWarningMessage]
    when [hasOwnProperty] is the built-in method: [key] is no own key of
    the reducers, and the cache object [id], whose own keys are [cached],
    has no truthy member of that name. *)
Definition reported_key (reducers : list (string * value))
    (cached : list string) (id : nat) (key : string) : bool :=
  negb (obj_has reducers key)
  && negb (mem_string key cached || truthy (inherited h (VObj id true []) key)).

(** The state of the embedding with the callers' world replaced. *)
Definition with_world (st : cstate U) (w : uworld U) : cstate U :=
  CState w (unexpectedKeyCache st) (warnings st) (calls st).


Definition sub_key (sub : string * value * value) : string := sub.1.1.
Definition sub_prev (sub : string * value * value) : value := sub.1.2.
Definition sub_next (sub : string * value * value) : value := sub.2.

End Combine.

(** ** createStore.js *)

(** The code of a callback: a tree of calls into the store.  A call hands
    its outcome (the value returned or the value thrown) to the rest of the
    program, which may carry on after a failure as a [try]/[catch] would.
    [Unsubscribe h] calls the function that the [h]-th call of [subscribe]
    returned, [CallDispatch c] the [dispatch] variable [c] of an
    [applyMiddleware] closure, [NewObject] evaluates an object literal. *)
Inductive prog (A : Type) : Type :=
| Ret (a : A)
| Throw (e : value)
| GetState (k : value -> prog A)
| Dispatch (action : value) (k : outcome value -> prog A)
| Subscribe (listener : value) (k : outcome nat -> prog A)
| Unsubscribe (h : nat) (k : prog A)
| ReplaceReducer (nextReducer : value) (k : outcome unit -> prog A)
| CallDispatch (cell : nat) (action : value) (k : outcome value -> prog A)
| NewObject (props : list (string * value)) (k : value -> prog A).
Arguments Ret {A} a.
Arguments Throw {A} e.
Arguments GetState {A} k.
Arguments Dispatch {A} action k.
Arguments Subscribe {A} listener k.
Arguments Unsubscribe {A} h k.
Arguments ReplaceReducer {A} nextReducer k.
Arguments CallDispatch {A} cell action k.
Arguments NewObject {A} props k.

Definition lift_outcome {A} (r : outcome A) : prog A :=
  match r with Ok a => Ret a | Err e => Throw e end.

Fixpoint pbind {A B} (p : prog A) (f : A -> prog B) : prog B :=
  match p with
  | Ret a => f a
  | Throw e => Throw e
  | GetState k => GetState (fun v => pbind (k v) f)
  | Dispatch action k => Dispatch action (fun r => pbind (k r) f)
  | Subscribe listener k => Subscribe listener (fun r => pbind (k r) f)
  | Unsubscribe h k => Unsubscribe h (pbind k f)
  | ReplaceReducer nextReducer k =>
      ReplaceReducer nextReducer (fun r => pbind (k r) f)
  | CallDispatch cell action k =>
      CallDispatch cell action (fun r => pbind (k r) f)
  | NewObject props k => NewObject props (fun v => pbind (k v) f)
  end.

(** A function that takes an action, as [dispatch] does. *)
Definition dispatch_fn : Type := value -> prog value.

(** The closure variables of [createStore], with the listener arrays held by
    identity ([arrays], of which [currentListeners] and [nextListeners] name
    two, possibly the same one), the closure of every [subscribe] call (its
    [listener] and its [isSubscribed]), the [dispatch] variables of the
    [applyMiddleware] closures around the store, and the allocator of object
    identities.  [notified] lists the listeners that notification passes
    have called so far, in the order of the calls; it is kept only to state
    properties. *)
Record world : Type := World {
  currentReducer : value;
  currentState : value;
  arrays : list (list value);
  currentListeners : nat;
  nextListeners : nat;
  isDispatching : bool;
  subscriptions : list (value * bool);
  cells : list dispatch_fn;
  next_object : nat;
  notified : list value
}.

Definition set_currentReducer (r : value) (w : world) : world :=
  World r (currentState w) (arrays w) (currentListeners w) (nextListeners w)
        (isDispatching w) (subscriptions w) (cells w) (next_object w)
        (notified w).

Definition set_currentState (v : value) (w : world) : world :=
  World (currentReducer w) v (arrays w) (currentListeners w) (nextListeners w)
        (isDispatching w) (subscriptions w) (cells w) (next_object w)
        (notified w).

Definition set_arrays (a : list (list value)) (w : world) : world :=
  World (currentReducer w) (currentState w) a (currentListeners w)
        (nextListeners w) (isDispatching w) (subscriptions w) (cells w)
        (next_object w) (notified w).

Definition set_currentListeners (c : nat) (w : world) : world :=
  World (currentReducer w) (currentState w) (arrays w) c (nextListeners w)
        (isDispatching w) (subscriptions w) (cells w) (next_object w)
        (notified w).

Definition set_nextListeners (n : nat) (w : world) : world :=
  World (currentReducer w) (currentState w) (arrays w) (currentListeners w) n
        (isDispatching w) (subscriptions w) (cells w) (next_object w)
        (notified w).

Definition set_isDispatching (b : bool) (w : world) : world :=
  World (currentReducer w) (currentState w) (arrays w) (currentListeners w)
        (nextListeners w) b (subscriptions w) (cells w) (next_object w)
        (notified w).

Definition set_subscriptions (s : list (value * bool)) (w : world) : world :=
  World (currentReducer w) (currentState w) (arrays w) (currentListeners w)
        (nextListeners w) (isDispatching w) s (cells w) (next_object w)
        (notified w).

Definition set_cells (c : list dispatch_fn) (w : world) : world :=
  World (currentReducer w) (currentState w) (arrays w) (currentListeners w)
        (nextListeners w) (isDispatching w) (subscriptions w) c (next_object w)
        (notified w).

Definition set_next_object (n : nat) (w : world) : world :=
  World (currentReducer w) (currentState w) (arrays w) (currentListeners w)
        (nextListeners w) (isDispatching w) (subscriptions w) (cells w) n
        (notified w).

(** Records that a notification pass calls [listener]. *)
Definition note_call (listener : value) (w : world) : world :=
  World (currentReducer w) (currentState w) (arrays w) (currentListeners w)
        (nextListeners w) (isDispatching w) (subscriptions w) (cells w)
        (next_object w) (notified w ++ [listener]).

(** The elements of the array with identity [a]. *)
Definition get_array (w : world) (a : nat) : list value :=
  default [] (arrays w !! a).

(** [array.indexOf(x)], with [-1] for "not found". *)
Fixpoint indexOf (l : list value) (x : value) : Z :=
  match l with
  | [] => (-1)%Z
  | y :: rest =>
      if strict_eq y x then 0%Z
      else let i := indexOf rest x in
           if (i <? 0)%Z then (-1)%Z else (i + 1)%Z
  end.

(** [array.splice(index, 1)]: a negative index counts from the end. *)
Definition splice_one (l : list value) (index : Z) : list value :=
  let len := Z.of_nat (length l) in
  let start :=
    if (index <? 0)%Z then Z.max (len + index) 0 else Z.min index len in
  delete (Z.to_nat start) l.

Definition ensureCanMutateNextListeners (w : world) : world :=
  if Nat.eqb (nextListeners w) (currentListeners w)
  then set_nextListeners (length (arrays w))
         (set_arrays (arrays w ++ [get_array w (currentListeners w)]) w)
  else w.

Definition getState (w : world) : value := currentState w.

(** [subscribe(listener)]; the function it returns is named by the index of
    its closure in [subscriptions]. *)
Definition subscribe (listener : value) (w : world) : outcome nat * world :=
  if negb (is_function listener)
  then (Err (VError "Expected listener to be a function."), w)
  else
    let h := length (subscriptions w) in
    let w := set_subscriptions (subscriptions w ++ [(listener, true)]) w in
    let w := ensureCanMutateNextListeners w in
    let w := set_arrays
               (<[nextListeners w := get_array w (nextListeners w) ++ [listener]]>
                  (arrays w)) w in
    (Ok h, w).

(** The function returned by the [h]-th call of [subscribe] (an [h] that
    names no such call does nothing). *)
Definition unsubscribe (h : nat) (w : world) : world :=
  match subscriptions w !! h with
  | None => w
  | Some (listener, isSubscribed) =>
      if negb isSubscribed then w
      else
        let w :=
          set_subscriptions (<[h := (listener, false)]> (subscriptions w)) w in
        let w := ensureCanMutateNextListeners w in
        let index := indexOf (get_array w (nextListeners w)) listener in
        set_arrays
          (<[nextListeners w := splice_one (get_array w (nextListeners w)) index]>
             (arrays w)) w
  end.

Definition new_object_in (props : list (string * value)) (w : world)
  : value * world :=
  (VObj (next_object w) true props, set_next_object (S (next_object w)) w).

Section Store.
(** The code of the function values. *)
Variable fenv : nat -> list value -> prog value.

(** [f(...args)] *)
Definition call_function (f : value) (args : list value) : prog value :=
  match f with
  | VFun id => fenv id args
  | _ => Throw (VError "TypeError: not a function")
  end.

(** What runs the code of a callback, and what runs the notification loop
    from index [i] of the array [listeners]; [None] is a run that does not
    end within the steps allowed (or that calls a [dispatch] variable which
    does not exist). *)
Definition runner : Type :=
  prog value -> world -> option (outcome value * world).

Definition looper : Type :=
  nat -> nat -> world -> option (outcome unit * world).

(** [dispatch(action)] *)
Definition dispatch (run : runner) (loop : looper) (action : value) (w : world)
  : option (outcome value * world) :=
  if negb (isPlainObject action) then
    Some (Err (VError ("Actions must be plain objects. "
                       +:+ "Use custom middleware for async actions.")), w)
  else if is_undefined (match action with
                        | VObj _ _ props => obj_get props "type"
                        | _ => VUndef
                        end) then
    Some (Err (VError ("Actions may not have an undefined "
                       +:+ dq +:+ "type" +:+ dq +:+ " property. "
                       +:+ "Have you misspelled a constant?")), w)
  else if isDispatching w then
    Some (Err (VError "Reducers may not dispatch actions."), w)
  else
    match run (call_function (currentReducer w) [currentState w; action])
              (set_isDispatching true w) with
    | None => None
    | Some (Err e, w) => Some (Err e, set_isDispatching false w)
    | Some (Ok nextState, w) =>
        let w := set_isDispatching false (set_currentState nextState w) in
        let listeners := nextListeners w in
        let w := set_currentListeners listeners w in
        match loop listeners 0 w with
        | None => None
        | Some (Err e, w) => Some (Err e, w)
        | Some (Ok _, w) => Some (Ok action, w)
        end
    end.

(** [replaceReducer(nextReducer)] *)
Definition replaceReducer (run : runner) (loop : looper) (nextReducer : value)
    (w : world) : option (outcome unit * world) :=
  if negb (is_function nextReducer)
  then Some (Err (VError "Expected the nextReducer to be a function."), w)
  else
    let w := set_currentReducer nextReducer w in
    let (initAction, w) := new_object_in [("type", VStr ActionTypes_INIT)] w in
    match dispatch run loop initAction w with
    | None => None
    | Some (Err e, w) => Some (Err e, w)
    | Some (Ok _, w) => Some (Ok tt, w)
    end.

(** Runs a program; the callbacks that its store calls invoke are run by
    [run] and [loop]. *)
Fixpoint interp (run : runner) (loop : looper) {A} (p : prog A) (w : world)
  : option (outcome A * world) :=
  match p with
  | Ret a => Some (Ok a, w)
  | Throw e => Some (Err e, w)
  | GetState k => interp run loop (k (getState w)) w
  | Dispatch action k =>
      match dispatch run loop action w with
      | None => None
      | Some (r, w) => interp run loop (k r) w
      end
  | Subscribe listener k =>
      let (r, w) := subscribe listener w in interp run loop (k r) w
  | Unsubscribe h k => interp run loop k (unsubscribe h w)
  | ReplaceReducer nextReducer k =>
      match replaceReducer run loop nextReducer w with
      | None => None
      | Some (r, w) => interp run loop (k r) w
      end
  | CallDispatch cell action k =>
      match cells w !! cell with
      | None => None
      | Some f =>
          match run (f action) w with
          | None => None
          | Some (r, w) => interp run loop (k r) w
          end
      end
  | NewObject props k =>
      let (v, w) := new_object_in props w in interp run loop (k v) w
  end.

(** [exec fuel] runs the code of a callback and [notify fuel listeners i]
    the loop [for (; i < listeners.length; i++) listeners[i]()], both within
    [fuel] nested calls. *)
Fixpoint exec (fuel : nat) (p : prog value) (w : world) {struct fuel}
  : option (outcome value * world) :=
  match fuel with
  | 0 => None
  | S n => interp (exec n) (notify n) p w
  end
with notify (fuel : nat) (listeners i : nat) (w : world) {struct fuel}
  : option (outcome unit * world) :=
  match fuel with
  | 0 => None
  | S n =>
      match get_array w listeners !! i with
      | None => Some (Ok tt, w)
      | Some listener =>
          match exec n (call_function listener []) (note_call listener w) with
          | None => None
          | Some (Err e, w) => Some (Err e, w)
          | Some (Ok _, w) => notify n listeners (S i) w
          end
      end
  end.

(** A program of the caller, and the store's own operations called by it. *)
Definition run_prog (fuel : nat) {A} (p : prog A) (w : world)
  : option (outcome A * world) :=
  interp (exec fuel) (notify fuel) p w.

Definition dispatch_in (fuel : nat) (action : value) (w : world)
  : option (outcome value * world) :=
  dispatch (exec fuel) (notify fuel) action w.

(** The notification pass over a fixed list of listeners: each one called
    once, in order, until one throws. *)
Fixpoint call_each (fuel : nat) (listeners : list value) (w : world)
  : option (outcome unit * world) :=
  match fuel with
  | 0 => None
  | S n =>
      match listeners with
      | [] => Some (Ok tt, w)
      | listener :: rest =>
          match exec n (call_function listener []) (note_call listener w) with
          | None => None
          | Some (Err e, w) => Some (Err e, w)
          | Some (Ok _, w) => call_each n rest w
          end
      end
  end.

(** The object that [createStore] returns: its methods, as calls into the
    store (the observable interop is left out). *)
Record store : Type := Store {
  s_dispatch : dispatch_fn;
  s_subscribe : value -> prog nat;
  s_getState : prog value;
  s_replaceReducer : value -> prog unit
}.

Definition base_store : store :=
  Store (fun action => Dispatch action lift_outcome)
        (fun listener => Subscribe listener lift_outcome)
        (GetState Ret)
        (fun nextReducer => ReplaceReducer nextReducer lift_outcome).

(** A store-creating function, [(reducer, preloadedState, enhancer) => store]. *)
Definition creator : Type :=
  value -> value -> value -> world -> option (outcome store * world).

(** The code of the function values used as enhancers. *)
Variable eenv : nat -> nat -> creator -> creator.

(** [createStore(reducer, preloadedState, enhancer)]: the closure variables
    of the new store replace those of [w], of which the [dispatch] variables
    and the allocator are kept. *)
Fixpoint createStore (fuel : nat) (reducer preloadedState enhancer : value)
    (w : world) : option (outcome store * world) :=
  match fuel with
  | 0 => None
  | S n =>
      let swap := is_function preloadedState && is_undefined enhancer in
      let enhancer := if swap then preloadedState else enhancer in
      let preloadedState := if swap then VUndef else preloadedState in
      if negb (is_undefined enhancer) then
        match enhancer with
        | VFun id => eenv id n (createStore n) reducer preloadedState VUndef w
        | _ => Some (Err (VError "Expected the enhancer to be a function."), w)
        end
      else if negb (is_function reducer) then
        Some (Err (VError "Expected the reducer to be a function."), w)
      else
        let w := World reducer preloadedState [[]] 0 0 false []
                       (cells w) (next_object w) [] in
        let (initAction, w) :=
          new_object_in [("type", VStr ActionTypes_INIT)] w in
        match dispatch (exec n) (notify n) initAction w with
        | None => None
        | Some (Err e, w) => Some (Err e, w)
        | Some (Ok _, w) => Some (Ok base_store, w)
        end
  end.

(** ** applyMiddleware.js *)

Record middlewareAPI : Type := MiddlewareAPI {
  api_getState : prog value;
  api_dispatch : dispatch_fn
}.

(** A middleware, [api => next => action => result]: given the API it runs
    and returns a function from the next [dispatch] to a [dispatch]. *)
Definition middleware : Type :=
  middlewareAPI -> prog (list dispatch_fn -> prog dispatch_fn).

(** [programs.map(run)], in order. *)
Fixpoint run_each (fuel : nat) {A} (programs : list (prog A)) (w : world)
  : option (outcome (list A) * world) :=
  match programs with
  | [] => Some (Ok [], w)
  | p :: rest =>
      match run_prog fuel p w with
      | None => None
      | Some (Err e, w) => Some (Err e, w)
      | Some (Ok a, w) =>
          match run_each fuel rest w with
          | None => None
          | Some (Err e, w) => Some (Err e, w)
          | Some (Ok l, w) => Some (Ok (a :: l), w)
          end
      end
  end.

(** Calling [undefined] as a dispatch function. *)
Definition undefined_dispatch : dispatch_fn :=
  fun _ => Throw (VError "TypeError: dispatch is not a function").

(** [applyMiddleware(...middlewares)(createStore)(reducer, preloadedState, enhancer)] *)
Definition applyMiddleware (fuel : nat) (middlewares : list middleware)
    (createStore : creator) : creator :=
  fun reducer preloadedState enhancer w =>
    match createStore reducer preloadedState enhancer w with
    | None => None
    | Some (Err e, w) => Some (Err e, w)
    | Some (Ok store, w) =>
        let dispatch := length (cells w) in
        let w := set_cells (cells w ++ [s_dispatch store]) w in
        let middlewareAPI :=
          MiddlewareAPI (s_getState store)
            (fun action => CallDispatch dispatch action lift_outcome) in
        match run_each fuel (map (fun m => m middlewareAPI) middlewares) w with
        | None => None
        | Some (Err e, w) => Some (Err e, w)
        | Some (Ok chain, w) =>
            match run_prog fuel
                    (compose Ret pbind undefined_dispatch chain
                       [s_dispatch store]) w with
            | None => None
            | Some (Err e, w) => Some (Err e, w)
            | Some (Ok composed, w) =>
                Some (Ok (Store composed (s_subscribe store) (s_getState store)
                                (s_replaceReducer store)),
                      set_cells (<[dispatch := composed]> (cells w)) w)
            end
        end
    end.

End Store.

(** *** Predicates on worlds and runs *)

(** The world in which [dispatch] starts the notification pass, from the
    world [w1] in which the reducer returned [nextState]. *)
Definition pass_start (nextState : value) (w1 : world) : world :=
  set_currentListeners (nextListeners w1)
    (set_isDispatching false (set_currentState nextState w1)).

(** [reducer(currentState, action)] as [dispatch] calls it. *)
Definition reducer_call (fenv : nat -> list value -> prog value)
    (action : value) (w : world) : prog value :=
  call_function fenv (currentReducer w) [currentState w; action].

(** What [dispatch] returns after a notification pass. *)
Definition after_pass (action : value) (x : option (outcome unit * world))
  : option (outcome value * world) :=
  match x with
  | None => None
  | Some (Err e, w) => Some (Err e, w)
  | Some (Ok _, w) => Some (Ok action, w)
  end.

(** A relation between the world before and the world after is respected by
    what runs callbacks when every run that ends is in it. *)
Definition respects_run (R : world -> world -> Prop) (run : runner) : Prop :=
  forall p w r w', run p w = Some (r, w') -> R w w'.

Definition respects_loop (R : world -> world -> Prop) (loop : looper) : Prop :=
  forall a i w r w', loop a i w = Some (r, w') -> R w w'.

(** What makes a relation hold between the two ends of every run: it is a
    preorder that contains the steps of [subscribe], of the functions that
    [subscribe] returns, of an object literal and of [replaceReducer], and
    it survives the bracket that [dispatch] puts around the reducer and the
    record of a listener call. *)
Record respected (R : world -> world -> Prop) : Prop := Respected {
  r_refl : forall w, R w w;
  r_trans : forall a b c, R a b -> R b c -> R a c;
  r_subscribe : forall l w, R w (subscribe l w).2;
  r_unsubscribe : forall h w, R w (unsubscribe h w);
  r_new_object : forall props w, R w (new_object_in props w).2;
  r_note_call : forall l w, R w (note_call l w);
  r_set_reducer :
    forall r w, is_function r = true -> R w (set_currentReducer r w);
  r_dispatch_err :
    forall w w1,
      isDispatching w = false ->
      R (set_isDispatching true w) w1 ->
      R w (set_isDispatching false w1);
  r_dispatch_ok :
    forall w w1 v,
      isDispatching w = false ->
      R (set_isDispatching true w) w1 ->
      R w (pass_start v w1)
}.

(** The array [a] exists and, if it is [nextListeners], it is also
    [currentListeners], so that the next mutation starts by copying it. *)
Definition frozen (a : nat) (w : world) : Prop :=
  a < length (arrays w) /\ (nextListeners w = a -> currentListeners w = a).

(** The number of registrations of [l] in a listener array, and the number
    of [subscribe] closures for [l] that are still subscribed. *)
Definition registered (l : value) (listeners : list value) : nat :=
  length (List.filter (fun x => strict_eq x l) listeners).

Definition subscribed (l : value) (subs : list (value * bool)) : nat :=
  length (List.filter (fun s => strict_eq s.1 l && s.2) subs).

(** The worlds a store can be in: both listener arrays exist, they and the
    [subscribe] closures hold functions only, the reducer is a function, and
    [nextListeners] holds each listener once per closure still subscribed
    for it. *)
Record store_ok (w : world) : Prop := StoreOk {
  ok_next : nextListeners w < length (arrays w);
  ok_current : currentListeners w < length (arrays w);
  ok_reducer : is_function (currentReducer w) = true;
  ok_arrays : Forall (Forall (fun l => is_function l = true)) (arrays w);
  ok_subscriptions : Forall (fun s => is_function s.1 = true) (subscriptions w);
  ok_registry :
    forall l, registered l (get_array w (nextListeners w))
              = subscribed l (subscriptions w)
}.

(** A program that neither dispatches nor replaces the reducer. *)
Inductive quiet {A : Type} : prog A -> Prop :=
| quiet_Ret a : quiet (Ret a)
| quiet_Throw e : quiet (Throw e)
| quiet_GetState k : (forall v, quiet (k v)) -> quiet (GetState k)
| quiet_Subscribe l k : (forall r, quiet (k r)) -> quiet (Subscribe l k)
| quiet_Unsubscribe h k : quiet k -> quiet (Unsubscribe h k)
| quiet_NewObject props k : (forall v, quiet (k v)) -> quiet (NewObject props k).

(** A valid action: a plain object whose [type] is not [undefined]. *)
Definition valid_action (action : value) : Prop :=
  exists id props,
    action = VObj id true props /\ is_undefined (obj_get props "type") = false.

(** What a run leaves of the dispatch guard and, while the guard is set, of
    the State. *)
Definition guard_kept (w w' : world) : Prop :=
  isDispatching w' = isDispatching w
  /\ (isDispatching w = true -> currentState w' = currentState w).

(** What a run leaves of an array that is being iterated. *)
Definition array_kept (a : nat) (w w' : world) : Prop :=
  frozen a w -> frozen a w' /\ arrays w' !! a = arrays w !! a.

Definition cells_kept (w w' : world) : Prop := cells w' = cells w.

Definition store_ok_kept (w w' : world) : Prop := store_ok w -> store_ok w'.

(** A program that calls nothing of the store but [getState]: the code of
    a reducer that is a pure function of its arguments and the State. *)
Inductive pure_prog {A : Type} : prog A -> Prop :=
| pure_Ret a : pure_prog (Ret a)
| pure_Throw e : pure_prog (Throw e)
| pure_GetState k : (forall v, pure_prog (k v)) -> pure_prog (GetState k)
| pure_NewObject props k :
    (forall v, pure_prog (k v)) -> pure_prog (NewObject props k).

(** ** bindActionCreators.js *)

(** [typeof v] *)
Definition type_of (v : value) : string :=
  match v with
  | VUndef => "undefined"
  | VNull => "object"
  | VBool _ => "boolean"
  | VNum _ => "number"
  | VStr _ => "string"
  | VObj _ _ _ => "object"
  | VFun _ => "function"
  | VError _ => "object"
  end.

(** [Object.keys(v)] and [v[key]] for a value that is an object: the message
    of an [Error] is not enumerable. *)
Definition own_props (v : value) : list (string * value) :=
  match v with
  | VObj _ _ props => props
  | _ => []
  end.

(** The code of a function that the library makes: what a call with the
    given arguments runs. *)
Definition bound_creator : Type := list value -> prog value.

(** What [bindActionCreators] returns: one function, or a new object whose
    properties are functions. *)
Inductive bound : Type :=
| BoundFunction (f : bound_creator)
| BoundObject (id : nat) (props : list (string * bound_creator)).

(** [object[key] = f] on a table of functions. *)
Fixpoint bound_set (props : list (string * bound_creator)) (key : string)
    (f : bound_creator) : list (string * bound_creator) :=
  match props with
  | [] => [(key, f)]
  | (k, g) :: rest =>
      if String.eqb k key then (k, f) :: rest
      else (k, g) :: bound_set rest key f
  end.

Fixpoint bound_get (props : list (string * bound_creator)) (key : string)
  : option bound_creator :=
  match props with
  | [] => None
  | (k, g) :: rest => if String.eqb k key then Some g else bound_get rest key
  end.

Definition bind_error_message (received : string) : string :=
  "bindActionCreators expected an object or a function, instead received "
  +:+ received +:+ ". "
  +:+ "Did you write " +:+ dq +:+ "import ActionCreators from" +:+ dq
  +:+ " instead of " +:+ dq +:+ "import * as ActionCreators from" +:+ dq +:+ "?".

Definition bind_warning_message (key type : string) : string :=
  "bindActionCreators expected a function actionCreator for key '" +:+ key
  +:+ "', instead received type '" +:+ type +:+ "'.".

Section Bind.
Context {U : Type}.
Variable fenv : nat -> list value -> prog value.

Local Notation "'let*' x ':=' m 'in' k" := (cbind m (fun x => k))
  (at level 10, x name, m at level 100, k at level 200, only parsing).

(** [(...args) => dispatch(actionCreator(...args))] *)
Definition bindActionCreator (actionCreator : value) (dispatch : dispatch_fn)
  : bound_creator :=
  fun args => pbind (call_function fenv actionCreator args) dispatch.

(** The [for] loop of [bindActionCreators]. *)
Fixpoint bind_each (actionCreators : list (string * value))
    (dispatch : dispatch_fn) (keys : list string)
    (boundActionCreators : list (string * bound_creator))
  : @CM U (list (string * bound_creator)) :=
  match keys with
  | [] => cret boundActionCreators
  | key :: rest =>
      let actionCreator := obj_get actionCreators key in
      if is_function actionCreator then
        bind_each actionCreators dispatch rest
          (bound_set boundActionCreators key
             (bindActionCreator actionCreator dispatch))
      else
        let* _ := warning (bind_warning_message key (type_of actionCreator)) in
        bind_each actionCreators dispatch rest boundActionCreators
  end.

(** [bindActionCreators(actionCreators, dispatch)]; the messages go to the
    same [warning] as those of [combineReducers]. *)
Definition bindActionCreators (actionCreators : value) (dispatch : dispatch_fn)
  : @CM U bound :=
  if is_function actionCreators then
    cret (BoundFunction (bindActionCreator actionCreators dispatch))
  else if negb (String.eqb (type_of actionCreators) "object")
          || strict_eq actionCreators VNull then
    cthrow (VError (bind_error_message
                      (if strict_eq actionCreators VNull then "null"
                       else type_of actionCreators)))
  else
    let keys := obj_keys (own_props actionCreators) in
    let* id := fresh_id in
    let* props := bind_each (own_props actionCreators) dispatch keys [] in
    cret (BoundObject id props).

End Bind.

(** ** applyMiddleware.js: middlewares that only wrap *)

(** The middleware [api => next => wrap(api, next)], whose construction
    calls nothing. *)
Definition plain_middleware
    (wrap : middlewareAPI -> dispatch_fn -> dispatch_fn) : middleware :=
  fun api => Ret (fun args => Ret (wrap api (hd undefined_dispatch args))).

(** ** Example programs *)

Definition action_of_type (id : nat) (type : value) : value :=
  VObj id true [("type", type)].

(** [(state = 0, action) => action.type === 'INC' ? state + 1 : state] *)
Definition counter_reducer (args : list value) : outcome value :=
  match args with
  | [state; action] =>
      let state := if is_undefined state then VNum 0 else state in
      match get_prop action "type" with
      | Err e => Err e
      | Ok t =>
          if strict_eq t (VStr "INC")
          then match state with
               | VNum n => Ok (VNum (n + 1))
               | other => Ok other
               end
          else Ok state
      end
  | _ => Ok VUndef
  end.

(** [(state = null, action) => action.type === 'X' ? undefined : state] *)
Definition x_reducer (args : list value) : outcome value :=
  match args with
  | [state; action] =>
      let state := if is_undefined state then VNull else state in
      match get_prop action "type" with
      | Err e => Err e
      | Ok t => if strict_eq t (VStr "X") then Ok VUndef else Ok state
      end
  | _ => Ok VNull
  end.

(** [(state = null, action) => action.type === 0 ? undefined : state] *)
Definition zero_reducer (args : list value) : outcome value :=
  match args with
  | [state; action] =>
      let state := if is_undefined state then VNull else state in
      match get_prop action "type" with
      | Err e => Err e
      | Ok t => if strict_eq t (VNum 0) then Ok VUndef else Ok state
      end
  | _ => Ok VNull
  end.

(** [(state = 0, action) => state] *)
Definition same_reducer (args : list value) : outcome value :=
  match args with
  | [state; _] => Ok (if is_undefined state then VNum 0 else state)
  | _ => Ok (VNum 0)
  end.

(** [(state = null, action) =>
      typeof action.type === 'object' || typeof action.type === 'number'
        ? undefined : state] *)
Definition typed_reducer (args : list value) : outcome value :=
  match args with
  | [state; action] =>
      let state := if is_undefined state then VNull else state in
      match get_prop action "type" with
      | Err e => Err e
      | Ok (VObj _ _ _) | Ok (VNum _) => Ok VUndef
      | Ok _ => Ok state
      end
  | _ => Ok VNull
  end.

(** Function 0 is the counter, function 1 returns [undefined] whatever it
    is given, function 2 returns [undefined] for the type ['X'] only,
    function 3 returns [undefined] unless the type is the reserved INIT,
    function 4 returns [undefined] for the type [0] only, function 5
    returns the state it is given and function 6 returns [undefined] for a
    type that is an object or a number. *)
Definition example_renv (id : nat) (args : list value) (w : uworld unit)
  : outcome value * uworld unit :=
  match id with
  | 0 => (counter_reducer args, w)
  | 1 => (Ok VUndef, w)
  | 2 => (x_reducer args, w)
  | 3 => (match args with
          | [_; action] =>
              match get_prop action "type" with
              | Ok t => if strict_eq t (VStr ActionTypes_INIT)
                        then Ok VNull else Ok VUndef
              | Err e => Err e
              end
          | _ => Ok VUndef
          end, w)
  | 4 => (zero_reducer args, w)
  | 5 => (same_reducer args, w)
  | 6 => (typed_reducer args, w)
  | _ => (Err (VError "no such function"), w)
  end.

(** What every object of the examples inherits: the functions of
    [Object.prototype], as the built-in functions 100 to 106. *)
Definition object_prototype (key : string) : value :=
  if String.eqb key "constructor" then VFun 100
  else if String.eqb key "toString" then VFun 101
  else if String.eqb key "toLocaleString" then VFun 102
  else if String.eqb key "valueOf" then VFun 103
  else if String.eqb key "hasOwnProperty" then VFun 104
  else if String.eqb key "isPrototypeOf" then VFun 105
  else if String.eqb key "propertyIsEnumerable" then VFun 106
  else VUndef.

Definition example_inherited (v : value) (key : string) : value :=
  match v with
  | VObj _ _ _ => object_prototype key
  | _ => VUndef
  end.

(** The text of the values of the examples: an object with an own
    [toString] that is no function cannot be printed, a number beyond the
    safe integers is taken to be [10^21]. *)
Definition example_text (v : value) (w : uworld unit)
  : outcome string * uworld unit :=
  match v with
  | VObj _ _ props =>
      if obj_has props "toString"
      then (Err (VError "TypeError: toString is not a function"), w)
      else (Ok "[object Object]", w)
  | VFun _ => (Ok "function () {}", w)
  | VError msg => (Ok ("Error: " +:+ msg), w)
  | VNum _ => (Ok "1e+21", w)
  | _ => (Ok "", w)
  end.

(** The classes of the examples: an object that is not plain and has the
    index [0] is an array. *)
Definition example_class (v : value) : option string :=
  match v with
  | VObj _ plain props =>
      if negb plain && obj_has props "0" then Some "Array" else Some "Object"
  | VFun _ => Some "Function"
  | VError _ => Some "Error"
  | _ => None
  end.

Definition example_host : host unit :=
  Host example_renv (fun n => "r." +:+ pretty n) example_inherited example_text
       example_class false.

Definition cstate0 : cstate unit := CState (UWorld 0 0 tt) [] [] [].

(** [combineReducers({ count: counter })] and the states and actions it is
    tried on. *)
Definition ex_combined : combined :=
  Combined [("count", VFun 0)] ["count"] (Some 0) VUndef.

Definition ex_cstate : cstate unit :=
  (combineReducers example_host [("count", VFun 0)] cstate0).2.


Definition ex_state : value :=
  VObj 50 true [("count", VNum 4); ("extra", VNum 1)].


Definition ex_inc : value := action_of_type 77 (VStr "INC").

Definition ex_nop : value := action_of_type 78 (VStr "NOP").

(** [combineReducers({ a: x_reducer })], [combineReducers({ a: zero_reducer })]
    and [combineReducers({ a: () => undefined, b: counter })]. *)
Definition ex_x_combined : combined :=
  Combined [("a", VFun 2)] ["a"] (Some 0) VUndef.

Definition ex_x_cstate : cstate unit :=
  (combineReducers example_host [("a", VFun 2)] cstate0).2.

(** The action for which [x_reducer] returns [undefined], and what the
    combination makes of it. *)
Definition ex_x_action : value := action_of_type 7 (VStr "X").

Definition ex_x_error : outcome value :=
  Err (VError (undefined_state_message (dq +:+ "X" +:+ dq) "a")).

Definition ex_x_failed : cstate unit :=
  (combination example_host ex_x_combined VUndef ex_x_action ex_x_cstate).2.

Definition ex_zero_combined : combined :=
  Combined [("a", VFun 4)] ["a"] (Some 0) VUndef.

Definition ex_zero_cstate : cstate unit :=
  (combineReducers example_host [("a", VFun 4)] cstate0).2.

(** [combineReducers({ a: typed_reducer })] and
    [combineReducers({ toString: same_reducer })]. *)
Definition ex_typed_combined : combined :=
  Combined [("a", VFun 6)] ["a"] (Some 0) VUndef.

Definition ex_typed_cstate : cstate unit :=
  (combineReducers example_host [("a", VFun 6)] cstate0).2.

Definition ex_named_combined : combined :=
  Combined [("toString", VFun 5)] ["toString"] (Some 0) VUndef.

Definition ex_named_cstate : cstate unit :=
  (combineReducers example_host [("toString", VFun 5)] cstate0).2.

Definition ex_bad_reducers : list (string * value) :=
  [("a", VFun 1); ("b", VFun 0)].

Definition undefined_result_tail (key : string) : string :=
  ", reducer " +:+ dq +:+ key +:+ dq +:+ " returned undefined. "
  +:+ "To ignore an action, you must explicitly return the previous state. "
  +:+ "If you want this reducer to hold no value, you can return null instead of undefined.".

(** The functions of the store examples.  Function 0 is the counter reducer.
    Function 1 is a reducer that throws for the type ['BOOM'], calls
    [dispatch] for the type ['RE'] and is the counter otherwise.  The others
    are listeners: 10 does nothing, 11 subscribes listener 10, 12 throws, 13
    calls the first function that [subscribe] returned, 14 dispatches
    ['INC'] when the State is [1]. *)
Definition store_fenv (id : nat) (args : list value) : prog value :=
  match id with
  | 0 => lift_outcome (counter_reducer args)
  | 1 =>
      match args with
      | [_; VObj _ _ props] =>
          if strict_eq (obj_get props "type") (VStr "BOOM")
          then Throw (VError "boom")
          else if strict_eq (obj_get props "type") (VStr "RE")
          then Dispatch (action_of_type 900 (VStr "INC")) lift_outcome
          else lift_outcome (counter_reducer args)
      | _ => lift_outcome (counter_reducer args)
      end
  | 10 => Ret VUndef
  | 11 => Subscribe (VFun 10) (fun _ => Ret VUndef)
  | 12 => Throw (VError "listener failed")
  | 13 => Unsubscribe 0 (Ret VUndef)
  | 14 => GetState (fun s =>
            if strict_eq s (VNum 1)
            then Dispatch (action_of_type 901 (VStr "INC")) (fun _ => Ret VUndef)
            else Ret VUndef)
  | _ => Throw (VError "no such function")
  end.

Definition no_enhancers (id fuel : nat) (c : creator) : creator := c.

Definition world0 : world := World VUndef VUndef [] 0 0 false [] [] 0 [].

(** A store of reducer 1 just created, and the actions tried on it. *)
Definition ex_world_r1 : world :=
  World (VFun 1) (VNum 0) [[]] 0 0 false [] [] 1 [].

Definition ex_boom : value := action_of_type 5 (VStr "BOOM").

Definition ex_re : value := action_of_type 6 (VStr "RE").

(** A store of the counter with listeners 11 and 13 subscribed, and one with
    listeners 10, 12 and 10. *)
Definition ex_world_listeners : world :=
  World (VFun 0) (VNum 0) [[]; [VFun 11; VFun 13]] 0 1 false
        [(VFun 11, true); (VFun 13, true)] [] 1 [].

Definition ex_world_failing : world :=
  World (VFun 0) (VNum 0) [[]; [VFun 10; VFun 12; VFun 10]] 0 1 false
        [(VFun 10, true); (VFun 12, true); (VFun 10, true)] [] 1 [].

(** The world in which listener 12 raises when [ex_world_failing] is sent
    ['INC']. *)
Definition ex_world_failed : world :=
  World (VFun 0) (VNum 1) [[]; [VFun 10; VFun 12; VFun 10]] 1 1 false
        [(VFun 10, true); (VFun 12, true); (VFun 10, true)] [] 1
        [VFun 10; VFun 12].

(** A store of the counter with the one listener 14, which dispatches from
    the notification pass. *)
Definition ex_world_nested : world :=
  World (VFun 0) (VNum 0) [[]; [VFun 14]] 0 1 false [(VFun 14, true)] [] 1 [].

(** A middleware that dispatches ['INC'] while it is constructed and adds
    nothing to the chain: [api => { api.dispatch({ type: 'INC' }); return
    next => next }]. *)
Definition eager_middleware : middleware :=
  fun api =>
    pbind (api_dispatch api (action_of_type 7 (VStr "INC")))
          (fun _ => Ret (fun args => Ret (hd undefined_dispatch args))).

Definition ex_created : world :=
  World (VFun 0) (VNum 0) [[]] 0 0 false [] [] 1 [].

(** ** More example programs *)

(** The functions of the second group of store examples, none of which
    dispatches: function 0 is the counter reducer, listener 10 does
    nothing and listener 11 subscribes listener 10. *)
Definition quiet_fenv (id : nat) (args : list value) : prog value :=
  match id with
  | 0 => lift_outcome (counter_reducer args)
  | 10 => Ret VUndef
  | 11 => Subscribe (VFun 10) (fun _ => Ret VUndef)
  | _ => Throw (VError "no such function")
  end.

(** A store of the counter with listeners 11 and 10 subscribed. *)
Definition ex_world_quiet : world :=
  World (VFun 0) (VNum 0) [[]; [VFun 11; VFun 10]] 0 1 false
        [(VFun 11, true); (VFun 10, true)] [] 1 [].

(** The store of [ex_created] while its reducer runs. *)
Definition ex_world_busy : world :=
  World (VFun 0) (VNum 0) [[]] 0 0 true [] [] 1 [].

(** The store of the counter while [createStore] has the reducer answer
    the INIT action. *)
Definition ex_world_init : world :=
  World (VFun 0) VUndef [[]] 0 0 true [] [] 1 [].

(** The store of [ex_created] with listener 10 subscribed. *)
Definition ex_world_subscribed : world :=
  World (VFun 0) (VNum 0) [[]; [VFun 10]] 0 1 false [(VFun 10, true)] [] 1 [].

(** Action creators: function 20 makes an ['INC'] action (a new object),
    function 21 raises. *)
Definition creators_fenv (id : nat) (args : list value) : prog value :=
  match id with
  | 20 => NewObject [("type", VStr "INC")] Ret
  | 21 => Throw (VError "cannot create")
  | _ => store_fenv id args
  end.

Definition ex_creators : list (string * value) :=
  [("inc", VFun 20); ("version", VNum 3); ("fail", VFun 21)].

(** Functions on numbers that may fail, composed as [compose] does. *)
Definition obind (m : option Z) (k : Z -> option Z) : option Z :=
  match m with
  | Some x => k x
  | None => None
  end.

Definition ex_add (n : Z) : list Z -> option Z :=
  fun args => Some (hd 0%Z args + n)%Z.

Definition ex_half : list Z -> option Z :=
  fun args =>
    let x := hd 0%Z args in
    if Z.even x then Some (x / 2)%Z else None.

(** The middlewares [api => next => action => { next(action); return
    next(action) }] and [api => next => next], and one that raises while it
    is constructed. *)
Definition ex_wrap_twice : middlewareAPI -> dispatch_fn -> dispatch_fn :=
  fun _ next action => pbind (next action) (fun _ => next action).

Definition ex_wrap_same : middlewareAPI -> dispatch_fn -> dispatch_fn :=
  fun _ next => next.

Definition failing_middleware : middleware :=
  fun _ => Throw (VError "cannot construct").

(** The enhancer [applyMiddleware(twice, same)], as function 30. *)
Definition middleware_enhancers (id fuel : nat) (c : creator) : creator :=
  match id with
  | 30 => applyMiddleware store_fenv fuel
            (map plain_middleware [ex_wrap_twice; ex_wrap_same]) c
  | _ => c
  end.

(** A production build of the example host. *)
Definition production_host : host unit :=
  Host example_renv (fun n => "r." +:+ pretty n) example_inherited example_text
       example_class true.

Definition ex_reducers_mixed : list (string * value) :=
  [("count", VFun 0); ("missing", VUndef); ("n", VNum 1)].

(** A program that subscribes listener 10 and calls the function returned
    at once. *)
Definition ex_subscribe_and_leave : prog value :=
  Subscribe (VFun 10)
    (fun r => match r with
              | Ok handle => Unsubscribe handle (Ret VUndef)
              | Err e => Throw e
              end).




Definition ex_state_array : value := VObj 53 false [("0", VNum 1)].
(** * Properties *)

(** ** compose.js *)

Section ComposeFacts.
Context {M : Type -> Type} {T : Type}.
Variable ret : T -> M T.
Variable bind : M T -> (T -> M T) -> M T.
Variable undef : T.

Local Abbreviation compose := (compose ret bind undef).

(** C8: [compose()] is the identity on its single argument, [compose(f)]
    is [f], and for two or more functions the rightmost one receives the
    original argument list while the composition of the functions to its
    left receives exactly one argument, the value it returned; so
    [compose(f, g, h)(...args)] is [f(g(h(...args)))]. *)
Theorem compose_right_to_left :
  (forall x rest, compose [] (x :: rest) = ret x)
  /\ (forall f, compose [f] = f)
  /\ (forall f fs l args,
        compose (f :: fs ++ [l]) args
        = bind (l args) (fun r => compose (f :: fs) [r]))
  /\ (forall f g h args,
        compose [f; g; h] args
        = bind (h args) (fun r => bind (g [r]) (fun r' => f [r']))).
Proof.
  repeat split; try reflexivity.
  intros f fs l args. destruct fs as [|g fs]; [reflexivity|].
  change (compose (f :: (g :: fs) ++ [l]))
    with (fold_left (compose_step bind) ((g :: fs) ++ [l]) f).
  rewrite fold_left_app. reflexivity.
Qed.
End ComposeFacts.

(** ** combineReducers.js *)

Section CombineFacts.
Context {U : Type}.
Variable h : host U.

Local Ltac run_cm :=
  unfold cbind, cret, cthrow, ctry, new_object, fresh_id, random_probe_suffix,
    warning, new_cache in *; simpl in *.

Lemma cbind_ok {A B} (m : @CM U A) (k : A -> @CM U B) st a st' :
  m st = (Ok a, st') -> cbind m k st = k a st'.
Proof. unfold cbind. now intros ->. Qed.

Lemma cbind_err {A B} (m : @CM U A) (k : A -> @CM U B) st e st' :
  m st = (Err e, st') -> cbind m k st = (Err e, st').
Proof. unfold cbind. now intros ->. Qed.

(** *** Property tables *)

Lemma obj_keys_obj_set_in props key v k :
  In k (obj_keys (obj_set props key v)) -> k = key \/ In k (obj_keys props).
Proof.
  induction props as [|[k0 w] rest IH]; simpl.
  - intros [<-|[]]. now left.
  - destruct (String.eqb k0 key) eqn:E; simpl.
    + intros [<-|Hin]; right; [now left | now right].
    + intros [<-|Hin]; [right; now left|].
      destruct (IH Hin) as [->|Hin']; [now left | right; now right].
Qed.

Lemma obj_keys_obj_set_NoDup props key v :
  NoDup (obj_keys props) -> NoDup (obj_keys (obj_set props key v)).
Proof.
  induction props as [|[k0 w] rest IH]; simpl; intros Hnd.
  - repeat constructor. intros Hin. inversion Hin.
  - apply NoDup_cons in Hnd as [Hnotin Hnd].
    destruct (String.eqb k0 key) eqn:E; simpl.
    + apply NoDup_cons. split; assumption.
    + apply NoDup_cons. split; [|now apply IH].
      rewrite list_elem_of_In. intros Hin.
      apply obj_keys_obj_set_in in Hin as [->|Hin].
      * rewrite String.eqb_refl in E. discriminate.
      * apply Hnotin. now rewrite list_elem_of_In.
Qed.

Lemma obj_set_fresh props key v :
  ~ In key (obj_keys props) -> obj_set props key v = props ++ [(key, v)].
Proof.
  induction props as [|[k0 w] rest IH]; simpl; intros Hnotin; [reflexivity|].
  destruct (String.eqb k0 key) eqn:E.
  - apply String.eqb_eq in E. exfalso. apply Hnotin. now left.
  - rewrite IH; [reflexivity|]. intros Hin. apply Hnotin. now right.
Qed.

Lemma all_functions_obj_set props key v :
  is_function v = true -> all_functions props ->
  all_functions (obj_set props key v).
Proof.
  intros Hv. induction props as [|[k0 w] rest IH]; simpl; intros Hall.
  - repeat constructor. exact Hv.
  - apply Forall_cons in Hall as [Hw Hrest].
    destruct (String.eqb k0 key); constructor; simpl; auto.
    apply IH, Hrest.
Qed.

Lemma all_functions_obj_get props key :
  all_functions props -> In key (obj_keys props) ->
  exists id, obj_get props key = VFun id.
Proof.
  induction props as [|[k0 w] rest IH]; simpl; intros Hall Hin; [destruct Hin|].
  apply Forall_cons in Hall as [Hw Hrest]. simpl in Hw.
  destruct (String.eqb k0 key) eqn:E.
  - destruct w; try discriminate. eauto.
  - destruct Hin as [->|Hin]; [rewrite String.eqb_refl in E; discriminate|].
    now apply IH.
Qed.

(** *** The first loop of [combineReducers] *)

Lemma retain_functions_spec reducers keys acc st :
  exists fr warns,
    retain_functions h reducers keys acc st
    = (Ok fr, CState (uw st) (unexpectedKeyCache st) (warnings st ++ warns)
                     (calls st))
    /\ (NoDup (obj_keys acc) -> NoDup (obj_keys fr))
    /\ (all_functions acc -> all_functions fr).
Proof.
  revert acc st. induction keys as [|key rest IH]; intros acc st; simpl.
  - exists acc, []. rewrite app_nil_r. destruct st; auto.
  - run_cm.
    set (acc' := if is_function (obj_get reducers key)
                 then obj_set acc key (obj_get reducers key) else acc).
    assert (Hnd : NoDup (obj_keys acc) -> NoDup (obj_keys acc')).
    { subst acc'. destruct (is_function _); auto using obj_keys_obj_set_NoDup. }
    assert (Hfn : all_functions acc -> all_functions acc').
    { subst acc'. destruct (is_function _) eqn:E; auto using all_functions_obj_set. }
    destruct (negb (production h) && is_undefined (obj_get reducers key)).
    + destruct (IH acc' (CState (uw st) (unexpectedKeyCache st)
                   (warnings st ++ ["No reducer provided for key " +:+ dq +:+ key +:+ dq])
                   (calls st))) as (fr & warns & Heq & Hnd' & Hfn').
      exists fr, (("No reducer provided for key " +:+ dq +:+ key +:+ dq) :: warns).
      simpl in Heq. rewrite Heq, <- app_assoc. auto.
    + destruct (IH acc' st) as (fr & warns & Heq & Hnd' & Hfn').
      exists fr, warns. auto.
Qed.

(** *** Validation *)

Lemma validation_spec reducers keys st :
  all_functions reducers ->
  (forall key, In key keys -> In key (obj_keys reducers)) ->
  exists r st' trace,
    for_each (assert_one h reducers) keys st = (r, st')
    /\ calls st' = calls st ++ trace
    /\ unexpectedKeyCache st' = unexpectedKeyCache st
    /\ warnings st' = warnings st
    /\ validation_trace h reducers keys trace
         (match r with Ok _ => VUndef | Err e => e end).
Proof.
  intros Hfn. revert st. induction keys as [|key rest IH]; intros st Hkeys.
  - exists (Ok tt), st, []. simpl. rewrite app_nil_r.
    repeat split. constructor.
  - destruct (all_functions_obj_get reducers key Hfn) as [id Hid].
    { apply Hkeys. now left. }
    simpl. unfold assert_one. rewrite Hid. run_cm.
    destruct (renv h id _ (UWorld (S (next_obj (uw st))) _ _)) as [r1 w1] eqn:E1.
    destruct r1 as [v1|e1].
    2:{ eexists _, _, [_]. repeat split; simpl; eauto.
        rewrite <- Hid. apply vt_init_throws. eexists; reflexivity. }
    destruct (is_undefined v1) eqn:Ev1.
    { destruct v1; try discriminate.
      eexists _, _, [_]. repeat split; simpl; eauto.
      rewrite <- Hid. apply vt_init_undefined. eexists; reflexivity. }
    simpl.
    destruct (renv h id _ (UWorld (S (next_obj w1)) _ _)) as [r2 w2] eqn:E2.
    destruct r2 as [v2|e2].
    2:{ eexists _, _, [_; _]. repeat split; simpl; eauto.
        - now rewrite <- app_assoc.
        - rewrite <- Hid. apply vt_probe_throws.
          + eexists; reflexivity.
          + intros ->. discriminate.
          + eexists _, _; reflexivity. }
    destruct (is_undefined v2) eqn:Ev2.
    { destruct v2; try discriminate.
      eexists _, _, [_; _]. repeat split; simpl; eauto.
      - now rewrite <- app_assoc.
      - rewrite <- Hid. apply vt_probe_undefined.
        + eexists; reflexivity.
        + intros ->. discriminate.
        + eexists _, _; reflexivity. }
    simpl.
    match goal with
    | |- context [for_each _ rest ?s] =>
        destruct (IH s) as (r & st' & trace & Heq & Hcalls & Hcache & Hwarn & Htr)
    end.
    { intros k Hk. apply Hkeys. now right. }
    exists r, st'. eexists (_ :: _ :: trace).
    split; [exact Heq|]. simpl in *.
    split; [rewrite Hcalls, <- !app_assoc; reflexivity|].
    repeat split; auto.
    rewrite <- Hid. apply vt_pass; auto.
    + eexists; reflexivity.
    + intros ->. discriminate.
    + eexists _, _; reflexivity.
    + intros ->. discriminate.
Qed.

Lemma combineReducers_spec reducers st :
  exists c st' trace,
    combineReducers h reducers st = (Ok c, st')
    /\ calls st' = calls st ++ trace
    /\ validation_trace h (finalReducers c) (finalReducerKeys c) trace
         (shapeAssertionError c)
    /\ finalReducerKeys c = obj_keys (finalReducers c)
    /\ NoDup (finalReducerKeys c)
    /\ all_functions (finalReducers c)
    /\ (production h = false -> unexpectedKeyCacheRef c <> None).
Proof.
  unfold combineReducers, cbind at 1.
  destruct (retain_functions_spec reducers (obj_keys reducers) [] st)
    as (fr & warns & -> & Hnd & Hfn).
  specialize (Hnd (NoDup_nil_2 (A:=string))). specialize (Hfn (Forall_nil_2 _)).
  unfold cbind at 1.
  set (st1 := CState (uw st) (unexpectedKeyCache st) (warnings st ++ warns) (calls st)).
  assert (Hst2 : exists cache st2,
             (if negb (production h) then new_cache else cret None) st1
             = (Ok cache, st2)
             /\ calls st2 = calls st
             /\ (production h = false -> cache <> None)).
  { destruct (production h); run_cm; eexists _, _; repeat split; congruence. }
  destruct Hst2 as (cache & st2 & -> & Hc2 & Hcache).
  destruct (validation_spec fr (obj_keys fr) st2 Hfn (fun _ H => H))
    as (r & st' & trace & Heq & Hcalls & _ & _ & Htr).
  unfold cbind at 1, ctry, assertReducerShape.
  unfold cbind at 1. rewrite Heq.
  destruct r as [[]|e]; run_cm.
  - eexists _, _, trace. split; [reflexivity|]. simpl.
    rewrite Hcalls, Hc2. auto 10.
  - eexists _, _, trace. split; [reflexivity|]. simpl.
    rewrite Hcalls, Hc2. auto 10.
Qed.

(** *** Texts and messages *)

Lemma with_world_same (st st2 : cstate U) :
  uw st2 = uw st -> with_world st2 (uw st) = st2.
Proof. destruct st2. simpl. now intros <-. Qed.

(** The text of a value depends on the callers' world only, and changes
    nothing else. *)
Lemma to_string_world v st :
  exists r w',
    forall st2, uw st2 = uw st -> to_string h v st2 = (r, with_world st2 w').
Proof.
  assert (Hhost : exists r w', forall st2, uw st2 = uw st ->
                     host_text h v st2 = (r, with_world st2 w')).
  { destruct (text_of h v (uw st)) as [r w'] eqn:E. exists r, w'.
    intros st2 Hw. unfold host_text. now rewrite Hw, E. }
  destruct v as [| |[|]|n|s|id plain props|id|msg]; simpl;
    try destruct (safe_integer n); try exact Hhost;
    (eexists _, (uw st); intros st2 Hw; unfold cret, cthrow;
     rewrite (with_world_same st st2 Hw); reflexivity).
Qed.

Lemma raise_message {A} key action st :
  exists r w',
    (forall st2, uw st2 = uw st ->
       getUndefinedStateErrorMessage h key action st2 = (r, with_world st2 w'))
    /\ (forall st2, uw st2 = uw st ->
          cbind (getUndefinedStateErrorMessage h key action)
                (fun m => @cthrow U A (VError m)) st2
          = (Err (match r with Ok m => VError m | Err e => e end),
             with_world st2 w')).
Proof.
  unfold getUndefinedStateErrorMessage. cbv zeta.
  destruct (truthy (action_type_of h action)).
  - destruct (to_string_world (action_type_of h action) st) as (r & w' & Hts).
    exists (match r with
            | Ok text => Ok (undefined_state_message (dq +:+ text +:+ dq) key)
            | Err e => Err e
            end), w'.
    split; intros st2 Hw; unfold cbind, cret, cthrow; rewrite (Hts st2 Hw);
      destruct r; reflexivity.
  - eexists (Ok _), (uw st).
    split; intros st2 Hw; unfold cbind, cret, cthrow;
      rewrite (with_world_same st st2 Hw); reflexivity.
Qed.

(** *** The loop of [combination] *)

Lemma combination_loop_ok c state action keys hc acc st hc' acc' st' :
  combination_loop h c state action keys hc acc st = (Ok (hc', acc'), st') ->
  exists subs,
    map sub_key subs = keys
    /\ calls st' = calls st ++ map (sub_call c action) subs
    /\ Forall (fun s => read_prop h state (sub_key s) = Ok (sub_prev s)
                        /\ sub_next s <> VUndef) subs
    /\ hc' = hc || negb (forallb (fun s => strict_eq (sub_next s) (sub_prev s)) subs)
    /\ acc' = fold_left (fun a s => obj_set a (sub_key s) (sub_next s)) subs acc.
Proof.
  revert hc acc st. induction keys as [|key rest IH]; intros hc acc st; simpl.
  - run_cm. intros [= <- <- <-]. exists []. simpl.
    rewrite app_nil_r, orb_false_r. auto.
  - destruct (read_prop h state key) as [prev|e] eqn:Eprev; [|discriminate].
    unfold cbind at 1, call_reducer.
    destruct (obj_get (finalReducers c) key) eqn:Efn; try discriminate.
    destruct (renv h id [prev; action] (uw st)) as [[next|e] w'] eqn:Ecall;
      [|discriminate].
    destruct (is_undefined next) eqn:Eundef.
    { match goal with
      | |- cbind _ _ ?s = _ -> _ =>
          destruct (raise_message (A := bool * list (string * value))
                      key action s) as (r & w2 & _ & Hraise);
          rewrite (Hraise s eq_refl)
      end. discriminate. }
    intros Hloop. apply IH in Hloop as (subs & Hkeys & Hcalls & Hall & Hhc & Hacc).
    exists ((key, prev, next) :: subs). simpl in *.
    split; [now rewrite Hkeys|].
    split; [rewrite Hcalls, <- app_assoc, Efn; reflexivity|].
    split.
    { constructor; [split; [exact Eprev|]|exact Hall].
      intros Hn. change (next = VUndef) in Hn. subst next. discriminate. }
    split; [|exact Hacc].
    rewrite Hhc. change (sub_prev (key, prev, next)) with prev.
    destruct hc, (strict_eq next prev); reflexivity.
Qed.

Lemma fold_obj_set_fresh (subs : list (string * value * value)) acc :
  NoDup (obj_keys acc ++ map sub_key subs) ->
  fold_left (fun a s => obj_set a (sub_key s) (sub_next s)) subs acc
  = acc ++ map (fun s => (sub_key s, sub_next s)) subs.
Proof.
  revert acc. induction subs as [|s subs IH]; intros acc Hnd; simpl.
  - now rewrite app_nil_r.
  - assert (Hfresh : ~ In (sub_key s) (obj_keys acc)).
    { intros Hin. apply NoDup_app in Hnd as (_ & Hdisj & _).
      apply (Hdisj (sub_key s)); [now apply list_elem_of_In|]. simpl. left. }
    rewrite obj_set_fresh by exact Hfresh.
    rewrite IH.
    + now rewrite <- app_assoc.
    + unfold obj_keys in *. rewrite map_app, <- app_assoc. exact Hnd.
Qed.

(** Whatever the loop returns, a reducer result of [undefined] ends it: the
    message is built in the state that the invocation left, and the loop
    raises the error with that message, or what building the message
    raised. *)
Lemma combination_loop_undefined c state action keys hc acc st r st' :
  combination_loop h c state action keys hc acc st = (r, st') ->
  exists new,
    calls st' = calls st ++ new
    /\ forall pre cl post,
         new = pre ++ cl :: post -> call_result cl = Ok VUndef ->
         post = []
         /\ call_action cl = action
         /\ exists sa,
              calls sa = calls st'
              /\ (r, st')
                 = match getUndefinedStateErrorMessage h (call_key cl) action sa with
                   | (Ok message, sb) =>
                       (Err (VError message) : outcome (bool * list (string * value)), sb)
                   | (Err e, sb) => (Err e, sb)
                   end.
Proof.
  revert hc acc st. induction keys as [|key rest IH]; intros hc acc st; simpl.
  - run_cm. intros [= <- <-]. exists []. rewrite app_nil_r. split; [reflexivity|].
    intros [|? ?] ? ? ?; discriminate.
  - destruct (read_prop h state key) as [prev|e] eqn:Eprev.
    2:{ run_cm. intros [= <- <-]. exists []. rewrite app_nil_r.
        split; [reflexivity|]. intros [|? ?] ? ? ?; discriminate. }
    unfold cbind at 1, call_reducer.
    destruct (obj_get (finalReducers c) key) eqn:Efn;
      try (intros [= <- <-]; exists []; rewrite app_nil_r;
           split; [reflexivity|]; intros [|? ?] ? ? ?; discriminate).
    destruct (renv h id [prev; action] (uw st)) as [[next|e] w'] eqn:Ecall.
    + destruct (is_undefined next) eqn:Eundef.
      * destruct next; try discriminate.
        match goal with
        | |- cbind _ _ ?s = _ -> _ =>
            set (sa := s);
            destruct (raise_message (A := bool * list (string * value))
                        key action sa) as (rm & w2 & Hmsg & Hraise)
        end.
        intros Hrun. pose proof Hrun as Hst.
        rewrite (Hraise sa eq_refl) in Hst. injection Hst as Hr Hst.
        eexists [_]. split; [rewrite <- Hst; reflexivity|].
        intros pre cl post Hsplit Hres.
        destruct pre as [|? [|? ?]]; try discriminate.
        injection Hsplit as <- <-. simpl.
        repeat split. exists sa. split; [now rewrite <- Hst|].
        rewrite <- Hrun. unfold cbind, cthrow.
        destruct (getUndefinedStateErrorMessage h key action sa) as [[m|e] sb];
          reflexivity.
      * intros Hloop. apply IH in Hloop as (new & Hcalls & Hnew).
        eexists (_ :: new). simpl in *.
        split; [rewrite Hcalls, <- app_assoc; reflexivity|].
        intros pre cl post Hsplit Hres.
        destruct pre as [|c0 pre]; simpl in Hsplit.
        -- injection Hsplit as <- <-. simpl in Hres. injection Hres as ->.
           discriminate.
        -- injection Hsplit as <- Hsplit. eapply Hnew; eauto.
    + intros [= <- <-]. eexists [_]. simpl. split; [reflexivity|].
      intros pre cl post Hsplit Hres.
      destruct pre as [|? [|? ?]]; try discriminate.
      injection Hsplit as <- <-. discriminate.
Qed.



Lemma combination_loop_total c state action keys hc acc st :
  (forall key, In key keys -> In key (finalReducerKeys c)) ->
  all_functions (finalReducers c) ->
  finalReducerKeys c = obj_keys (finalReducers c) ->
  returns_defined h c action ->
  (forall key, exists prev, read_prop h state key = Ok prev) ->
  exists res st', combination_loop h c state action keys hc acc st = (Ok res, st').
Proof.
  intros Hkeys Hfn Hobj Hdef Hget. revert hc acc st.
  induction keys as [|key rest IH]; intros hc acc st; simpl.
  - run_cm. eauto.
  - destruct (Hget key) as [prev ->].
    assert (Hin : In key (finalReducerKeys c)) by (apply Hkeys; now left).
    destruct (all_functions_obj_get (finalReducers c) key Hfn) as [id Hid].
    { now rewrite <- Hobj. }
    destruct (Hdef key id prev (uw st) Hin Hid) as (v & w' & Hcall & Hv).
    unfold cbind at 1, call_reducer. rewrite Hid, Hcall, Hv.
    apply IH. intros k Hk. apply Hkeys. now right.
Qed.

(** *** The diagnostic block *)

Lemma hasOwnProperty_frame reducers key st r st' :
  hasOwnProperty h reducers key st = (r, st') ->
  calls st' = calls st /\ warnings st' = warnings st
  /\ unexpectedKeyCache st' = unexpectedKeyCache st.
Proof.
  unfold hasOwnProperty, cbind, cret, call_value.
  destruct (obj_has reducers "hasOwnProperty"); [|intros [= <- <-]; auto].
  destruct (obj_get reducers "hasOwnProperty"); try (intros [= <- <-]; auto).
  destruct (renv h id _ (uw st)) as [[v|e] w']; intros [= <- <-]; auto.
Qed.

Lemma unexpected_keys_frame reducers cache keys st r st' :
  unexpected_keys h reducers cache keys st = (r, st') ->
  calls st' = calls st /\ warnings st' = warnings st
  /\ unexpectedKeyCache st' = unexpectedKeyCache st.
Proof.
  revert st r st'. induction keys as [|key rest IH]; intros st r st'; simpl.
  - intros [= <- <-]. auto.
  - unfold cbind at 1.
    destruct (hasOwnProperty h reducers key st) as [[own|e] sa] eqn:Eown;
      apply hasOwnProperty_frame in Eown as (Hc & Hw & Hk);
      [|intros [= <- <-]; auto].
    assert (Hkeep :
               snd ((if own then cret false
                     else cbind (cache_has h cache key)
                            (fun cached => cret (negb cached))) sa) = sa).
    { destruct own; [reflexivity|].
      unfold cbind, cache_has, cret. now destruct cache. }
    unfold cbind at 1.
    match goal with
    | |- match ?m sa with _ => _ end = _ -> _ =>
        destruct (m sa) as [[keep|e] sb]
    end; simpl in Hkeep; subst sb; [|intros [= <- <-]; auto].
    unfold cbind at 1.
    destruct (unexpected_keys h reducers cache rest sa) as [[others|e] sc] eqn:Er;
      apply IH in Er as (Hc' & Hw' & Hk'); intros [= <- <-];
      repeat split; congruence.
Qed.

Lemma unexpected_keys_pure reducers id keys st :
  obj_has reducers "hasOwnProperty" = false ->
  unexpected_keys h reducers (Some id) keys st
  = (Ok (List.filter
           (reported_key h reducers (cache_keys (unexpectedKeyCache st) id) id)
           keys), st).
Proof.
  intros Hno. induction keys as [|key rest IH]; simpl; [reflexivity|].
  unfold cbind at 1, hasOwnProperty. rewrite Hno. unfold cret at 1.
  unfold reported_key at 1.
  destruct (obj_has reducers key); simpl.
  - unfold cbind, cret. now rewrite IH.
  - unfold cbind, cache_has, cret. rewrite IH.
    now destruct (mem_string key _ || truthy _).
Qed.

Lemma shape_message_frame state reducers action cache st r st' :
  getUnexpectedStateShapeWarningMessage h state reducers action cache st
  = (r, st') ->
  calls st' = calls st /\ warnings st' = warnings st.
Proof.
  unfold getUnexpectedStateShapeWarningMessage. cbv zeta.
  destruct (Nat.eqb _ 0); [intros [= <- <-]; auto|].
  destruct (negb (isPlainObject state)).
  { destruct (class_name h state); intros [= <- <-]; auto. }
  unfold cbind at 1.
  destruct (unexpected_keys h reducers cache _ st) as [[ks|e] sa] eqn:Eu;
    apply unexpected_keys_frame in Eu as (Hc & Hw & Hk);
    [|intros [= <- <-]; auto].
  unfold cbind at 1, mark_unexpected.
  destruct ks as [|k ks]; [|destruct cache]; simpl; unfold cret;
    intros [= <- <-]; simpl; auto.
Qed.

Lemma report_frame c state action st r st' :
  report_unexpected_state_shape h c state action st = (r, st') ->
  calls st' = calls st.
Proof.
  unfold report_unexpected_state_shape.
  destruct (negb (production h)); [|now intros [= <- <-]].
  unfold cbind.
  destruct (getUnexpectedStateShapeWarningMessage h state _ action _ st)
    as [[[m|]|e] sa] eqn:Em; apply shape_message_frame in Em as [Hc Hw];
    unfold warning, cret; intros [= <- <-]; simpl; auto.
Qed.

(** The diagnostic block returns, having called nothing, in the cases of
    [diagnostics_return]. *)
Lemma report_quiet c state action st :
  diagnostics_return h c state ->
  exists st',
    report_unexpected_state_shape h c state action st = (Ok tt, st')
    /\ uw st' = uw st /\ calls st' = calls st.
Proof.
  intros Hd. unfold report_unexpected_state_shape.
  destruct (production h) eqn:Eprod; simpl; [unfold cret; eauto|].
  assert (Hm : exists m sa,
             getUnexpectedStateShapeWarningMessage h state (finalReducers c)
               action (unexpectedKeyCacheRef c) st = (Ok m, sa)
             /\ uw sa = uw st /\ calls sa = calls st).
  { unfold getUnexpectedStateShapeWarningMessage. cbv zeta.
    destruct (Nat.eqb (length (obj_keys (finalReducers c))) 0) eqn:Elen;
      [unfold cret; eauto|].
    destruct Hd as [Hp|[Hnil|[[Hplain Hclass]|[[id ->]|(Hplain & Hno & Hcache)]]]].
    - congruence.
    - rewrite Hnil in Elen. discriminate.
    - rewrite Hplain. simpl.
      destruct (class_name h state); [unfold cret; eauto|congruence].
    - simpl. unfold cbind, cret, mark_unexpected. simpl. eauto.
    - rewrite Hplain. simpl.
      destruct (unexpectedKeyCacheRef c) as [cache|]; [|congruence].
      unfold cbind at 1. rewrite unexpected_keys_pure by exact Hno.
      unfold cbind, mark_unexpected, cret.
      destruct (List.filter _ _); simpl; eauto. }
  destruct Hm as (m & sa & Hm & Hu & Hc).
  unfold cbind. rewrite Hm.
  destruct m; unfold warning, cret; eexists; repeat split; simpl; auto.
Qed.

(** [combination] up to its loop: the default parameter, the captured
    error, the diagnostics and the allocation of [nextState]. *)
Lemma combination_unfold c state action st :
  combination h c state action st
  = let state0 :=
      if is_undefined state then VObj (next_obj (uw st)) true [] else state in
    let st_a :=
      if is_undefined state
      then with_world st (UWorld (S (next_obj (uw st))) (rng (uw st)) (user (uw st)))
      else st in
    if truthy (shapeAssertionError c) then (Err (shapeAssertionError c), st_a)
    else
      match report_unexpected_state_shape h c state0 action st_a with
      | (Err e, st_b) => (Err e, st_b)
      | (Ok _, st_b) =>
          match combination_loop h c state0 action (finalReducerKeys c) false []
                  (with_world st_b
                     (UWorld (S (next_obj (uw st_b))) (rng (uw st_b))
                             (user (uw st_b)))) with
          | (Ok (hasChanged, nextProps), st') =>
              (Ok (if hasChanged then VObj (next_obj (uw st_b)) true nextProps
                   else state0), st')
          | (Err e, st') => (Err e, st')
          end
      end.
Proof.
  unfold combination, default_state. cbv zeta.
  destruct (is_undefined state);
    unfold cbind at 1, new_object, cbind at 1, fresh_id, cret at 1;
    (destruct (truthy (shapeAssertionError c)); [reflexivity|]);
    unfold cbind at 1;
    (destruct (report_unexpected_state_shape h c _ action _)
       as [[[]|e] st_b]; [|reflexivity]);
    unfold cbind at 1, fresh_id; unfold cbind, cret, with_world;
    now destruct (combination_loop _ _ _ _ _ _ _ _) as [[[hc np]|e] st'].
Qed.

(** The states between which [combination] runs its diagnostics. *)
Lemma default_state_frame (state : value) (st : cstate U) :
  let st_a :=
    if is_undefined state
    then with_world st (UWorld (S (next_obj (uw st))) (rng (uw st)) (user (uw st)))
    else st in
  calls st_a = calls st
  /\ warnings st_a = warnings st
  /\ unexpectedKeyCache st_a = unexpectedKeyCache st
  /\ next_obj (uw st_a) = next_obj (uw st) + (if is_undefined state then 1 else 0).
Proof. destruct (is_undefined state); simpl; repeat split; lia. Qed.

(** *** The claims about [combineReducers] *)



(** C7, as the code has it: when [combination] gets [undefined] from a
    retained reducer, that invocation is its last one; the call then builds
    the message that names the key and fails with the error of that
    message, or with what building the message raised.  The message quotes
    the text of the action's type when that type is truthy, and says
    "an action" when the action or its type is falsy ([undefined], [null],
    [false], [0] or the empty string).  The text of a string is the string,
    that of [true] is "true" and that of a safe integer its decimal digits;
    the text of any other number, of an object, a function or an [Error] is
    what its [toString] gives in the callers' world, and an error raised
    there is the error of the call. *)
Theorem combination_undefined_result c state action st r st' :
  combination h c state action st = (r, st') ->
  exists new,
    calls st' = calls st ++ new
    /\ (forall pre cl post,
          new = pre ++ cl :: post -> call_result cl = Ok VUndef ->
          post = []
          /\ call_action cl = action
          /\ exists sa,
               calls sa = calls st'
               /\ (r, st')
                  = match getUndefinedStateErrorMessage h (call_key cl) action sa with
                    | (Ok message, sb) => (Err (VError message), sb)
                    | (Err e, sb) => (Err e, sb)
                    end)
    /\ (forall key sa,
          getUndefinedStateErrorMessage h key action sa
          = if truthy (action_type_of h action)
            then match to_string h (action_type_of h action) sa with
                 | (Ok text, sb) =>
                     (Ok (undefined_state_message (dq +:+ text +:+ dq) key), sb)
                 | (Err e, sb) => (Err e, sb)
                 end
            else (Ok (undefined_state_message "an action" key), sa))
    /\ (forall v sa,
          to_string h v sa
          = match v with
            | VStr s => (Ok s, sa)
            | VBool b => (Ok (if b then "true" else "false"), sa)
            | VNum n =>
                if safe_integer n then (Ok (pretty n), sa)
                else let (t, w) := text_of h v (uw sa) in (t, with_world sa w)
            | VObj _ _ _ | VFun _ | VError _ =>
                let (t, w) := text_of h v (uw sa) in (t, with_world sa w)
            | VUndef | VNull => (Err type_error, sa)
            end).
Proof.
  intros Hrun. rewrite combination_unfold in Hrun. cbv zeta in Hrun.
  destruct (default_state_frame state st) as (Hca & _). cbv zeta in Hca.
  set (st_a := if is_undefined state then _ else st) in *.
  set (state0 := if is_undefined state then _ else state) in *.
  assert (Hmsg : forall key sa,
    getUndefinedStateErrorMessage h key action sa
    = if truthy (action_type_of h action)
      then match to_string h (action_type_of h action) sa with
           | (Ok text, sb) =>
               (Ok (undefined_state_message (dq +:+ text +:+ dq) key), sb)
           | (Err e, sb) => (Err e, sb)
           end
      else (Ok (undefined_state_message "an action" key), sa)).
  { intros key sa. unfold getUndefinedStateErrorMessage. cbv zeta.
    destruct (truthy (action_type_of h action)); unfold cbind, cret;
      [|reflexivity].
    now destruct (to_string h _ sa) as [[text|e] sb]. }
  assert (Htext : forall v sa,
    to_string h v sa
    = match v with
      | VStr s => (Ok s, sa)
      | VBool b => (Ok (if b then "true" else "false"), sa)
      | VNum n =>
          if safe_integer n then (Ok (pretty n), sa)
          else let (t, w) := text_of h v (uw sa) in (t, with_world sa w)
      | VObj _ _ _ | VFun _ | VError _ =>
          let (t, w) := text_of h v (uw sa) in (t, with_world sa w)
      | VUndef | VNull => (Err type_error, sa)
      end).
  { intros v sa. destruct v as [| |[|]|n|s|id plain props|id|msg]; simpl;
      try destruct (safe_integer n); reflexivity. }
  assert (Hnone : forall pre (cl : call_record) post,
             [] = pre ++ cl :: post -> False)
    by (intros [|? ?] ? ? ?; discriminate).
  destruct (truthy (shapeAssertionError c)).
  { injection Hrun as <- <-. exists []. rewrite app_nil_r.
    split; [now rewrite Hca|]. split; [|split; [exact Hmsg|exact Htext]].
    intros pre cl post Hsplit. destruct (Hnone _ _ _ Hsplit). }
  destruct (report_unexpected_state_shape h c state0 action st_a)
    as [[[]|e] st_b] eqn:Erep; apply report_frame in Erep.
  2:{ injection Hrun as <- <-. exists []. rewrite app_nil_r.
      split; [now rewrite Erep, Hca|].
      split; [|split; [exact Hmsg|exact Htext]].
      intros pre cl post Hsplit. destruct (Hnone _ _ _ Hsplit). }
  destruct (combination_loop h c state0 action (finalReducerKeys c) false [] _)
    as [r0 st2] eqn:Eloop.
  apply combination_loop_undefined in Eloop as (new & Hnew & Hlast).
  assert (Hst : st' = st2) by (destruct r0 as [[? ?]|?]; congruence).
  subst st2. exists new. simpl in Hnew. rewrite Hnew, Erep, Hca.
  split; [reflexivity|]. split; [|split; [exact Hmsg|exact Htext]].
  intros pre cl post Hsplit Hres.
  destruct (Hlast pre cl post Hsplit Hres) as (-> & Hact & sa & Hsa & Heq).
  repeat split; auto. exists sa. split; [congruence|].
  destruct (getUndefinedStateErrorMessage h (call_key cl) action sa)
    as [[m|e] sb]; injection Heq as -> <-;
    destruct Hrun; congruence.
Qed.


End CombineFacts.

(** *** The claims about [combineReducers] on the example reducers *)


(** A reducer stored under a name that every object inherits:
    [combineReducers({ toString: (state = 0) => state })] reads
    [Object.prototype.toString] from the state [{}] as the previous
    sub-state, the reducer returns it, and the call returns the state it was
    given, the very object. *)
Example inherited_member_is_the_previous_sub_state :
  combineReducers example_host [("toString", VFun 5)] cstate0
  = (Ok ex_named_combined, ex_named_cstate)
  /\ exists st',
       combination example_host ex_named_combined (VObj 50 true []) ex_nop
         ex_named_cstate
       = (Ok (VObj 50 true []), st')
       /\ calls st'
          = calls ex_named_cstate
            ++ [Call "toString" (VFun 5) (VFun 101) ex_nop (Ok (VFun 101))].
Proof.
  split; [vm_compute; reflexivity|].
  eexists. split; vm_compute; reflexivity.
Qed.



Lemma combination_undefined_result_witness :
  combination example_host ex_x_combined VUndef ex_x_action ex_x_cstate
  = (ex_x_error, ex_x_failed)
  /\ exists new,
       calls ex_x_failed = calls ex_x_cstate ++ new
       /\ (forall pre cl post,
             new = pre ++ cl :: post -> call_result cl = Ok VUndef ->
             post = []
             /\ call_action cl = ex_x_action
             /\ exists sa,
                  calls sa = calls ex_x_failed
                  /\ (ex_x_error, ex_x_failed)
                     = match getUndefinedStateErrorMessage example_host
                               (call_key cl) ex_x_action sa with
                       | (Ok message, sb) => (Err (VError message), sb)
                       | (Err e, sb) => (Err e, sb)
                       end)
       /\ (forall key sa,
             getUndefinedStateErrorMessage example_host key ex_x_action sa
             = if truthy (action_type_of example_host ex_x_action)
               then match to_string example_host
                            (action_type_of example_host ex_x_action) sa with
                    | (Ok text, sb) =>
                        (Ok (undefined_state_message (dq +:+ text +:+ dq) key),
                         sb)
                    | (Err e, sb) => (Err e, sb)
                    end
               else (Ok (undefined_state_message "an action" key), sa))
       /\ (forall v sa,
             to_string example_host v sa
             = match v with
               | VStr s => (Ok s, sa)
               | VBool b => (Ok (if b then "true" else "false"), sa)
               | VNum n =>
                   if safe_integer n then (Ok (pretty n), sa)
                   else let (t, w) := text_of example_host v (uw sa) in
                        (t, with_world sa w)
               | VObj _ _ _ | VFun _ | VError _ =>
                   let (t, w) := text_of example_host v (uw sa) in
                   (t, with_world sa w)
               | VUndef | VNull => (Err type_error, sa)
               end).
Proof.
  split; [vm_compute; reflexivity|].
  apply (combination_undefined_result example_host ex_x_combined VUndef
           ex_x_action ex_x_cstate).
  vm_compute; reflexivity.
Defined.

(** C7 as stated fails: the action [{ type: 0 }] has a type, the reducer
    returns [undefined] for it, and the message says "an action" instead of
    naming the type. *)
Lemma undefined_result_message_omits_falsy_type :
  read_prop example_host (action_of_type 7 (VNum 0)) "type" = Ok (VNum 0)
  /\ combination example_host ex_zero_combined VUndef
       (action_of_type 7 (VNum 0)) ex_zero_cstate
     = (Err (VError ("Given action an action" +:+ undefined_result_tail "a")),
        (combination example_host ex_zero_combined VUndef
           (action_of_type 7 (VNum 0)) ex_zero_cstate).2)
  /\ to_string example_host (VNum 0) ex_zero_cstate = (Ok "0", ex_zero_cstate)
  /\ "Given action an action" +:+ undefined_result_tail "a"
     <> "Given action " +:+ dq +:+ "0" +:+ dq +:+ undefined_result_tail "a".
Proof.
  split; [reflexivity|]. split; [vm_compute; reflexivity|].
  split; [reflexivity|]. vm_compute. discriminate.
Qed.

(** The type [10^21] is quoted as the language prints it, and a type whose
    [toString] is no function makes the call fail with the [TypeError] of
    printing it, not with the error that names the reducer. *)
Example undefined_result_with_other_types :
  (exists st',
     combination example_host ex_typed_combined VUndef
       (action_of_type 7 (VNum (10 ^ 21))) ex_typed_cstate
     = (Err (VError ("Given action " +:+ dq +:+ "1e+21" +:+ dq
                     +:+ undefined_result_tail "a")), st'))
  /\ (exists st',
        combination example_host ex_typed_combined VUndef
          (action_of_type 7 (VObj 8 true [("toString", VNum 1)]))
          ex_typed_cstate
        = (Err (VError "TypeError: toString is not a function"), st')).
Proof.
  split; eexists; vm_compute; reflexivity.
Qed.


(** ** createStore.js *)

(** *** Steps of the interpreter *)

Section StoreSteps.
Variable fenv : nat -> list value -> prog value.

Lemma exec_S n p w :
  exec fenv (S n) p w = interp fenv (exec fenv n) (notify fenv n) p w.
Proof. reflexivity. Qed.

Lemma notify_S n listeners i w :
  notify fenv (S n) listeners i w
  = match get_array w listeners !! i with
    | None => Some (Ok tt, w)
    | Some listener =>
        match exec fenv n (call_function fenv listener [])
                (note_call listener w) with
        | None => None
        | Some (Err e, w) => Some (Err e, w)
        | Some (Ok _, w) => notify fenv n listeners (S i) w
        end
    end.
Proof. reflexivity. Qed.

End StoreSteps.

(** *** Relations that every run of a callback respects *)

Section Invariant.
Variable fenv : nat -> list value -> prog value.

(** [R w w'] relates the world before a run to the world after it. *)
Variable R : world -> world -> Prop.
Hypothesis HR : respected R.

Local Abbreviation R_refl := (r_refl R HR).
Local Abbreviation R_trans := (r_trans R HR).
Local Abbreviation R_subscribe := (r_subscribe R HR).
Local Abbreviation R_unsubscribe := (r_unsubscribe R HR).
Local Abbreviation R_new_object := (r_new_object R HR).
Local Abbreviation R_note_call := (r_note_call R HR).
Local Abbreviation R_set_reducer := (r_set_reducer R HR).
Local Abbreviation R_dispatch_err := (r_dispatch_err R HR).
Local Abbreviation R_dispatch_ok := (r_dispatch_ok R HR).

Lemma dispatch_respects run loop action w r w' :
  respects_run R run -> respects_loop R loop ->
  dispatch fenv run loop action w = Some (r, w') -> R w w'.
Proof.
  intros Hrun Hloop. unfold dispatch.
  destruct (negb (isPlainObject action)); [intros [= <- <-]; apply R_refl|].
  destruct (is_undefined _); [intros [= <- <-]; apply R_refl|].
  destruct (isDispatching w) eqn:Eguard; [intros [= <- <-]; apply R_refl|].
  destruct (run _ _) as [[[v|e] w1]|] eqn:Erun; [| |discriminate].
  - apply Hrun in Erun.
    destruct (loop _ _ _) as [[[[]|e] w2]|] eqn:Eloop; [| |discriminate];
      intros [= <- <-]; apply Hloop in Eloop;
      (eapply R_trans; [|exact Eloop]);
      change (set_currentListeners
                (nextListeners (set_isDispatching false (set_currentState v w1)))
                (set_isDispatching false (set_currentState v w1)))
        with (pass_start v w1); now apply R_dispatch_ok.
  - apply Hrun in Erun. intros [= <- <-]. now apply R_dispatch_err.
Qed.

Lemma replaceReducer_respects run loop nextReducer w r w' :
  respects_run R run -> respects_loop R loop ->
  replaceReducer fenv run loop nextReducer w = Some (r, w') -> R w w'.
Proof.
  intros Hrun Hloop. unfold replaceReducer.
  destruct (negb (is_function nextReducer)) eqn:Efn;
    [intros [= <- <-]; apply R_refl|].
  apply negb_false_iff in Efn.
  destruct (new_object_in _ _) as [a w1] eqn:Enew.
  assert (Hw1 : R w w1).
  { eapply R_trans; [apply (R_set_reducer nextReducer w Efn)|].
    pose proof (R_new_object [("type", VStr ActionTypes_INIT)]
                  (set_currentReducer nextReducer w)) as H.
    now rewrite Enew in H. }
  destruct (dispatch _ _ _ _ _) as [[[v|e] w2]|] eqn:Ed; [| |discriminate];
    intros [= <- <-]; apply R_trans with w1; eauto using dispatch_respects.
Qed.

Lemma interp_respects run loop {A} (p : prog A) w r w' :
  respects_run R run -> respects_loop R loop ->
  interp fenv run loop p w = Some (r, w') -> R w w'.
Proof.
  intros Hrun Hloop. revert w.
  induction p as [a|e|k IH|action k IH|l k IH|h k IH|nr k IH|c action k IH|props k IH];
    intros w; simpl.
  - intros [= <- <-]. apply R_refl.
  - intros [= <- <-]. apply R_refl.
  - apply IH.
  - destruct (dispatch _ _ _ _ _) as [[r1 w1]|] eqn:Ed; [|discriminate].
    intros Hk. apply R_trans with w1; [eapply dispatch_respects; eauto|eauto].
  - destruct (subscribe l w) as [r1 w1] eqn:Es. intros Hk.
    apply R_trans with w1; [|eauto].
    pose proof (R_subscribe l w) as H. now rewrite Es in H.
  - intros Hk. apply R_trans with (unsubscribe h w); [apply R_unsubscribe|eauto].
  - destruct (replaceReducer _ _ _ _ _) as [[r1 w1]|] eqn:Er; [|discriminate].
    intros Hk. apply R_trans with w1; [eapply replaceReducer_respects; eauto|eauto].
  - destruct (cells w !! c) as [f|]; [|discriminate].
    destruct (run (f action) w) as [[r1 w1]|] eqn:Erun; [|discriminate].
    intros Hk. apply R_trans with w1; [eapply Hrun; eauto|eauto].
  - intros Hk.
    apply R_trans with (new_object_in props w).2; [apply R_new_object|].
    eapply IH. exact Hk.
Qed.

Lemma exec_notify_respect n :
  respects_run R (exec fenv n) /\ respects_loop R (notify fenv n).
Proof.
  induction n as [|n [IHe IHn]]; [split; intros ? **; discriminate|].
  assert (He : respects_run R (exec fenv (S n))).
  { intros p w r w'. rewrite exec_S. now apply interp_respects. }
  split; [exact He|].
  intros a i w r w'. rewrite notify_S.
  destruct (get_array w a !! i) as [l|]; [|intros [= <- <-]; apply R_refl].
  destruct (exec fenv n _ (note_call l w)) as [[[v|e] w1]|] eqn:Ee;
    [| |discriminate].
  - intros Hn. apply R_trans with (note_call l w); [apply R_note_call|].
    apply R_trans with w1; [eapply IHe; eauto|eapply IHn; eauto].
  - intros [= <- <-]. apply R_trans with (note_call l w); [apply R_note_call|].
    eapply IHe; eauto.
Qed.

Lemma exec_respects n p w r w' : exec fenv n p w = Some (r, w') -> R w w'.
Proof. apply exec_notify_respect. Qed.

Lemma notify_respects n a i w r w' :
  notify fenv n a i w = Some (r, w') -> R w w'.
Proof. apply exec_notify_respect. Qed.

Lemma run_prog_respects n {A} (p : prog A) w r w' :
  run_prog fenv n p w = Some (r, w') -> R w w'.
Proof. apply interp_respects; apply exec_notify_respect. Qed.

Lemma call_each_respects n ls w r w' :
  call_each fenv n ls w = Some (r, w') -> R w w'.
Proof.
  revert ls w. induction n as [|n IH]; intros ls w; [discriminate|]. simpl.
  destruct ls as [|l ls]; [intros [= <- <-]; apply R_refl|].
  destruct (exec fenv n _ (note_call l w)) as [[[v|e] w1]|] eqn:Ee;
    [| |discriminate].
  - intros Hn. apply R_trans with (note_call l w); [apply R_note_call|].
    apply R_trans with w1; [eapply exec_respects; eauto|eauto].
  - intros [= <- <-]. apply R_trans with (note_call l w); [apply R_note_call|].
    eapply exec_respects; eauto.
Qed.

End Invariant.

(** *** The dispatch guard, the iterated array and the registry under runs *)

Section StoreKept.

Lemma ensure_fields w :
  let w' := ensureCanMutateNextListeners w in
  currentReducer w' = currentReducer w
  /\ currentState w' = currentState w
  /\ currentListeners w' = currentListeners w
  /\ isDispatching w' = isDispatching w
  /\ subscriptions w' = subscriptions w
  /\ cells w' = cells w
  /\ next_object w' = next_object w
  /\ notified w' = notified w.
Proof.
  unfold ensureCanMutateNextListeners.
  destruct (Nat.eqb _ _); simpl; repeat split.
Qed.

Lemma guard_kept_respected : respected guard_kept.
Proof.
  constructor; unfold guard_kept.
  - auto.
  - intros a b c [H1 H2] [H3 H4]. split; [congruence|].
    intros Ha. rewrite H4, H2; congruence.
  - intros l w0. unfold subscribe.
    destruct (negb (is_function l)); simpl; [auto|].
    destruct (ensure_fields (set_subscriptions (subscriptions w0 ++ [(l, true)]) w0))
      as (_ & Hs & _ & Hd & _).
    simpl in *. rewrite Hs, Hd. auto.
  - intros h w0. unfold unsubscribe.
    destruct (subscriptions w0 !! h) as [[l b]|]; [|auto].
    destruct (negb b); [auto|]. simpl.
    destruct (ensure_fields (set_subscriptions (<[h:=(l, false)]> (subscriptions w0)) w0))
      as (_ & Hs & _ & Hd & _).
    simpl in *. rewrite Hs, Hd. auto.
  - intros props w0. simpl. auto.
  - intros l w0. simpl. auto.
  - intros r0 w0 _. simpl. auto.
  - intros w0 w1 Hg [H1 H2]. simpl in *. split; [congruence|].
    rewrite Hg. discriminate.
  - intros w0 w1 v Hg [H1 H2]. simpl in *. split; [congruence|].
    rewrite Hg. discriminate.
Qed.

Lemma ensure_array_kept a w : array_kept a w (ensureCanMutateNextListeners w).
Proof.
  intros [Hlen Hnext]. unfold ensureCanMutateNextListeners.
  destruct (Nat.eqb _ _) eqn:E; [|split; [split|]; auto].
  unfold frozen. simpl. split; [split|].
  - rewrite length_app. simpl. lia.
  - intros <-. lia.
  - now apply lookup_app_l.
Qed.

(** After [ensureCanMutateNextListeners] an array that is being iterated is
    not [nextListeners]. *)
Lemma ensure_next_not_frozen a w :
  frozen a w -> nextListeners (ensureCanMutateNextListeners w) <> a.
Proof.
  intros [Hlen Hnext]. unfold ensureCanMutateNextListeners.
  destruct (Nat.eqb _ _) eqn:E; simpl.
  - lia.
  - apply Nat.eqb_neq in E. intros Ha. apply E. rewrite Ha. symmetry. auto.
Qed.

Lemma mutate_next_array_kept a w f :
  frozen a w ->
  let w1 := ensureCanMutateNextListeners w in
  let w2 := set_arrays (<[nextListeners w1 := f w1]> (arrays w1)) w1 in
  frozen a w2 /\ arrays w2 !! a = arrays w !! a.
Proof.
  intros Hfr w1 w2.
  destruct (ensure_array_kept a w Hfr) as [[Hlen Hnext] Hsame].
  pose proof (ensure_next_not_frozen a w Hfr) as Hne.
  fold w1 in Hlen, Hnext, Hsame, Hne. subst w2. unfold frozen. simpl.
  split; [split|].
  - now rewrite length_insert.
  - exact Hnext.
  - rewrite list_lookup_insert_ne by exact Hne. exact Hsame.
Qed.

Lemma array_kept_respected a : respected (array_kept a).
Proof.
  constructor; unfold array_kept.
  - auto.
  - intros x y z Hxy Hyz Hx. destruct (Hxy Hx) as [Hy E1].
    destruct (Hyz Hy) as [Hz E2]. split; [exact Hz|congruence].
  - intros l w0 Hfr. unfold subscribe.
    destruct (negb (is_function l)); simpl; [auto|].
    apply (mutate_next_array_kept a
             (set_subscriptions (subscriptions w0 ++ [(l, true)]) w0)
             (fun w1 => get_array w1 (nextListeners w1) ++ [l])).
    exact Hfr.
  - intros h w0 Hfr. unfold unsubscribe.
    destruct (subscriptions w0 !! h) as [[l b]|]; [|auto].
    destruct (negb b); [auto|].
    apply (mutate_next_array_kept a
             (set_subscriptions (<[h:=(l, false)]> (subscriptions w0)) w0)
             (fun w1 => splice_one (get_array w1 (nextListeners w1))
                          (indexOf (get_array w1 (nextListeners w1)) l))).
    exact Hfr.
  - intros props w0 Hfr. auto.
  - intros l w0 Hfr. auto.
  - intros r0 w0 _ Hfr. auto.
  - intros w0 w1 Hg H Hfr. destruct (H Hfr) as [[H1 H2] H3].
    unfold frozen. simpl in *. repeat split; auto.
  - intros w0 w1 v Hg H Hfr. destruct (H Hfr) as [[H1 H2] H3].
    unfold frozen. simpl in *. repeat split; auto.
Qed.

Lemma cells_kept_respected : respected cells_kept.
Proof.
  constructor; unfold cells_kept; try (intros; simpl; congruence).
  - intros l w0. unfold subscribe. destruct (negb (is_function l)); simpl; auto.
    now destruct (ensure_fields (set_subscriptions (subscriptions w0 ++ [(l, true)]) w0))
      as (_ & _ & _ & _ & _ & Hc & _).
  - intros h w0. unfold unsubscribe.
    destruct (subscriptions w0 !! h) as [[l b]|]; [|auto].
    destruct (negb b); [auto|]. simpl.
    now destruct (ensure_fields (set_subscriptions (<[h:=(l, false)]> (subscriptions w0)) w0))
      as (_ & _ & _ & _ & _ & Hc & _).
  - intros w0 w1 _ H. simpl in *. exact H.
  - intros w0 w1 v _ H. simpl in *. exact H.
Qed.

(** *** The registry *)

Lemma strict_eq_functions x y :
  is_function x = true -> is_function y = true ->
  strict_eq x y = true -> x = y.
Proof.
  destruct x, y; try discriminate. simpl. intros _ _ E.
  apply Nat.eqb_eq in E. now subst.
Qed.

Lemma registered_app l xs ys :
  registered l (xs ++ ys) = registered l xs + registered l ys.
Proof. unfold registered. now rewrite List.filter_app, length_app. Qed.

Lemma subscribed_app l xs ys :
  subscribed l (xs ++ ys) = subscribed l xs + subscribed l ys.
Proof. unfold subscribed. now rewrite List.filter_app, length_app. Qed.

Lemma indexOf_spec xs x :
  (indexOf xs x = (-1)%Z /\ registered x xs = 0)
  \/ (exists pre y post,
        xs = pre ++ y :: post /\ strict_eq y x = true
        /\ registered x pre = 0
        /\ indexOf xs x = Z.of_nat (length pre)).
Proof.
  induction xs as [|y xs IH]; simpl; [left; auto|].
  destruct (strict_eq y x) eqn:E.
  - right. exists [], y, xs. auto.
  - destruct IH as [[Hi Hr]|(pre & y' & post & -> & Hy & Hpre & Hi)].
    + left. rewrite Hi. unfold registered in *. simpl. rewrite E. auto.
    + right. exists (y :: pre), y', post. rewrite Hi. simpl.
      repeat split; auto.
      * unfold registered in *. simpl. now rewrite E.
      * destruct (Z.of_nat (length pre) <? 0)%Z eqn:Elt; lia.
Qed.

Lemma splice_one_found (pre : list value) y post :
  splice_one (pre ++ y :: post) (Z.of_nat (length pre)) = pre ++ post.
Proof.
  unfold splice_one.
  destruct (Z.of_nat (length pre) <? 0)%Z eqn:Elt;
    [apply Z.ltb_lt in Elt; lia|].
  rewrite length_app. simpl.
  rewrite Z.min_l by lia. rewrite Nat2Z.id. clear Elt.
  induction pre as [|p pre IH]; simpl; [reflexivity|].
  f_equal. apply IH.
Qed.

(** What [ensureCanMutateNextListeners] followed by a write to
    [nextListeners] leaves. *)
Lemma mutate_next w (f : list value -> list value) :
  nextListeners w < length (arrays w) ->
  currentListeners w < length (arrays w) ->
  Forall (Forall (fun l => is_function l = true)) (arrays w) ->
  Forall (fun l => is_function l = true) (f (get_array w (nextListeners w))) ->
  let w1 := ensureCanMutateNextListeners w in
  let w2 := set_arrays (<[nextListeners w1 :=
                            f (get_array w1 (nextListeners w1))]> (arrays w1)) w1 in
  get_array w2 (nextListeners w2) = f (get_array w (nextListeners w))
  /\ nextListeners w2 < length (arrays w2)
  /\ currentListeners w2 < length (arrays w2)
  /\ currentListeners w2 = currentListeners w
  /\ Forall (Forall (fun l => is_function l = true)) (arrays w2).
Proof.
  intros Hnext Hcur Hfn Hf w1 w2.
  assert (H1 : get_array w1 (nextListeners w1) = get_array w (nextListeners w)
               /\ nextListeners w1 < length (arrays w1)
               /\ currentListeners w1 < length (arrays w1)
               /\ currentListeners w1 = currentListeners w
               /\ Forall (Forall (fun l => is_function l = true)) (arrays w1)).
  { subst w1. unfold ensureCanMutateNextListeners.
    destruct (Nat.eqb _ _) eqn:E; [|auto]. apply Nat.eqb_eq in E.
    unfold get_array. simpl. rewrite length_app. simpl.
    rewrite lookup_app_r by lia. rewrite Nat.sub_diag. simpl.
    rewrite E. repeat split; try lia.
    apply Forall_app. split; [exact Hfn|]. constructor; [|constructor].
    destruct (arrays w !! currentListeners w) as [arr|] eqn:Ea; simpl; [|constructor].
    eapply Forall_lookup_1 in Hfn; eauto. }
  destruct H1 as (Hget & Hn1 & Hc1 & Hceq & Hfn1).
  subst w2. unfold get_array in *. simpl.
  rewrite length_insert. rewrite list_lookup_insert_eq by exact Hn1. simpl.
  rewrite Hget. repeat split; auto.
  apply Forall_insert; auto.
Qed.

Lemma store_ok_kept_respected : respected store_ok_kept.
Proof.
  constructor; unfold store_ok_kept.
  - auto.
  - auto.
  - intros l w Hok. unfold subscribe.
    destruct (negb (is_function l)) eqn:El; simpl; [exact Hok|].
    apply negb_false_iff in El. destruct Hok.
    destruct (mutate_next (set_subscriptions (subscriptions w ++ [(l, true)]) w)
                (fun arr => arr ++ [l])) as (Hget & Hn & Hc & _ & Hfn); simpl; auto.
    { apply Forall_app. split; [|repeat constructor; exact El].
      unfold get_array. simpl.
      destruct (arrays w !! nextListeners w) eqn:Ea; simpl; [|constructor].
      eapply Forall_lookup_1 in ok_arrays0; eauto. }
    destruct (ensure_fields (set_subscriptions (subscriptions w ++ [(l, true)]) w))
      as (Hr & _ & _ & _ & Hs & _).
    constructor; simpl; auto.
    + rewrite Hr. exact ok_reducer0.
    + rewrite Hs. simpl. apply Forall_app. split; [exact ok_subscriptions0|].
      repeat constructor. exact El.
    + intros l0. simpl in Hget. rewrite Hget, Hs. simpl.
      rewrite registered_app, subscribed_app.
      change (get_array (set_subscriptions (subscriptions w ++ [(l, true)]) w)
                (nextListeners w)) with (get_array w (nextListeners w)).
      rewrite ok_registry0. unfold registered, subscribed. simpl.
      rewrite andb_true_r. now destruct (strict_eq l l0).
  - intros h w Hok. unfold unsubscribe.
    destruct (subscriptions w !! h) as [[l b]|] eqn:Eh; [|exact Hok].
    destruct b; simpl; [|exact Hok].
    destruct Hok.
    assert (Hl : is_function l = true).
    { eapply Forall_lookup_1 in ok_subscriptions0; eauto. exact ok_subscriptions0. }
    assert (Harr : Forall (fun x => is_function x = true)
                     (get_array w (nextListeners w))).
    { unfold get_array.
      destruct (arrays w !! nextListeners w) eqn:Ea; simpl; [|constructor].
      eapply Forall_lookup_1 in ok_arrays0; eauto. }
    set (w0 := set_subscriptions (<[h:=(l, false)]> (subscriptions w)) w).
    destruct (mutate_next w0 (fun arr => splice_one arr (indexOf arr l)))
      as (Hget & Hn & Hc & _ & Hfn); simpl; auto.
    { change (get_array w0 (nextListeners w)) with (get_array w (nextListeners w)).
      unfold splice_one. apply Forall_delete. exact Harr. }
    destruct (ensure_fields w0) as (Hr & _ & _ & _ & Hs & _).
    constructor; simpl; auto.
    + rewrite Hr. exact ok_reducer0.
    + rewrite Hs. simpl. apply Forall_insert; auto.
    + intros l0. simpl in Hget. rewrite Hget, Hs. simpl.
      change (get_array w0 (nextListeners w)) with (get_array w (nextListeners w)).
      (* the subscriptions lose the closure [h] *)
      destruct (list_elem_of_split_length _ _ _ Eh) as (s1 & s2 & Hsubs & Hlen).
      assert (Hins : <[h:=(l, false)]> (subscriptions w) = s1 ++ (l, false) :: s2).
      { rewrite Hsubs, Hlen.
        rewrite (insert_app_r_alt s1 ((l, true) :: s2) (length s1)) by lia.
        now rewrite Nat.sub_diag. }
      rewrite Hins.
      pose proof (ok_registry0 l0) as Hreg0. rewrite Hsubs in Hreg0.
      pose proof (ok_registry0 l) as Hregl. rewrite Hsubs in Hregl.
      rewrite !subscribed_app in *. unfold subscribed at 2 in Hreg0.
      unfold subscribed at 2 in Hregl. unfold subscribed at 2.
      simpl in *. rewrite andb_true_r in *. rewrite andb_false_r.
      assert (Hll : strict_eq l l = true).
      { destruct l; try discriminate. simpl. apply Nat.eqb_refl. }
      rewrite Hll in Hregl. simpl in Hregl.
      destruct (indexOf_spec (get_array w (nextListeners w)) l)
        as [[_ Hzero]|(pre & y & post & Hsplit & Hy & _ & Hidx)]; [lia|].
      rewrite Hidx, Hsplit, splice_one_found.
      rewrite Hsplit in Hreg0, Harr.
      assert (y = l).
      { apply strict_eq_functions; auto.
        apply Forall_app in Harr as [_ Harr]. now apply Forall_cons in Harr as [? _]. }
      subst y.
      rewrite registered_app in *. unfold registered at 2 in Hreg0.
      simpl in Hreg0. simpl. unfold registered, subscribed in *.
      destruct (strict_eq l l0); simpl in *; lia.
  - intros props w Hok. destruct Hok. constructor; auto.
  - intros l w Hok. destruct Hok. constructor; auto.
  - intros r w Hr Hok. destruct Hok. constructor; auto.
  - intros w w1 _ H Hok.
    assert (Hok' : store_ok (set_isDispatching true w))
      by (destruct Hok; constructor; auto).
    destruct (H Hok'). constructor; auto.
  - intros w w1 v _ H Hok.
    assert (Hok' : store_ok (set_isDispatching true w))
      by (destruct Hok; constructor; auto).
    destruct (H Hok'). constructor; auto.
Qed.

End StoreKept.

(** *** More steps never change a run that ends *)

Section StoreFuel.
Variable fenv : nat -> list value -> prog value.

Lemma dispatch_mono (run run' : runner) (loop loop' : looper) action w x :
  (forall p w x, run p w = Some x -> run' p w = Some x) ->
  (forall a i w x, loop a i w = Some x -> loop' a i w = Some x) ->
  dispatch fenv run loop action w = Some x ->
  dispatch fenv run' loop' action w = Some x.
Proof.
  intros Hrun Hloop. unfold dispatch.
  destruct (negb (isPlainObject action)); [auto|].
  destruct (is_undefined _); [auto|].
  destruct (isDispatching w); [auto|].
  destruct (run _ _) as [[[v|e] w1]|] eqn:Erun; [| |discriminate];
    rewrite (Hrun _ _ _ Erun); [|auto].
  destruct (loop _ _ _) as [[r w2]|] eqn:Eloop; [|discriminate].
  now rewrite (Hloop _ _ _ _ Eloop).
Qed.

Lemma replaceReducer_mono (run run' : runner) (loop loop' : looper) nr w x :
  (forall p w x, run p w = Some x -> run' p w = Some x) ->
  (forall a i w x, loop a i w = Some x -> loop' a i w = Some x) ->
  replaceReducer fenv run loop nr w = Some x ->
  replaceReducer fenv run' loop' nr w = Some x.
Proof.
  intros Hrun Hloop. unfold replaceReducer.
  destruct (negb (is_function nr)); [auto|].
  destruct (new_object_in _ _) as [a w1].
  destruct (dispatch fenv run loop a w1) as [y|] eqn:Ed; [|discriminate].
  now rewrite (dispatch_mono _ _ _ _ _ _ _ Hrun Hloop Ed).
Qed.

Lemma interp_mono (run run' : runner) (loop loop' : looper) {A}
    (p : prog A) w x :
  (forall p w x, run p w = Some x -> run' p w = Some x) ->
  (forall a i w x, loop a i w = Some x -> loop' a i w = Some x) ->
  interp fenv run loop p w = Some x ->
  interp fenv run' loop' p w = Some x.
Proof.
  intros Hrun Hloop. revert w.
  induction p as [a|e|k IH|action k IH|l k IH|h k IH|nr k IH|c action k IH|props k IH];
    intros w; simpl; auto.
  - destruct (dispatch fenv run loop action w) as [[r1 w1]|] eqn:Ed; [|discriminate].
    rewrite (dispatch_mono _ _ _ _ _ _ _ Hrun Hloop Ed). apply IH.
  - destruct (subscribe l w). apply IH.
  - destruct (replaceReducer fenv run loop nr w) as [[r1 w1]|] eqn:Er; [|discriminate].
    rewrite (replaceReducer_mono _ _ _ _ _ _ _ Hrun Hloop Er). apply IH.
  - destruct (cells w !! c) as [f|]; [|discriminate].
    destruct (run (f action) w) as [[r1 w1]|] eqn:Erun; [|discriminate].
    rewrite (Hrun _ _ _ Erun). apply IH.
Qed.

Lemma exec_notify_S n :
  (forall p w x, exec fenv n p w = Some x -> exec fenv (S n) p w = Some x)
  /\ (forall a i w x,
        notify fenv n a i w = Some x -> notify fenv (S n) a i w = Some x).
Proof.
  induction n as [|n [IHe IHn]]; [split; intros; discriminate|].
  assert (He : forall p w x,
             exec fenv (S n) p w = Some x -> exec fenv (S (S n)) p w = Some x).
  { intros p w x. rewrite !exec_S. now apply interp_mono. }
  split; [exact He|].
  intros a i w x. rewrite (notify_S fenv (S n)), (notify_S fenv n).
  destruct (get_array w a !! i) as [l|]; [|auto].
  destruct (exec fenv n _ (note_call l w)) as [[[v|e] w1]|] eqn:Ee;
    [| |discriminate]; rewrite (IHe _ _ _ Ee); auto.
Qed.

Lemma exec_mono n m p w x :
  n <= m -> exec fenv n p w = Some x -> exec fenv m p w = Some x.
Proof.
  induction 1 as [|m _ IH]; [auto|].
  intros H. apply exec_notify_S. auto.
Qed.

Lemma notify_mono n m a i w x :
  n <= m -> notify fenv n a i w = Some x -> notify fenv m a i w = Some x.
Proof.
  induction 1 as [|m _ IH]; [auto|].
  intros H. apply exec_notify_S. auto.
Qed.

Lemma dispatch_in_mono n m action w x :
  n <= m -> dispatch_in fenv n action w = Some x ->
  dispatch_in fenv m action w = Some x.
Proof.
  intros Hle. apply dispatch_mono.
  - intros p w0 y. now apply exec_mono.
  - intros a i w0 y. now apply notify_mono.
Qed.

Lemma run_prog_mono n m {A} (p : prog A) w x :
  n <= m -> run_prog fenv n p w = Some x -> run_prog fenv m p w = Some x.
Proof.
  intros Hle. apply interp_mono.
  - intros q w0 y. now apply exec_mono.
  - intros a i w0 y. now apply notify_mono.
Qed.

Lemma call_each_mono n m ls w x :
  n <= m -> call_each fenv n ls w = Some x -> call_each fenv m ls w = Some x.
Proof.
  revert m ls w. induction n as [|n IH]; intros m ls w Hle; [discriminate|].
  destruct m as [|m]; [lia|]. simpl.
  destruct ls as [|l ls]; [auto|].
  destruct (exec fenv n _ (note_call l w)) as [[[v|e] w1]|] eqn:Ee;
    [| |discriminate]; rewrite (exec_mono n m _ _ _ ltac:(lia) Ee); [|auto].
  apply IH. lia.
Qed.

(** *** The loop over the array against the pass over its elements *)

Lemma notify_call_each n a i w :
  frozen a w ->
  notify fenv n a i w = call_each fenv n (drop i (get_array w a)) w.
Proof.
  revert i w. induction n as [|n IH]; intros i w Hfr; [reflexivity|].
  rewrite notify_S. simpl.
  destruct (get_array w a !! i) as [l|] eqn:El.
  - rewrite (drop_S _ _ _ El).
    destruct (exec fenv n _ (note_call l w)) as [[[v|e] w1]|] eqn:Ee;
      [| |reflexivity]; [|reflexivity].
    destruct (exec_respects fenv _ (array_kept_respected a) _ _ _ _ _ Ee Hfr)
      as [Hfr1 Hsame].
    rewrite IH by exact Hfr1. unfold get_array. now rewrite Hsame.
  - rewrite drop_ge; [reflexivity|]. now apply lookup_ge_None.
Qed.

Lemma call_each_app n pre rest w wa :
  call_each fenv n pre w = Some (Ok tt, wa) ->
  call_each fenv n (pre ++ rest) w = call_each fenv (n - length pre) rest wa.
Proof.
  revert pre w. induction n as [|n IH]; intros pre w; [discriminate|].
  destruct pre as [|l pre]; simpl.
  - now intros [= <-].
  - destruct (exec fenv n _ (note_call l w)) as [[[v|e] w1]|];
      try discriminate.
    apply IH.
Qed.

End StoreFuel.

(** *** [subscribe], [unsubscribe] and [dispatch], step by step *)

Section StoreLemmas.
Variable fenv : nat -> list value -> prog value.

Lemma get_array_ok w a :
  store_ok w -> Forall (fun l => is_function l = true) (get_array w a).
Proof.
  intros Hok. unfold get_array.
  destruct (arrays w !! a) as [arr|] eqn:Ea; simpl; [|constructor].
  eapply Forall_lookup_1; [apply (ok_arrays w Hok)|exact Ea].
Qed.

Lemma subscribe_appends l w :
  store_ok w -> is_function l = true ->
  exists wb,
    subscribe l w = (Ok (length (subscriptions w)), wb)
    /\ get_array wb (nextListeners wb) = get_array w (nextListeners w) ++ [l].
Proof.
  intros Hok Hl. unfold subscribe. rewrite Hl. simpl.
  eexists. split; [reflexivity|].
  destruct (mutate_next (set_subscriptions (subscriptions w ++ [(l, true)]) w)
              (fun arr => arr ++ [l])) as (Hget & _); simpl;
    try apply Hok.
  - apply Forall_app. split; [|repeat constructor; exact Hl].
    apply (get_array_ok w _ Hok).
  - exact Hget.
Qed.

Lemma unsubscribe_removes h l w :
  store_ok w -> subscriptions w !! h = Some (l, true) ->
  exists pre post,
    get_array w (nextListeners w) = pre ++ l :: post
    /\ registered l pre = 0
    /\ get_array (unsubscribe h w) (nextListeners (unsubscribe h w))
       = pre ++ post.
Proof.
  intros Hok Hh. unfold unsubscribe. rewrite Hh. simpl.
  set (w0 := set_subscriptions (<[h:=(l, false)]> (subscriptions w)) w).
  assert (Hl : is_function l = true).
  { pose proof (ok_subscriptions w Hok) as Hs.
    eapply Forall_lookup_1 in Hs; eauto. exact Hs. }
  pose proof (get_array_ok w (nextListeners w) Hok) as Harr.
  destruct (mutate_next w0 (fun arr => splice_one arr (indexOf arr l)))
    as (Hget & _); simpl; try apply Hok.
  { change (get_array w0 (nextListeners w)) with (get_array w (nextListeners w)).
    unfold splice_one. now apply Forall_delete. }
  simpl in Hget. rewrite Hget.
  change (get_array w0 (nextListeners w)) with (get_array w (nextListeners w)).
  assert (Hpos : 0 < registered l (get_array w (nextListeners w))).
  { rewrite (ok_registry w Hok).
    destruct (list_elem_of_split_length _ _ _ Hh) as (s1 & s2 & -> & _).
    rewrite subscribed_app. unfold subscribed at 2. simpl.
    assert (Hll : strict_eq l l = true)
      by (destruct l; try discriminate; apply Nat.eqb_refl).
    rewrite Hll. simpl. lia. }
  destruct (indexOf_spec (get_array w (nextListeners w)) l)
    as [[_ Hzero]|(pre & y & post & Hsplit & Hy & Hpre & Hidx)]; [lia|].
  assert (y = l).
  { apply strict_eq_functions; auto. rewrite Hsplit in Harr.
    apply Forall_app in Harr as [_ Harr]. now apply Forall_cons in Harr as [? _]. }
  subst y. exists pre, post.
  rewrite Hidx, Hsplit, splice_one_found. auto.
Qed.



(** A program that does not dispatch leaves the State, the guard and the
    record of the listener calls. *)
Lemma quiet_keeps_state run loop {A} (p : prog A) w r w' :
  quiet p -> interp fenv run loop p w = Some (r, w') ->
  currentState w' = currentState w
  /\ isDispatching w' = isDispatching w
  /\ notified w' = notified w.
Proof.
  intros Hq. revert w.
  induction Hq as [a|e|k _ IH|l k _ IH|h k _ IH|props k _ IH]; intros w; simpl.
  - now intros [= <- <-].
  - now intros [= <- <-].
  - apply IH.
  - destruct (subscribe l w) as [r1 w1] eqn:Es. intros Hk.
    apply IH in Hk as (-> & -> & ->).
    unfold subscribe in Es. destruct (negb (is_function l)).
    + now injection Es as <- <-.
    + injection Es as <- <-. simpl.
      destruct (ensure_fields (set_subscriptions (subscriptions w ++ [(l, true)]) w))
        as (_ & -> & _ & -> & _ & _ & _ & ->). auto.
  - intros Hk. apply IH in Hk as (-> & -> & ->).
    unfold unsubscribe.
    destruct (subscriptions w !! h) as [[l b]|]; [|auto].
    destruct (negb b); [auto|]. simpl.
    destruct (ensure_fields (set_subscriptions (<[h:=(l, false)]> (subscriptions w)) w))
      as (_ & -> & _ & -> & _ & _ & _ & ->). auto.
  - intros Hk. apply IH in Hk as (-> & -> & ->). auto.
Qed.

Lemma quiet_exec_keeps_state n p w r w' :
  quiet p -> exec fenv n p w = Some (r, w') ->
  currentState w' = currentState w
  /\ isDispatching w' = isDispatching w
  /\ notified w' = notified w.
Proof.
  destruct n as [|n]; [discriminate|]. rewrite exec_S.
  apply quiet_keeps_state.
Qed.

(** A pass over listeners that do not dispatch leaves the State and records
    one call of each, in order. *)
Lemma quiet_call_each_keeps_state n ls w wa :
  Forall (fun l => quiet (call_function fenv l [])) ls ->
  call_each fenv n ls w = Some (Ok tt, wa) ->
  currentState wa = currentState w /\ notified wa = notified w ++ ls.
Proof.
  revert ls w. induction n as [|n IH]; intros ls w Hq; [discriminate|]. simpl.
  destruct ls as [|l ls]; [intros [= <-]; now rewrite app_nil_r|].
  apply Forall_cons in Hq as [Hl Hls].
  destruct (exec fenv n _ (note_call l w)) as [[[v|e] w1]|] eqn:Ee;
    try discriminate.
  intros Hk. destruct (IH _ _ Hls Hk) as [-> ->].
  apply (quiet_exec_keeps_state _ _ _ _ _ Hl) in Ee as (-> & _ & ->).
  simpl. now rewrite <- app_assoc.
Qed.


Lemma dispatch_valid_idle run loop action w :
  valid_action action -> isDispatching w = false ->
  dispatch fenv run loop action w
  = match run (reducer_call fenv action w) (set_isDispatching true w) with
    | None => None
    | Some (Err e, w1) => Some (Err e, set_isDispatching false w1)
    | Some (Ok v, w1) =>
        after_pass action (loop (nextListeners w1) 0 (pass_start v w1))
    end.
Proof.
  intros (id & props & -> & Htype) Hidle. unfold dispatch. simpl.
  rewrite Htype, Hidle. reflexivity.
Qed.

Lemma dispatch_valid_busy run loop action w :
  valid_action action -> isDispatching w = true ->
  dispatch fenv run loop action w
  = Some (Err (VError "Reducers may not dispatch actions."), w).
Proof.
  intros (id & props & -> & Htype) Hbusy. unfold dispatch. simpl.
  rewrite Htype, Hbusy. reflexivity.
Qed.

Lemma classic_valid action : valid_action action \/ ~ valid_action action.
Proof.
  destruct action as [| | | | |id plain props| |];
    try (right; intros (? & ? & [=] & _); fail).
  destruct plain; [|right; intros (? & ? & [=] & _)].
  destruct (is_undefined (obj_get props "type")) eqn:E.
  - right. intros (? & ? & [= <- <-] & H). congruence.
  - left. exists id, props. auto.
Qed.

Lemma dispatch_invalid run loop action w :
  ~ valid_action action ->
  exists e, dispatch fenv run loop action w = Some (Err e, w).
Proof.
  intros Hinvalid. unfold dispatch.
  destruct (negb (isPlainObject action)) eqn:Eplain; [eauto|].
  destruct (is_undefined _) eqn:Etype; [eauto|].
  exfalso. apply Hinvalid.
  destruct action as [| | | | |id plain props| |]; try discriminate.
  simpl in Eplain. apply negb_false_iff in Eplain. subst plain.
  exists id, props. auto.
Qed.

Lemma store_ok_set_guard b w : store_ok w -> store_ok (set_isDispatching b w).
Proof. intros []. constructor; auto. Qed.

Lemma pass_start_frozen v w1 :
  store_ok w1 -> frozen (nextListeners w1) (pass_start v w1).
Proof. intros Hok. split; [apply Hok|reflexivity]. Qed.

Lemma pass_start_ok v w1 : store_ok w1 -> store_ok (pass_start v w1).
Proof. intros []. constructor; auto. Qed.

End StoreLemmas.

(** *** The claims about [dispatch] *)

Section StoreClaims.
Variable fenv : nat -> list value -> prog value.

(** C1: on a store that is not dispatching, [dispatch] sets the guard for
    the call of the reducer only.  What is not a valid action is refused
    with the world untouched.  For a valid action, while the reducer runs
    the guard is set and the State is what it was; if the reducer raises,
    [dispatch] raises the same value with the guard released and the State
    unchanged; if it returns, the State becomes its result only then, the
    guard is released, and the notification pass follows. *)
Theorem dispatch_scopes_guard_to_reducer n action w :
  isDispatching w = false ->
  (~ valid_action action ->
   exists e, dispatch_in fenv n action w = Some (Err e, w))
  /\ (valid_action action ->
      forall r w1,
        exec fenv n (reducer_call fenv action w) (set_isDispatching true w)
        = Some (r, w1) ->
        isDispatching (set_isDispatching true w) = true
        /\ isDispatching w1 = true
        /\ currentState w1 = currentState w
        /\ match r with
           | Err e =>
               dispatch_in fenv n action w
               = Some (Err e, set_isDispatching false w1)
               /\ isDispatching (set_isDispatching false w1) = false
               /\ currentState (set_isDispatching false w1) = currentState w
           | Ok nextState =>
               dispatch_in fenv n action w
               = after_pass action
                   (notify fenv n (nextListeners w1) 0
                      (pass_start nextState w1))
               /\ isDispatching (pass_start nextState w1) = false
               /\ currentState (pass_start nextState w1) = nextState
           end).
Proof.
  intros Hidle. split; [intros Hinvalid; now apply dispatch_invalid|].
  intros Hvalid r w1 Hrun.
  destruct (exec_respects fenv _ guard_kept_respected _ _ _ _ _ Hrun)
    as [Hguard Hstate].
  simpl in Hguard. specialize (Hstate eq_refl). simpl in Hstate.
  repeat split; auto.
  unfold dispatch_in. rewrite (dispatch_valid_idle fenv _ _ _ _ Hvalid Hidle).
  rewrite Hrun. destruct r as [v|e]; repeat split; auto.
Qed.


(** C3: a [dispatch] while the guard is set fails and changes nothing, and
    for a valid action the failure is "Reducers may not dispatch actions.";
    the guard is set all along the run of a reducer, and no run changes the
    State while it is set; the guard is not set when the notification pass
    starts nor when any listener of the pass is called, and a [dispatch]
    of a valid action then goes on to call the reducer. *)
Theorem reentrant_dispatch_is_rejected :
  (forall run loop action w,
      isDispatching w = true ->
      exists e,
        dispatch fenv run loop action w = Some (Err e, w)
        /\ (valid_action action ->
            e = VError "Reducers may not dispatch actions."))
  /\ (forall run loop action w A (k : outcome value -> prog A),
        valid_action action -> isDispatching w = true ->
        interp fenv run loop (Dispatch action k) w
        = interp fenv run loop
            (k (Err (VError "Reducers may not dispatch actions."))) w)
  /\ (forall n p w r w',
        exec fenv n p w = Some (r, w') ->
        isDispatching w' = isDispatching w
        /\ (isDispatching w = true -> currentState w' = currentState w))
  /\ (forall nextState w1 m pre wa,
        isDispatching (pass_start nextState w1) = false
        /\ (call_each fenv m pre (pass_start nextState w1) = Some (Ok tt, wa) ->
            isDispatching wa = false))
  /\ (forall run loop action w,
        valid_action action -> isDispatching w = false ->
        dispatch fenv run loop action w
        = match run (reducer_call fenv action w) (set_isDispatching true w) with
          | None => None
          | Some (Err e, w1) => Some (Err e, set_isDispatching false w1)
          | Some (Ok v, w1) =>
              after_pass action (loop (nextListeners w1) 0 (pass_start v w1))
          end).
Proof.
  split.
  { intros run loop action w Hbusy.
    destruct (classic_valid action) as [Hvalid|Hinvalid].
    - eexists. split; [now apply dispatch_valid_busy|auto].
    - destruct (dispatch_invalid fenv run loop action w Hinvalid) as [e He].
      exists e. split; [exact He|]. intros Hvalid. contradiction. }
  split.
  { intros run loop action w A k Hvalid Hbusy. simpl.
    now rewrite (dispatch_valid_busy fenv run loop action w Hvalid Hbusy). }
  split.
  { intros n p w r w' Hexec.
    exact (exec_respects fenv _ guard_kept_respected _ _ _ _ _ Hexec). }
  split.
  { intros nextState w1 m pre wa. split; [reflexivity|]. intros Hpass.
    now destruct (call_each_respects fenv _ guard_kept_respected _ _ _ _ _ Hpass)
      as [-> _]. }
  intros. now apply dispatch_valid_idle.
Qed.

(** C9: when the listeners of the snapshot before [l] have returned and [l]
    raises, [dispatch] raises the same value and ends in the world in which
    [l] raised, whatever listeners come after [l] in the snapshot: they are
    not called, and nothing is undone.  As long as the listeners that ran
    did not dispatch again, the State is the reducer's result and the calls
    recorded are those of the listeners up to [l], and no other. *)
Theorem listener_failure_propagates
    n0 n1 n2 action w nextState w1 pre l post wa e wb :
  store_ok w ->
  valid_action action ->
  isDispatching w = false ->
  exec fenv n0 (reducer_call fenv action w) (set_isDispatching true w)
  = Some (Ok nextState, w1) ->
  get_array w1 (nextListeners w1) = pre ++ l :: post ->
  call_each fenv n1 pre (pass_start nextState w1) = Some (Ok tt, wa) ->
  exec fenv n2 (call_function fenv l []) (note_call l wa)
  = Some (Err e, wb) ->
  (exists N, forall m, N <= m ->
      dispatch_in fenv m action w = Some (Err e, wb))
  /\ (exists N, forall m post', N <= m ->
        call_each fenv m (pre ++ l :: post') (pass_start nextState w1)
        = Some (Err e, wb))
  /\ (Forall (fun x => quiet (call_function fenv x [])) (pre ++ [l]) ->
      currentState wb = nextState
      /\ notified wb = notified w1 ++ pre ++ [l]).
Proof.
  intros Hok Hvalid Hidle Hrun Hsnap Hpre Hl.
  assert (Hok1 : store_ok w1).
  { apply (exec_respects fenv _ store_ok_kept_respected _ _ _ _ _ Hrun).
    now apply store_ok_set_guard. }
  assert (Hpass : forall m post', n1 + S (S n2) <= m ->
            call_each fenv m (pre ++ l :: post') (pass_start nextState w1)
            = Some (Err e, wb)).
  { intros m post' Hm.
    rewrite (call_each_app fenv m pre (l :: post') _ wa)
      by (apply (call_each_mono fenv n1); [lia|exact Hpre]).
    assert (Hlen : length pre < n1).
    { clear -Hpre. revert Hpre. generalize (pass_start nextState w1).
      revert pre. induction n1 as [|k IH]; intros pre w0; [discriminate|].
      destruct pre as [|x pre]; simpl; [lia|].
      destruct (exec fenv k _ (note_call x w0)) as [[[v|e0] w2]|];
        try discriminate.
      intros H. apply IH in H. lia. }
    destruct (m - length pre) as [|k] eqn:Ek; [lia|]. simpl.
    now rewrite (exec_mono fenv n2 k _ _ _ ltac:(lia) Hl). }
  split.
  { exists (S (n0 + n1 + S (S n2))). intros m Hm.
    unfold dispatch_in. rewrite (dispatch_valid_idle fenv _ _ _ _ Hvalid Hidle).
    rewrite (exec_mono fenv n0 m _ _ _ ltac:(lia) Hrun).
    rewrite notify_call_each by now apply pass_start_frozen.
    simpl. unfold pass_start at 2. simpl.
    change (set_currentListeners (nextListeners w1)
              (set_isDispatching false (set_currentState nextState w1)))
      with (pass_start nextState w1).
    change (get_array (pass_start nextState w1) (nextListeners w1))
      with (get_array w1 (nextListeners w1)).
    rewrite drop_0, Hsnap, Hpass by lia. reflexivity. }
  split; [exists (n1 + S (S n2)); exact Hpass|].
  intros Hq. apply Forall_app in Hq as [Hqpre Hql].
  apply Forall_cons in Hql as [Hql _].
  destruct (quiet_call_each_keeps_state fenv _ _ _ _ Hqpre Hpre) as [Hs Hn].
  apply (quiet_exec_keeps_state fenv _ _ _ _ _ Hql) in Hl as (-> & _ & ->).
  simpl. rewrite Hs, Hn. simpl. now rewrite <- app_assoc.
Qed.

End StoreClaims.

(** *** The worlds that [createStore] makes *)

Section CreateStoreFacts.
Variable fenv : nat -> list value -> prog value.
Variable eenv : nat -> nat -> creator -> creator.

Lemma run_prog_store_ok n {A} (p : prog A) w r w' :
  store_ok w -> run_prog fenv n p w = Some (r, w') -> store_ok w'.
Proof.
  intros Hok Hrun.
  exact (run_prog_respects fenv _ store_ok_kept_respected n p w r w' Hrun Hok).
Qed.

Lemma run_prog_guard n {A} (p : prog A) w r w' :
  run_prog fenv n p w = Some (r, w') -> isDispatching w' = isDispatching w.
Proof.
  intros Hrun.
  now destruct (run_prog_respects fenv _ guard_kept_respected n p w r w' Hrun).
Qed.

(** Without an enhancer, a store that [createStore] returns is in a world
    that is [store_ok], with the guard released. *)
Lemma createStore_store_ok n reducer preloadedState w s w' :
  is_function preloadedState = false ->
  createStore fenv eenv n reducer preloadedState VUndef w = Some (Ok s, w') ->
  s = base_store /\ store_ok w' /\ isDispatching w' = false.
Proof.
  intros Hpre. destruct n as [|n]; [discriminate|]. simpl.
  rewrite Hpre. simpl.
  destruct (is_function reducer) eqn:Er; simpl; [|discriminate].
  destruct (dispatch _ _ _ _ _) as [[[v|e] w1]|] eqn:Ed; try discriminate.
  intros [= <- <-].
  set (w0 := World reducer preloadedState [[]] 0 0 false [] (cells w)
               (S (next_object w)) []) in Ed.
  assert (Hok0 : store_ok w0).
  { constructor; simpl; auto; repeat constructor. }
  split; [reflexivity|]. split.
  - exact (dispatch_respects fenv _ store_ok_kept_respected _ _ _ _ _ _
             (proj1 (exec_notify_respect fenv _ store_ok_kept_respected n))
             (proj2 (exec_notify_respect fenv _ store_ok_kept_respected n))
             Ed Hok0).
  - now destruct (dispatch_respects fenv _ guard_kept_respected _ _ _ _ _ _
                    (proj1 (exec_notify_respect fenv _ guard_kept_respected n))
                    (proj2 (exec_notify_respect fenv _ guard_kept_respected n))
                    Ed) as [-> _].
Qed.

End CreateStoreFacts.

(** ** applyMiddleware.js *)

Section MiddlewareFacts.
Variable fenv : nat -> list value -> prog value.

Lemma run_prog_cells n {A} (p : prog A) w r w' :
  run_prog fenv n p w = Some (r, w') -> cells w' = cells w.
Proof. exact (run_prog_respects fenv _ cells_kept_respected n p w r w'). Qed.

Lemma run_each_cells n {A} (ps : list (prog A)) w r w' :
  run_each fenv n ps w = Some (r, w') -> cells w' = cells w.
Proof.
  revert w r w'. induction ps as [|p ps IH]; intros w r w'; simpl.
  - now intros [= <- <-].
  - destruct (run_prog fenv n p w) as [[[a|e] w1]|] eqn:Ep; try discriminate.
    + apply run_prog_cells in Ep.
      destruct (run_each fenv n ps w1) as [[[l|e] w2]|] eqn:Eps; try discriminate;
        intros [= <- <-]; apply IH in Eps; congruence.
    + apply run_prog_cells in Ep. now intros [= <- <-].
Qed.

Lemma store_ok_set_cells c w : store_ok w -> store_ok (set_cells c w).
Proof. intros []. constructor; auto. Qed.

Lemma run_each_store_ok n {A} (ps : list (prog A)) w r w' :
  store_ok w -> run_each fenv n ps w = Some (r, w') -> store_ok w'.
Proof.
  revert w r w'. induction ps as [|p ps IH]; intros w r w' Hok; simpl.
  - now intros [= <- <-].
  - destruct (run_prog fenv n p w) as [[[a|e] w1]|] eqn:Ep; try discriminate.
    + apply (run_prog_store_ok fenv) in Ep; [|exact Hok].
      destruct (run_each fenv n ps w1) as [[[l|e] w2]|] eqn:Eps; try discriminate;
        intros [= <- <-]; eapply IH; eauto.
    + apply (run_prog_store_ok fenv) in Ep; [|exact Hok]. now intros [= <- <-].
Qed.

(** The enhanced store lives in a world that is [store_ok] when the store
    it wraps does. *)
Lemma applyMiddleware_store_ok
    fuel middlewares (createStore : creator) reducer preloadedState enhancer
    w s w' :
  (forall s1 w1,
      createStore reducer preloadedState enhancer w = Some (Ok s1, w1) ->
      store_ok w1) ->
  applyMiddleware fenv fuel middlewares createStore reducer preloadedState
    enhancer w = Some (Ok s, w') ->
  store_ok w'.
Proof.
  intros Hcreate. unfold applyMiddleware.
  destruct (createStore _ _ _ _) as [[[s1|e] w1]|]; try discriminate.
  specialize (Hcreate s1 w1 eq_refl).
  destruct (run_each fenv fuel _ _) as [[[chain|e] w3]|] eqn:Echain;
    try discriminate.
  apply run_each_store_ok in Echain; [|now apply store_ok_set_cells].
  destruct (run_prog fenv fuel _ w3) as [[[composed|e] w4]|] eqn:Ecomp;
    try discriminate.
  apply (run_prog_store_ok fenv) in Ecomp; [|exact Echain].
  intros [= <- <-]. now apply store_ok_set_cells.
Qed.

(** C4, as the code has it: the API handed to every middleware has the
    store's [getState] and a [dispatch] that forwards to the variable
    [dispatch] of the enhancer, which holds the store's own [dispatch] all
    the time the middlewares are constructed and the chain is composed (no
    run assigns it), so that a call of [api.dispatch] made then is a call of
    the store's own [dispatch]; when the chain is composed the variable is
    assigned the composed function, which is also the [dispatch] of the
    store returned, whose other methods are the store's. *)
Theorem applyMiddleware_api_forwards_to_store_dispatch
    fuel middlewares (createStore : creator) reducer preloadedState enhancer
    w store w1 :
  createStore reducer preloadedState enhancer w = Some (Ok store, w1) ->
  let cell := length (cells w1) in
  let api :=
    MiddlewareAPI (s_getState store)
      (fun action => CallDispatch cell action lift_outcome) in
  let w2 := set_cells (cells w1 ++ [s_dispatch store]) w1 in
  applyMiddleware fenv fuel middlewares createStore reducer preloadedState
    enhancer w
  = match run_each fenv fuel (map (fun m => m api) middlewares) w2 with
    | None => None
    | Some (Err e, w3) => Some (Err e, w3)
    | Some (Ok chain, w3) =>
        match run_prog fenv fuel
                (compose Ret pbind undefined_dispatch chain [s_dispatch store])
                w3 with
        | None => None
        | Some (Err e, w4) => Some (Err e, w4)
        | Some (Ok composed, w4) =>
            Some (Ok (Store composed (s_subscribe store) (s_getState store)
                            (s_replaceReducer store)),
                  set_cells (<[cell := composed]> (cells w4)) w4)
        end
    end
  /\ cells w2 !! cell = Some (s_dispatch store)
  /\ (forall n A (p : prog A) wa r wb,
        run_prog fenv n p wa = Some (r, wb) -> cells wb = cells wa)
  /\ (forall n action wa,
        cells wa !! cell = Some (s_dispatch store) ->
        run_prog fenv (S n) (api_dispatch api action) wa
        = run_prog fenv n (s_dispatch store action) wa)
  /\ (forall store' w',
        applyMiddleware fenv fuel middlewares createStore reducer
          preloadedState enhancer w = Some (Ok store', w') ->
        cells w' !! cell = Some (s_dispatch store')
        /\ s_getState store' = s_getState store
        /\ s_subscribe store' = s_subscribe store
        /\ s_replaceReducer store' = s_replaceReducer store).
Proof.
  intros Hcreate cell api w2.
  assert (Hunfold :
    applyMiddleware fenv fuel middlewares createStore reducer preloadedState
      enhancer w
    = match run_each fenv fuel (map (fun m => m api) middlewares) w2 with
      | None => None
      | Some (Err e, w3) => Some (Err e, w3)
      | Some (Ok chain, w3) =>
          match run_prog fenv fuel
                  (compose Ret pbind undefined_dispatch chain [s_dispatch store])
                  w3 with
          | None => None
          | Some (Err e, w4) => Some (Err e, w4)
          | Some (Ok composed, w4) =>
              Some (Ok (Store composed (s_subscribe store) (s_getState store)
                              (s_replaceReducer store)),
                    set_cells (<[cell := composed]> (cells w4)) w4)
          end
      end).
  { unfold applyMiddleware. rewrite Hcreate. reflexivity. }
  split; [exact Hunfold|].
  assert (Hcell : cells w2 !! cell = Some (s_dispatch store)).
  { subst w2 cell. simpl. rewrite lookup_app_r by lia.
    now rewrite Nat.sub_diag. }
  split; [exact Hcell|].
  split; [intros n A p wa r wb; apply run_prog_cells|].
  split.
  { intros n action wa Hwa.
    change (run_prog fenv (S n) (api_dispatch api action) wa)
      with (match cells wa !! cell with
            | None => None
            | Some f =>
                match exec fenv (S n) (f action) wa with
                | None => None
                | Some (r, w) =>
                    interp fenv (exec fenv (S n)) (notify fenv (S n))
                      (lift_outcome r) w
                end
            end).
    unfold dispatch_fn in *.
    rewrite Hwa, exec_S. fold (run_prog fenv n (s_dispatch store action) wa).
    destruct (run_prog fenv n (s_dispatch store action) wa) as [[[v|e] w3]|];
      reflexivity. }
  intros store' w'. rewrite Hunfold.
  destruct (run_each fenv fuel _ w2) as [[[chain|e] w3]|] eqn:Echain;
    try discriminate.
  destruct (run_prog fenv fuel _ w3) as [[[composed|e] w4]|] eqn:Ecomp;
    try discriminate.
  intros [= <- <-]. simpl. repeat split.
  apply run_each_cells in Echain. apply run_prog_cells in Ecomp.
  apply list_lookup_insert_eq. rewrite Ecomp, Echain.
  now apply lookup_lt_Some in Hcell.
Qed.

End MiddlewareFacts.

(** *** The claims about the store on the example programs *)

Lemma valid_action_of_type id t :
  is_undefined t = false -> valid_action (action_of_type id t).
Proof. intros Ht. exists id, [("type", t)]. split; [reflexivity|exact Ht]. Qed.

Lemma ex_world_listeners_ok : store_ok ex_world_listeners.
Proof.
  constructor; simpl; auto; repeat constructor.
  intros l. unfold registered, subscribed. simpl.
  destruct l; simpl; try reflexivity.
  rewrite !andb_true_r.
  repeat match goal with
         | |- context [if ?b then _ else _] => destruct b
         end; reflexivity.
Qed.

Lemma ex_world_failing_ok : store_ok ex_world_failing.
Proof.
  constructor; simpl; auto; repeat constructor.
  intros l. unfold registered, subscribed. simpl.
  destruct l; simpl; try reflexivity.
  rewrite !andb_true_r.
  repeat match goal with
         | |- context [if ?b then _ else _] => destruct b
         end; reflexivity.
Qed.

Lemma dispatch_scopes_guard_to_reducer_witness :
  isDispatching ex_world_r1 = false
  /\ (exists e, dispatch_in store_fenv 5 VNull ex_world_r1
                 = Some (Err e, ex_world_r1))
  /\ isDispatching (set_isDispatching true ex_world_r1) = true
  /\ isDispatching (set_isDispatching true ex_world_r1) = true
  /\ currentState (set_isDispatching true ex_world_r1) = currentState ex_world_r1
  /\ dispatch_in store_fenv 5 ex_boom ex_world_r1
     = Some (Err (VError "boom"),
             set_isDispatching false (set_isDispatching true ex_world_r1))
  /\ isDispatching (set_isDispatching false (set_isDispatching true ex_world_r1))
     = false
  /\ currentState (set_isDispatching false (set_isDispatching true ex_world_r1))
     = currentState ex_world_r1.
Proof.
  split; [reflexivity|]. split.
  - apply (dispatch_scopes_guard_to_reducer store_fenv 5 VNull ex_world_r1
             eq_refl).
    intros (? & ? & [=] & _).
  - apply (proj2 (dispatch_scopes_guard_to_reducer store_fenv 5 ex_boom
                    ex_world_r1 eq_refl)
             (valid_action_of_type 5 (VStr "BOOM") eq_refl)
             (Err (VError "boom")) (set_isDispatching true ex_world_r1)).
    vm_compute. reflexivity.
Defined.



(** The reducer of [ex_world_r1] dispatches for ['RE'] and is refused; the
    listener of [ex_world_nested] dispatches from the pass and is not. *)
Lemma reentrant_dispatch_is_rejected_witness :
  dispatch store_fenv (exec store_fenv 5) (notify store_fenv 5) ex_inc
    (set_isDispatching true ex_world_r1)
  = Some (Err (VError "Reducers may not dispatch actions."),
          set_isDispatching true ex_world_r1)
  /\ dispatch_in store_fenv 5 ex_re ex_world_r1
     = Some (Err (VError "Reducers may not dispatch actions."), ex_world_r1)
  /\ dispatch_in store_fenv 9 ex_inc ex_world_nested
     = Some (Ok ex_inc,
             World (VFun 0) (VNum 2) [[]; [VFun 14]] 1 1 false
                   [(VFun 14, true)] [] 1 [VFun 14; VFun 14]).
Proof.
  split; [|split; vm_compute; reflexivity].
  destruct (proj1 (reentrant_dispatch_is_rejected store_fenv)
              (exec store_fenv 5) (notify store_fenv 5) ex_inc
              (set_isDispatching true ex_world_r1) eq_refl) as (e & He & Hkind).
  rewrite He, (Hkind (valid_action_of_type 77 (VStr "INC") eq_refl)).
  reflexivity.
Defined.

Lemma listener_failure_propagates_witness :
  (exists N, forall m, N <= m ->
      dispatch_in store_fenv m ex_inc ex_world_failing
      = Some (Err (VError "listener failed"), ex_world_failed))
  /\ (exists N, forall m post', N <= m ->
        call_each store_fenv m ([VFun 10] ++ VFun 12 :: post')
          (pass_start (VNum 1) (set_isDispatching true ex_world_failing))
        = Some (Err (VError "listener failed"), ex_world_failed))
  /\ (Forall (fun x => quiet (call_function store_fenv x []))
             ([VFun 10] ++ [VFun 12]) ->
      currentState ex_world_failed = VNum 1
      /\ notified ex_world_failed
         = notified (set_isDispatching true ex_world_failing)
           ++ [VFun 10] ++ [VFun 12]).
Proof.
  apply (listener_failure_propagates store_fenv 2 2 2 ex_inc ex_world_failing
           (VNum 1) (set_isDispatching true ex_world_failing)
           [VFun 10] (VFun 12) [VFun 10]
           (note_call (VFun 10)
              (pass_start (VNum 1) (set_isDispatching true ex_world_failing)))).
  - exact ex_world_failing_ok.
  - now apply valid_action_of_type.
  - reflexivity.
  - vm_compute. reflexivity.
  - reflexivity.
  - vm_compute. reflexivity.
  - vm_compute. reflexivity.
Defined.

(** *** applyMiddleware on the example middleware *)

Lemma applyMiddleware_api_forwards_to_store_dispatch_witness :
  createStore store_fenv no_enhancers 10 (VFun 0) VUndef VUndef world0
  = Some (Ok base_store, ex_created)
  /\ forall n action wa,
       cells wa !! 0 = Some (s_dispatch base_store) ->
       run_prog store_fenv (S n) (CallDispatch 0 action lift_outcome) wa
       = run_prog store_fenv n (s_dispatch base_store action) wa.
Proof.
  assert (Hcreate : createStore store_fenv no_enhancers 10 (VFun 0) VUndef
                      VUndef world0 = Some (Ok base_store, ex_created))
    by (vm_compute; reflexivity).
  split; [exact Hcreate|].
  exact (proj1 (proj2 (proj2 (proj2
           (applyMiddleware_api_forwards_to_store_dispatch store_fenv 10
              [eager_middleware] (createStore store_fenv no_enhancers 10)
              (VFun 0) VUndef VUndef world0 base_store ex_created Hcreate))))).
Defined.

(** C4 as stated fails: a middleware that calls [api.dispatch] while it is
    constructed does not fail; the action goes to the store's own
    [dispatch], and the store is returned with the State already [1]. *)
Lemma early_dispatch_reaches_the_store :
  match applyMiddleware store_fenv 10 [eager_middleware]
          (createStore store_fenv no_enhancers 10) (VFun 0) VUndef VUndef
          world0 with
  | Some (Ok _, w') => currentState w' = VNum 1
  | Some (Err _, _) => False
  | None => False
  end.
Proof. vm_compute. reflexivity. Qed.

(** ** The programs of the examples, run *)

(** A store of the counter, created and sent ['INC'], holds [1]. *)
Example counter_store_increments :
  match createStore store_fenv no_enhancers 10 (VFun 0) VUndef VUndef world0 with
  | Some (Ok _, w) =>
      match dispatch_in store_fenv 5 ex_inc w with
      | Some (Ok action, w') => action = ex_inc /\ getState w' = VNum 1
      | _ => False
      end
  | _ => False
  end.
Proof. vm_compute. auto. Qed.

(** [combineReducers({ count: counter })] sent ['INC'] twice holds
    [{ count: 2 }]. *)
Example combined_counter_counts_twice :
  match combination example_host ex_combined VUndef ex_inc ex_cstate with
  | (Ok state1, st1) =>
      match combination example_host ex_combined state1 ex_inc st1 with
      | (Ok (VObj _ plain props), _) =>
          plain = true /\ props = [("count", VNum 2)]
      | _ => False
      end
  | _ => False
  end.
Proof. vm_compute. auto. Qed.

(** The combination of [{ a: () => undefined, b: counter }] raises the
    captured error at its first call and at its second. *)
Example misshaped_combination_raises_every_time :
  match combineReducers example_host ex_bad_reducers cstate0 with
  | (Ok c, st) =>
      match combination example_host c VUndef ex_inc st with
      | (Err e1, st1) =>
          match combination example_host c VUndef ex_nop st1 with
          | (Err e2, _) =>
              e1 = VError (init_error_message "a") /\ e2 = e1
          | _ => False
          end
      | _ => False
      end
  | _ => False
  end.
Proof. vm_compute. auto. Qed.

(** Listener 10, subscribed by listener 11 during the first pass, is called
    from the second pass on; listener 11, unsubscribed by listener 13 during
    the first pass, was still called in that pass and is gone afterwards. *)
Example registry_changes_show_at_next_dispatch :
  match dispatch_in store_fenv 5 ex_inc ex_world_listeners with
  | Some (Ok _, w') =>
      get_array w' (currentListeners w') = [VFun 11; VFun 13]
      /\ get_array w' (nextListeners w') = [VFun 13; VFun 10]
      /\ match dispatch_in store_fenv 5 ex_inc w' with
         | Some (Ok _, w'') =>
             get_array w'' (currentListeners w'') = [VFun 13; VFun 10]
             /\ getState w'' = VNum 2
         | _ => False
         end
  | _ => False
  end.
Proof. vm_compute. auto. Qed.

(** ** createStore.js: the rest of the store *)

Section StoreMore.
Variable fenv : nat -> list value -> prog value.
Variable eenv : nat -> nat -> creator -> creator.

(** Running [p] and then [f] on its result is running the two in turn; a
    throw of [p] skips [f]. *)
Lemma interp_pbind run loop {A B} (p : prog A) (f : A -> prog B) w :
  interp fenv run loop (pbind p f) w
  = match interp fenv run loop p w with
    | None => None
    | Some (Ok a, w') => interp fenv run loop (f a) w'
    | Some (Err e, w') => Some (Err e, w')
    end.
Proof.
  revert w.
  induction p as [a|e|k IH|action k IH|l k IH|h k IH|nr k IH|c action k IH
                  |props k IH]; intros w; simpl; try reflexivity.
  - apply IH.
  - destruct (dispatch fenv run loop action w) as [[r w1]|]; [apply IH|reflexivity].
  - destruct (subscribe l w) as [r w1]. apply IH.
  - apply IH.
  - destruct (replaceReducer fenv run loop nr w) as [[r w1]|];
      [apply IH|reflexivity].
  - destruct (cells w !! c) as [g|]; [|reflexivity].
    destruct (run (g action) w) as [[r w1]|]; [apply IH|reflexivity].
  - apply IH.
Qed.

Lemma set_next_object_twice a b w :
  set_next_object a (set_next_object b w) = set_next_object a w.
Proof. reflexivity. Qed.

(** A pure program changes nothing but the allocator of identities. *)
Lemma pure_changes_allocator_only run loop {A} (p : prog A) w r w' :
  pure_prog p -> interp fenv run loop p w = Some (r, w') ->
  exists k, w' = set_next_object k w.
Proof.
  intros Hp. revert w.
  induction Hp as [a|e|k _ IH|props k _ IH]; intros w; simpl.
  - intros [= <- <-]. exists (next_object w). now destruct w.
  - intros [= <- <-]. exists (next_object w). now destruct w.
  - apply IH.
  - intros Hk. apply IH in Hk as [n ->]. now exists n.
Qed.

Lemma subscriptions_after_subscribe l w :
  is_function l = true ->
  subscriptions (subscribe l w).2 = subscriptions w ++ [(l, true)].
Proof.
  intros Hl. unfold subscribe. rewrite Hl. simpl.
  now destruct (ensure_fields
                  (set_subscriptions (subscriptions w ++ [(l, true)]) w))
    as (_ & _ & _ & _ & -> & _).
Qed.

Lemma subscriptions_after_unsubscribe h l w :
  subscriptions w !! h = Some (l, true) ->
  subscriptions (unsubscribe h w) = <[h := (l, false)]> (subscriptions w).
Proof.
  intros Hh. unfold unsubscribe. rewrite Hh. simpl.
  now destruct (ensure_fields
                  (set_subscriptions (<[h := (l, false)]> (subscriptions w)) w))
    as (_ & _ & _ & _ & -> & _).
Qed.

Lemma strict_eq_refl_function l : is_function l = true -> strict_eq l l = true.
Proof. destruct l; try discriminate. intros _. apply Nat.eqb_refl. Qed.

(** What a program that does not dispatch leaves of the reducer. *)
Lemma quiet_keeps_reducer run loop {A} (p : prog A) w r w' :
  quiet p -> interp fenv run loop p w = Some (r, w') ->
  currentReducer w' = currentReducer w.
Proof.
  intros Hq. revert w.
  induction Hq as [a|e|k _ IH|l k _ IH|h k _ IH|props k _ IH]; intros w; simpl.
  - now intros [= <- <-].
  - now intros [= <- <-].
  - apply IH.
  - destruct (subscribe l w) as [r1 w1] eqn:Es. intros Hk.
    apply IH in Hk as ->.
    unfold subscribe in Es. destruct (negb (is_function l)).
    + now injection Es as <- <-.
    + injection Es as <- <-. simpl.
      now destruct (ensure_fields
                      (set_subscriptions (subscriptions w ++ [(l, true)]) w))
        as (-> & _).
  - intros Hk. apply IH in Hk as ->.
    unfold unsubscribe.
    destruct (subscriptions w !! h) as [[l b]|]; [|auto].
    destruct (negb b); [auto|]. simpl.
    now destruct (ensure_fields
                    (set_subscriptions (<[h:=(l, false)]> (subscriptions w)) w))
      as (-> & _).
  - intros Hk. apply IH in Hk as ->. auto.
Qed.

(** [createStore(reducer, preloadedState)] asks the reducer for the initial
    State: it calls the reducer with [preloadedState] and a new action of
    the reserved INIT type, while the guard is set.  If the reducer raises,
    so does [createStore], with the same value; if it returns, and is a
    pure function, the store created holds the value returned as its State,
    has no listener and is idle. *)
Theorem createStore_asks_reducer_for_initial_state
    n reducer preloadedState w r w1 :
  is_function reducer = true ->
  is_function preloadedState = false ->
  let init := VObj (next_object w) true [("type", VStr ActionTypes_INIT)] in
  let w0 := World reducer preloadedState [[]] 0 0 true [] (cells w)
              (S (next_object w)) [] in
  exec fenv n (call_function fenv reducer [preloadedState; init]) w0
  = Some (r, w1) ->
  match r with
  | Err e =>
      createStore fenv eenv (S n) reducer preloadedState VUndef w
      = Some (Err e, set_isDispatching false w1)
  | Ok state =>
      pure_prog (call_function fenv reducer [preloadedState; init]) ->
      exists w',
        createStore fenv eenv (S n) reducer preloadedState VUndef w
        = Some (Ok base_store, w')
        /\ getState w' = state
        /\ currentReducer w' = reducer
        /\ get_array w' (nextListeners w') = []
        /\ subscriptions w' = []
        /\ isDispatching w' = false
  end.
Proof.
  intros Hr Hp init w0 Hrun.
  pose (wi := World reducer preloadedState [[]] 0 0 false [] (cells w)
                (S (next_object w)) []).
  assert (Hvalid : valid_action init).
  { exists (next_object w), [("type", VStr ActionTypes_INIT)]. now split. }
  pose proof (dispatch_valid_idle fenv (exec fenv n) (notify fenv n) init wi
                Hvalid eq_refl) as Hd.
  change (reducer_call fenv init wi)
    with (call_function fenv reducer [preloadedState; init]) in Hd.
  change (set_isDispatching true wi) with w0 in Hd.
  rewrite Hrun in Hd.
  assert (Hc : createStore fenv eenv (S n) reducer preloadedState VUndef w
               = match dispatch fenv (exec fenv n) (notify fenv n) init wi with
                 | None => None
                 | Some (Err e, w) => Some (Err e, w)
                 | Some (Ok _, w) => Some (Ok base_store, w)
                 end).
  { simpl. rewrite Hp, Hr. reflexivity. }
  rewrite Hc, Hd. clear Hc Hd.
  destruct r as [state|e]; [|reflexivity].
  intros Hpure.
  destruct n as [|n]; [discriminate|]. rewrite exec_S in Hrun.
  apply (pure_changes_allocator_only _ _ _ _ _ _ Hpure) in Hrun as [k ->].
  eexists. split; [reflexivity|]. repeat split.
Qed.

(** The argument checks of [createStore]: an enhancer that is given and is
    not a function is refused whatever the reducer is; without an enhancer
    a reducer that is not a function is refused; both leave everything as
    it was.  A function in the place of [preloadedState], with no third
    argument, is taken as the enhancer, and an enhancer is handed the
    store-creating function, the reducer (unchecked) and [preloadedState]. *)
Theorem createStore_checks_its_arguments n reducer preloadedState enhancer w :
  (is_undefined enhancer = false -> is_function enhancer = false ->
   createStore fenv eenv (S n) reducer preloadedState enhancer w
   = Some (Err (VError "Expected the enhancer to be a function."), w))
  /\ (is_function preloadedState = false -> is_function reducer = false ->
      createStore fenv eenv (S n) reducer preloadedState VUndef w
      = Some (Err (VError "Expected the reducer to be a function."), w))
  /\ (forall id,
        createStore fenv eenv (S n) reducer (VFun id) VUndef w
        = createStore fenv eenv (S n) reducer VUndef (VFun id) w)
  /\ (forall id,
        createStore fenv eenv (S n) reducer preloadedState (VFun id) w
        = eenv id n (createStore fenv eenv n) reducer preloadedState VUndef w).
Proof.
  repeat split.
  - intros Hu Hf. simpl. rewrite Hu, andb_false_r. simpl.
    destruct enhancer; try reflexivity; discriminate.
  - intros Hp Hr. simpl. rewrite Hp, Hr. reflexivity.
  - intros id. simpl. rewrite andb_false_r. reflexivity.
Qed.

(** The function that [subscribe] returns works once: a second call changes
    nothing. *)
Theorem unsubscribe_twice_is_unsubscribe_once h w :
  unsubscribe h (unsubscribe h w) = unsubscribe h w.
Proof.
  destruct (subscriptions w !! h) as [[l [|]]|] eqn:Eh.
  - pose proof (subscriptions_after_unsubscribe h l w Eh) as Hs.
    assert (Hh : subscriptions (unsubscribe h w) !! h = Some (l, false)).
    { rewrite Hs. apply list_lookup_insert_eq. now apply lookup_lt_Some in Eh. }
    generalize dependent (unsubscribe h w). intros w' _ Hh.
    unfold unsubscribe. now rewrite Hh.
  - assert (Hw : unsubscribe h w = w) by (unfold unsubscribe; now rewrite Eh).
    now rewrite !Hw.
  - assert (Hw : unsubscribe h w = w) by (unfold unsubscribe; now rewrite Eh).
    now rewrite !Hw.
Qed.

(** Subscribing a listener and calling the function returned at once gives
    back the registry: every listener is registered as many times as it
    was, and when the listener was not registered before, the list is the
    one before, in the same order; the State and the guard are untouched. *)
Theorem subscribe_then_unsubscribe_restores_registry l w :
  store_ok w -> is_function l = true ->
  let h := length (subscriptions w) in
  let w2 := unsubscribe h (subscribe l w).2 in
  let before := get_array w (nextListeners w) in
  let after := get_array w2 (nextListeners w2) in
  (subscribe l w).1 = Ok h
  /\ (forall x, registered x after = registered x before)
  /\ (registered l before = 0 -> after = before)
  /\ store_ok w2.
Proof.
  intros Hok Hl h w2 before after.
  destruct (subscribe_appends l w Hok Hl) as (wb & Hsub & Hget).
  assert (Hokb : store_ok wb).
  { pose proof (r_subscribe _ store_ok_kept_respected l w Hok) as H.
    now rewrite Hsub in H. }
  assert (Hh : subscriptions wb !! h = Some (l, true)).
  { pose proof (subscriptions_after_subscribe l w Hl) as Hs.
    rewrite Hsub in Hs. simpl in Hs. rewrite Hs.
    unfold h. now rewrite lookup_app_r, Nat.sub_diag by lia. }
  destruct (unsubscribe_removes h l wb Hokb Hh) as (pre & post & Hsplit & Hpre & Hafter).
  subst w2 after. rewrite Hsub. simpl. rewrite Hafter.
  rewrite Hget in Hsplit. fold before in Hsplit.
  split; [reflexivity|]. split; [|split].
  - intros x.
    assert (H1 : registered x (before ++ [l]) = registered x (pre ++ l :: post))
      by now rewrite Hsplit.
    change (l :: post) with ([l] ++ post) in H1.
    rewrite !registered_app in H1. rewrite registered_app. lia.
  - intros Hzero.
    destruct post as [|z post _] using rev_ind.
    + apply app_inj_tail in Hsplit as [-> _]. now rewrite app_nil_r.
    + change (pre ++ l :: post ++ [z]) with (pre ++ (l :: post) ++ [z]) in Hsplit.
      rewrite app_assoc in Hsplit.
      apply app_inj_tail in Hsplit as [Hb _].
      rewrite Hb in Hzero. change (l :: post) with ([l] ++ post) in Hzero.
      rewrite !registered_app in Hzero. unfold registered at 2 in Hzero.
      simpl in Hzero. rewrite (strict_eq_refl_function l Hl) in Hzero.
      simpl in Hzero. lia.
  - exact (r_unsubscribe _ store_ok_kept_respected h wb Hokb).
Qed.

(** [replaceReducer] installs the new reducer before it dispatches the INIT
    action.  What is not a function is refused and changes nothing.  Called while a reducer runs, it fails as
    any [dispatch] does there, with the new reducer installed all the same
    and the State as it was.  Called on an idle store, it has the new
    reducer compute the State from the current State and a new INIT action
    and runs the notification pass; if the new reducer raises, the error
    propagates and, unless that reducer called the store, the store is left
    with the new reducer and the old State. *)
Theorem replaceReducer_installs_then_dispatches_init n nextReducer w :
  (is_function nextReducer = false ->
   replaceReducer fenv (exec fenv n) (notify fenv n) nextReducer w
   = Some (Err (VError "Expected the nextReducer to be a function."), w))
  /\ (is_function nextReducer = true -> isDispatching w = true ->
      exists w',
        replaceReducer fenv (exec fenv n) (notify fenv n) nextReducer w
        = Some (Err (VError "Reducers may not dispatch actions."), w')
        /\ currentReducer w' = nextReducer
        /\ currentState w' = currentState w
        /\ isDispatching w' = true)
  /\ (is_function nextReducer = true -> isDispatching w = false ->
      let init := VObj (next_object w) true [("type", VStr ActionTypes_INIT)] in
      let w0 := set_isDispatching true
                  (set_next_object (S (next_object w))
                     (set_currentReducer nextReducer w)) in
      let call := call_function fenv nextReducer [currentState w; init] in
      replaceReducer fenv (exec fenv n) (notify fenv n) nextReducer w
      = match exec fenv n call w0 with
        | None => None
        | Some (Err e, w1) => Some (Err e, set_isDispatching false w1)
        | Some (Ok state, w1) =>
            match notify fenv n (nextListeners w1) 0 (pass_start state w1) with
            | None => None
            | Some (Err e, w2) => Some (Err e, w2)
            | Some (Ok _, w2) => Some (Ok tt, w2)
            end
        end
      /\ forall e w1,
           exec fenv n call w0 = Some (Err e, w1) -> quiet call ->
           currentReducer (set_isDispatching false w1) = nextReducer
           /\ currentState (set_isDispatching false w1) = currentState w
           /\ isDispatching (set_isDispatching false w1) = false).
Proof.
  split; [|split].
  - intros Hf. unfold replaceReducer. now rewrite Hf.
  - intros Hf Hd. unfold replaceReducer. rewrite Hf. simpl.
    rewrite dispatch_valid_busy.
    + eexists. split; [reflexivity|]. simpl. auto.
    + exists (next_object w), [("type", VStr ActionTypes_INIT)]. now split.
    + exact Hd.
  - intros Hf Hd init w0 call. split.
    + unfold replaceReducer. rewrite Hf. simpl.
      rewrite dispatch_valid_idle.
      * change (reducer_call fenv _ _) with call.
        change (set_isDispatching true _) with w0.
        destruct (exec fenv n call w0) as [[[state|e] w1]|]; try reflexivity.
        unfold after_pass.
        now destruct (notify fenv n (nextListeners w1) 0 (pass_start state w1))
          as [[[[]|e] w2]|].
      * exists (next_object w), [("type", VStr ActionTypes_INIT)]. now split.
      * exact Hd.
    + intros e w1 Hrun Hq.
      destruct n as [|n]; [discriminate|]. rewrite exec_S in Hrun.
      pose proof (quiet_keeps_reducer _ _ _ _ _ _ Hq Hrun) as Hred.
      apply (quiet_keeps_state fenv _ _ _ _ _ _ Hq) in Hrun as (Hst & _).
      simpl. rewrite Hred, Hst. auto.
Qed.

(** A store that [createStore] made stays consistent whatever is run on it:
    the guard is released between calls, the listener arrays hold functions
    only, and every function returned by [subscribe] that has not been
    called yet finds its listener in the list, so that calling it removes
    one registration of that listener and leaves the other listeners
    registered as they were ([indexOf] never answers [-1], which [splice]
    would read as the last element). *)
Theorem created_store_stays_consistent
    n m reducer preloadedState w s w' {A} (p : prog A) r w'' :
  is_function preloadedState = false ->
  createStore fenv eenv n reducer preloadedState VUndef w = Some (Ok s, w') ->
  run_prog fenv m p w' = Some (r, w'') ->
  store_ok w''
  /\ isDispatching w'' = false
  /\ forall h l,
       subscriptions w'' !! h = Some (l, true) ->
       let before := get_array w'' (nextListeners w'') in
       let after :=
         get_array (unsubscribe h w'') (nextListeners (unsubscribe h w'')) in
       (0 <= indexOf before l)%Z
       /\ S (length after) = length before
       /\ S (registered l after) = registered l before
       /\ (forall x, strict_eq l x = false ->
                     registered x after = registered x before).
Proof.
  intros Hp Hc Hrun.
  destruct (createStore_store_ok fenv eenv _ _ _ _ _ _ Hp Hc) as (_ & Hok & Hd).
  pose proof (run_prog_store_ok fenv _ _ _ _ _ Hok Hrun) as Hok'.
  split; [exact Hok'|]. split.
  { rewrite (run_prog_guard fenv _ _ _ _ _ Hrun). exact Hd. }
  intros h l Hh before after.
  assert (Hl : is_function l = true).
  { pose proof (ok_subscriptions w'' Hok') as Hs.
    eapply Forall_lookup_1 in Hs; eauto. exact Hs. }
  destruct (unsubscribe_removes h l w'' Hok' Hh)
    as (pre & post & Hsplit & Hpre & Hafter).
  subst after. rewrite Hafter. subst before. rewrite Hsplit.
  split; [|split; [|split]].
  - destruct (indexOf_spec (pre ++ l :: post) l)
      as [[_ Hzero]|(pre' & y & post' & _ & _ & _ & ->)]; [|lia].
    change (l :: post) with ([l] ++ post) in Hzero.
    rewrite !registered_app in Hzero. unfold registered at 2 in Hzero.
    simpl in Hzero. rewrite (strict_eq_refl_function l Hl) in Hzero.
    simpl in Hzero. lia.
  - rewrite !length_app. simpl. lia.
  - change (l :: post) with ([l] ++ post).
    rewrite !registered_app. unfold registered at 4. simpl.
    rewrite (strict_eq_refl_function l Hl). simpl. lia.
  - intros x Hx. change (l :: post) with ([l] ++ post).
    rewrite !registered_app. unfold registered at 4. simpl.
    rewrite Hx. simpl. lia.
Qed.

(** What [dispatch] answers.  What is not a plain object is refused first,
    then a plain object whose [type] is [undefined], each with its own
    message and whether or not a reducer is running; nothing is changed.
    A [dispatch] that returns returns the action it was given: that action
    was valid, the store was idle, and it is idle again. *)
Theorem dispatch_answers n action w :
  (isPlainObject action = false ->
   dispatch_in fenv n action w
   = Some (Err (VError ("Actions must be plain objects. "
                        +:+ "Use custom middleware for async actions.")), w))
  /\ (forall id props,
        action = VObj id true props -> obj_get props "type" = VUndef ->
        dispatch_in fenv n action w
        = Some (Err (VError ("Actions may not have an undefined "
                             +:+ dq +:+ "type" +:+ dq +:+ " property. "
                             +:+ "Have you misspelled a constant?")), w))
  /\ (forall v w',
        dispatch_in fenv n action w = Some (Ok v, w') ->
        v = action /\ valid_action action
        /\ isDispatching w = false /\ isDispatching w' = false).
Proof.
  split; [|split].
  - intros Hp. unfold dispatch_in, dispatch. now rewrite Hp.
  - intros id props -> Ht. unfold dispatch_in, dispatch. simpl. now rewrite Ht.
  - intros v w' Hd.
    destruct (classic_valid action) as [Hv|Hv].
    2:{ destruct (dispatch_invalid fenv (exec fenv n) (notify fenv n) action w Hv)
          as [e He]. unfold dispatch_in in Hd. congruence. }
    destruct (isDispatching w) eqn:Hg.
    { unfold dispatch_in in Hd. rewrite dispatch_valid_busy in Hd by auto.
      discriminate. }
    unfold dispatch_in in Hd. rewrite dispatch_valid_idle in Hd by auto.
    destruct (exec fenv n _ _) as [[[state|e] w1]|]; try discriminate.
    unfold after_pass in Hd.
    destruct (notify fenv n _ _ _) as [[[[]|e] w2]|] eqn:En; try discriminate.
    injection Hd as <- <-.
    destruct (notify_respects fenv _ guard_kept_respected _ _ _ _ _ _ En)
      as [Hg' _].
    auto.
Qed.

(** *** Dispatches that end *)

Lemma quiet_interp_total run loop {A} (p : prog A) w :
  quiet p -> exists r w', interp fenv run loop p w = Some (r, w').
Proof.
  intros Hq. revert w.
  induction Hq as [a|e|k _ IH|l k _ IH|h k _ IH|props k _ IH]; intros w; simpl;
    eauto.
  destruct (subscribe l w) as [r1 w1]. apply IH.
Qed.

Lemma quiet_call_function f args :
  (forall id args, quiet (fenv id args)) -> quiet (call_function fenv f args).
Proof. intros Hq. destruct f; simpl; auto; constructor. Qed.

Lemma call_each_cons n l ls w :
  call_each fenv (S n) (l :: ls) w
  = match exec fenv n (call_function fenv l []) (note_call l w) with
    | None => None
    | Some (Err e, w) => Some (Err e, w)
    | Some (Ok _, w) => call_each fenv n ls w
    end.
Proof. reflexivity. Qed.

Lemma call_each_quiet_total n ls w :
  (forall id args, quiet (fenv id args)) -> length ls < n ->
  exists r w', call_each fenv n ls w = Some (r, w').
Proof.
  intros Hq. revert n w. induction ls as [|l ls IH]; intros n w Hn.
  - destruct n as [|n]; [lia|]. simpl. eauto.
  - destruct n as [|[|n]]; simpl in Hn; try lia.
    rewrite call_each_cons, exec_S.
    destruct (quiet_interp_total (exec fenv n) (notify fenv n)
                (call_function fenv l []) (note_call l w)
                (quiet_call_function l [] Hq)) as ([v|e] & w1 & ->); [|eauto].
    apply IH. lia.
Qed.

(** A [dispatch] ends when no function calls [dispatch] or [replaceReducer]:
    on a consistent idle store, for a valid action, it ends whatever number
    of steps is allowed beyond a bound (one per listener of the snapshot,
    the loop going through the list once), with the same answer and in the
    same world, where the guard is released; when it returns, it returns
    the action. *)
Theorem dispatch_ends_when_callbacks_do_not_dispatch action w :
  (forall id args, quiet (fenv id args)) ->
  store_ok w -> valid_action action -> isDispatching w = false ->
  exists N r w',
    (forall m, N <= m -> dispatch_in fenv m action w = Some (r, w'))
    /\ isDispatching w' = false
    /\ (forall v, r = Ok v -> v = action).
Proof.
  intros Hq Hok Hvalid Hidle.
  destruct (quiet_interp_total (exec fenv 0) (notify fenv 0)
              (reducer_call fenv action w) (set_isDispatching true w)
              (quiet_call_function _ _ Hq)) as (r1 & w1 & Hrun).
  change (interp fenv (exec fenv 0) (notify fenv 0) (reducer_call fenv action w)
            (set_isDispatching true w))
    with (exec fenv 1 (reducer_call fenv action w) (set_isDispatching true w))
    in Hrun.
  assert (Hg1 : isDispatching w1 = true).
  { now destruct (exec_respects fenv _ guard_kept_respected _ _ _ _ _ Hrun)
      as [-> _]. }
  destruct r1 as [v|e].
  2:{ exists 1, (Err e), (set_isDispatching false w1). split; [|split].
      - intros m Hm. unfold dispatch_in.
        rewrite (dispatch_valid_idle fenv _ _ _ _ Hvalid Hidle).
        now rewrite (exec_mono fenv 1 m _ _ _ Hm Hrun).
      - reflexivity.
      - discriminate. }
  assert (Hok1 : store_ok w1).
  { apply (exec_respects fenv _ store_ok_kept_respected _ _ _ _ _ Hrun).
    now apply store_ok_set_guard. }
  set (snapshot := get_array w1 (nextListeners w1)).
  destruct (call_each_quiet_total (S (length snapshot)) snapshot
              (pass_start v w1) Hq (Nat.lt_succ_diag_r _)) as (r2 & w2 & Hpass).
  exists (S (S (length snapshot))),
    (match r2 with Ok _ => Ok action | Err e => Err e end), w2.
  split; [|split].
  - intros m Hm. unfold dispatch_in.
    rewrite (dispatch_valid_idle fenv _ _ _ _ Hvalid Hidle).
    rewrite (exec_mono fenv 1 m _ _ _ ltac:(lia) Hrun).
    rewrite notify_call_each by now apply pass_start_frozen.
    change (drop 0 (get_array (pass_start v w1) (nextListeners w1)))
      with snapshot.
    rewrite (call_each_mono fenv (S (length snapshot)) m _ _ _ ltac:(lia) Hpass).
    now destruct r2.
  - now destruct (call_each_respects fenv _ guard_kept_respected _ _ _ _ _ Hpass)
      as [-> _].
  - intros v'. destruct r2; now intros [= <-].
Qed.

(** The only way to change the State is to dispatch: a program that calls
    neither [dispatch] nor [replaceReducer], whatever it subscribes,
    unsubscribes or reads, ends (it needs no callback) and leaves the State,
    the reducer and the guard as they were; and a [subscribe] of what is not
    a function is refused and changes nothing at all. *)
Theorem only_dispatch_changes_the_state n {A} (p : prog A) w :
  quiet p ->
  (exists r w',
      run_prog fenv n p w = Some (r, w')
      /\ currentState w' = currentState w
      /\ currentReducer w' = currentReducer w
      /\ isDispatching w' = isDispatching w)
  /\ (forall l,
        is_function l = false ->
        run_prog fenv n (s_subscribe base_store l) w
        = Some (Err (VError "Expected listener to be a function."), w)).
Proof.
  intros Hq. split.
  - destruct (quiet_interp_total (exec fenv n) (notify fenv n) p w Hq)
      as (r & w' & Hrun).
    exists r, w'. split; [exact Hrun|].
    pose proof (quiet_keeps_reducer _ _ _ _ _ _ Hq Hrun) as Hred.
    apply (quiet_keeps_state fenv _ _ _ _ _ _ Hq) in Hrun as (Hst & Hg & _).
    auto.
  - intros l Hl. unfold run_prog. simpl. unfold subscribe. now rewrite Hl.
Qed.

End StoreMore.

(** ** bindActionCreators.js *)

Section BindFacts.
Context {U : Type}.
Variable fenv : nat -> list value -> prog value.




Lemma bind_each_total actionCreators dispatch keys acc (st : cstate U) :
  exists props st',
    bind_each fenv actionCreators dispatch keys acc st = (Ok props, st')
    /\ uw st' = uw st /\ calls st' = calls st.
Proof.
  revert acc st. induction keys as [|key keys IH]; intros acc st; simpl.
  - now exists acc, st.
  - destruct (is_function (obj_get actionCreators key)); [apply IH|].
    unfold cbind, warning. simpl.
    destruct (IH acc (CState (uw st) (unexpectedKeyCache st)
                        (warnings st
                         ++ [bind_warning_message key
                               (type_of (obj_get actionCreators key))])
                        (calls st)))
      as (props & st' & -> & Hu & Hc).
    now exists props, st'.
Qed.


(** [bindActionCreators] takes a function or an object and nothing else: a
    function is bound by itself, an object (an [Error] too) gives an
    object, and [undefined], [null], a boolean, a number or a string is
    refused with a message that names what was received ([null] by its
    own name, not by its [typeof]), with no warning and no other change. *)
Theorem bindActionCreators_takes_functions_and_objects_only
    actionCreators dispatch (st : cstate U) :
  match actionCreators with
  | VFun _ =>
      bindActionCreators fenv actionCreators dispatch st
      = (Ok (BoundFunction (bindActionCreator fenv actionCreators dispatch)), st)
  | VObj _ _ _ | VError _ =>
      exists props st',
        bindActionCreators fenv actionCreators dispatch st
        = (Ok (BoundObject (next_obj (uw st)) props), st')
        /\ calls st' = calls st
  | VNull =>
      bindActionCreators fenv actionCreators dispatch st
      = (Err (VError (bind_error_message "null")), st)
  | VUndef =>
      bindActionCreators fenv actionCreators dispatch st
      = (Err (VError (bind_error_message "undefined")), st)
  | VBool _ =>
      bindActionCreators fenv actionCreators dispatch st
      = (Err (VError (bind_error_message "boolean")), st)
  | VNum _ =>
      bindActionCreators fenv actionCreators dispatch st
      = (Err (VError (bind_error_message "number")), st)
  | VStr _ =>
      bindActionCreators fenv actionCreators dispatch st
      = (Err (VError (bind_error_message "string")), st)
  end.
Proof.
  destruct actionCreators as [| |b|z|s|id plain props|id|msg]; try reflexivity.
  - unfold bindActionCreators. simpl.
    unfold cbind at 1. unfold fresh_id at 1. simpl. unfold cbind.
    match goal with
    | |- context [bind_each fenv ?a ?d ?k ?acc ?s] =>
        destruct (bind_each_total a d k acc s) as (ps & st' & -> & _ & Hc)
    end.
    exists ps, st'. split; [reflexivity|exact Hc].
  - unfold bindActionCreators. simpl.
    unfold cbind at 1. unfold fresh_id at 1. simpl. unfold cbind. simpl.
    eexists _, _. split; reflexivity.
Qed.

(** Calling a bound action creator runs the action creator on all the
    arguments of the call and then [dispatch] on the one value it
    returned, in the world the action creator left; its result is that of
    [dispatch].  If the action creator raises, the error propagates and
    [dispatch] is not called.  Bound to the [dispatch] of a store, the call
    is the dispatch of the action created. *)
Theorem bound_creator_dispatches_what_the_creator_returns
    n actionCreator (send : dispatch_fn) args w :
  run_prog fenv n (bindActionCreator fenv actionCreator send args) w
  = match run_prog fenv n (call_function fenv actionCreator args) w with
    | None => None
    | Some (Err e, w1) => Some (Err e, w1)
    | Some (Ok action, w1) => run_prog fenv n (send action) w1
    end
  /\ run_prog fenv n
       (bindActionCreator fenv actionCreator (s_dispatch base_store) args) w
     = match run_prog fenv n (call_function fenv actionCreator args) w with
       | None => None
       | Some (Err e, w1) => Some (Err e, w1)
       | Some (Ok action, w1) => dispatch_in fenv n action w1
       end.
Proof.
  unfold run_prog, bindActionCreator. rewrite !interp_pbind.
  split; [reflexivity|].
  destruct (interp fenv _ _ (call_function fenv actionCreator args) w)
    as [[[action|e] w1]|]; try reflexivity.
  simpl. unfold dispatch_in.
  now destruct (dispatch fenv _ _ action w1) as [[[v|e] w2]|].
Qed.

End BindFacts.

(** ** compose.js: composing in two steps *)

Section ComposeMore.
Context {M : Type -> Type} {T : Type}.
Variable ret : T -> M T.
Variable bind : M T -> (T -> M T) -> M T.
Variable undef : T.

Local Abbreviation compose := (compose ret bind undef).

Lemma compose_last f fs l args :
  compose (f :: fs ++ [l]) args
  = bind (l args) (fun r => compose (f :: fs) [r]).
Proof.
  destruct fs as [|g fs]; [reflexivity|].
  change (compose (f :: (g :: fs) ++ [l]))
    with (fold_left (compose_step bind) ((g :: fs) ++ [l]) f).
  rewrite fold_left_app. reflexivity.
Qed.

(** The effect is one in which sequencing is associative and depends on the
    results of the continuation only. *)
Hypothesis bind_assoc :
  forall m f g, bind (bind m f) g = bind m (fun x => bind (f x) g).
Hypothesis bind_ext :
  forall m f g, (forall x, f x = g x) -> bind m f = bind m g.

(** Composing a list of functions is composing its two halves: the
    composition of the right half runs on the arguments and the composition
    of the left half on its one result, so that
    [compose(f, g, h, k)] behaves as [compose(compose(f, g), compose(h, k))]. *)
Theorem compose_of_concatenation fs gs args :
  fs <> [] -> gs <> [] ->
  compose (fs ++ gs) args
  = bind (compose gs args) (fun r => compose fs [r]).
Proof.
  intros Hfs. revert args.
  induction gs as [|l gs IH] using rev_ind; intros args Hgs; [congruence|].
  destruct fs as [|f fs']; [congruence|].
  destruct gs as [|g gs'].
  - simpl. apply compose_last.
  - rewrite app_assoc, <- !app_comm_cons.
    rewrite (compose_last f (fs' ++ g :: gs') l).
    rewrite (compose_last g gs' l), bind_assoc.
    apply bind_ext. intros r.
    apply (IH [r]). discriminate.
Qed.

End ComposeMore.

(** ** applyMiddleware.js: the chain *)

Section MiddlewareMore.
Variable fenv : nat -> list value -> prog value.

Lemma run_each_plain fuel (api : middlewareAPI) wraps w :
  run_each fenv fuel (map (fun m : middleware => m api)
                          (map plain_middleware wraps)) w
  = Some (Ok (map (fun wrap args =>
                     Ret (wrap api (hd undefined_dispatch args))) wraps), w).
Proof.
  induction wraps as [|wrap wraps IH]; simpl; [reflexivity|].
  now rewrite IH.
Qed.

Lemma compose_plain (api : middlewareAPI)
    (wraps : list (middlewareAPI -> dispatch_fn -> dispatch_fn)) args :
  compose Ret pbind undefined_dispatch
    (map (fun wrap args => Ret (wrap api (hd undefined_dispatch args))) wraps)
    args
  = Ret (fold_right (fun wrap next => wrap api next)
           (hd undefined_dispatch args) wraps).
Proof.
  revert args. induction wraps as [|l wraps IH] using rev_ind; intros args.
  - reflexivity.
  - destruct wraps as [|g wraps]; [reflexivity|].
    rewrite map_app. cbn [map]. rewrite <- app_comm_cons.
    rewrite (compose_last Ret pbind undefined_dispatch). cbn [pbind].
    rewrite fold_right_app.
    exact (IH [l api (hd undefined_dispatch args)]).
Qed.

Lemma run_each_app_err fuel {A} (pre : list (prog A)) p post w chain w3 e w4 :
  run_each fenv fuel pre w = Some (Ok chain, w3) ->
  run_prog fenv fuel p w3 = Some (Err e, w4) ->
  run_each fenv fuel (pre ++ p :: post) w = Some (Err e, w4).
Proof.
  revert w chain. induction pre as [|q pre IH]; intros w chain; simpl.
  - intros [= <- <-] ->. reflexivity.
  - destruct (run_prog fenv fuel q w) as [[[a|e'] wa]|]; try discriminate.
    destruct (run_each fenv fuel pre wa) as [[[l|e'] wb]|] eqn:Ep;
      try discriminate.
    intros [= <- <-] Hp. now rewrite (IH _ _ Ep Hp).
Qed.

Lemma applyMiddleware_plain
    fuel wraps (createStore : creator) reducer preloadedState enhancer w :
  applyMiddleware fenv fuel (map plain_middleware wraps) createStore reducer
    preloadedState enhancer w
  = match createStore reducer preloadedState enhancer w with
    | None => None
    | Some (Err e, w1) => Some (Err e, w1)
    | Some (Ok store, w1) =>
        let api :=
          MiddlewareAPI (s_getState store)
            (fun action => CallDispatch (length (cells w1)) action lift_outcome) in
        let composed :=
          fold_right (fun wrap next => wrap api next) (s_dispatch store) wraps in
        Some (Ok (Store composed (s_subscribe store) (s_getState store)
                        (s_replaceReducer store)),
              set_cells (cells w1 ++ [composed]) w1)
    end.
Proof.
  unfold applyMiddleware.
  destruct (createStore reducer preloadedState enhancer w)
    as [[[store|e] w1]|]; try reflexivity.
  rewrite run_each_plain. rewrite compose_plain.
  unfold run_prog. cbn [interp hd]. cbv zeta.
  do 2 f_equal. unfold set_cells. simpl. f_equal.
  rewrite insert_app_r_alt by lia.
  now rewrite Nat.sub_diag.
Qed.

(** For middlewares that only wrap ([api => next => wrap(api, next)]), the
    [dispatch] of the store that [applyMiddleware] returns is the store's
    own [dispatch] wrapped by every middleware, the first of the list
    outermost and the last one next to the store; that function is also
    what the API's [dispatch] calls from then on.  Nothing else of the
    store changes, and with no middleware at all the store returned is the
    store created. *)
Theorem applyMiddleware_wraps_dispatch_first_outermost
    fuel wraps (createStore : creator) reducer preloadedState enhancer
    w store w1 :
  createStore reducer preloadedState enhancer w = Some (Ok store, w1) ->
  let cell := length (cells w1) in
  let api :=
    MiddlewareAPI (s_getState store)
      (fun action => CallDispatch cell action lift_outcome) in
  let composed :=
    fold_right (fun wrap next => wrap api next) (s_dispatch store) wraps in
  applyMiddleware fenv fuel (map plain_middleware wraps) createStore reducer
    preloadedState enhancer w
  = Some (Ok (Store composed (s_subscribe store) (s_getState store)
                    (s_replaceReducer store)),
          set_cells (cells w1 ++ [composed]) w1)
  /\ (wraps = [] ->
      Store composed (s_subscribe store) (s_getState store)
            (s_replaceReducer store) = store).
Proof.
  intros Hc cell api composed. split.
  - rewrite applyMiddleware_plain, Hc. reflexivity.
  - intros ->. simpl in composed. subst composed. now destruct store.
Qed.

(** A middleware that raises while it is constructed ends [applyMiddleware]
    with its error: the middlewares after it are not constructed, whatever
    they are, and the [dispatch] that the API calls is still the store's
    own. *)
Theorem applyMiddleware_stops_at_failing_middleware
    fuel pre (m : middleware) post (createStore : creator)
    reducer preloadedState enhancer w store w1 chain w3 e w4 :
  createStore reducer preloadedState enhancer w = Some (Ok store, w1) ->
  let cell := length (cells w1) in
  let api :=
    MiddlewareAPI (s_getState store)
      (fun action => CallDispatch cell action lift_outcome) in
  let w2 := set_cells (cells w1 ++ [s_dispatch store]) w1 in
  run_each fenv fuel (map (fun m => m api) pre) w2 = Some (Ok chain, w3) ->
  run_prog fenv fuel (m api) w3 = Some (Err e, w4) ->
  applyMiddleware fenv fuel (pre ++ m :: post) createStore reducer
    preloadedState enhancer w = Some (Err e, w4)
  /\ cells w4 !! cell = Some (s_dispatch store).
Proof.
  intros Hc cell api w2 Hpre Hm. split.
  - unfold applyMiddleware. rewrite Hc. fold cell. fold api. fold w2.
    rewrite map_app. simpl map.
    now rewrite (run_each_app_err _ _ _ _ _ _ _ _ _ Hpre Hm).
  - rewrite (run_prog_cells fenv _ _ _ _ _ Hm).
    rewrite (run_each_cells fenv _ _ _ _ _ Hpre).
    unfold w2, cell. simpl.
    now rewrite lookup_app_r, Nat.sub_diag by lia.
Qed.

End MiddlewareMore.

(** ** createStore.js with applyMiddleware.js *)

Section EnhancedStore.
Variable fenv : nat -> list value -> prog value.
Variable eenv : nat -> nat -> creator -> creator.

(** [createStore(reducer, preloadedState, applyMiddleware(...middlewares))]
    for middlewares that only wrap: the enhancer has [createStore] make the
    store from the reducer and [preloadedState] with no enhancer, so that
    the checks, the INIT dispatch and its errors are those of the plain
    store; the store returned has that store's methods, except for
    [dispatch], which is the store's own wrapped by the middlewares, the
    first one outermost. *)
Theorem createStore_with_applyMiddleware
    n id wraps reducer preloadedState w :
  (forall fuel (cs : creator),
      eenv id fuel cs
      = applyMiddleware fenv fuel (map plain_middleware wraps) cs) ->
  createStore fenv eenv (S n) reducer preloadedState (VFun id) w
  = match createStore fenv eenv n reducer preloadedState VUndef w with
    | None => None
    | Some (Err e, w1) => Some (Err e, w1)
    | Some (Ok store, w1) =>
        let api :=
          MiddlewareAPI (s_getState store)
            (fun action => CallDispatch (length (cells w1)) action lift_outcome) in
        let composed :=
          fold_right (fun wrap next => wrap api next) (s_dispatch store) wraps in
        Some (Ok (Store composed (s_subscribe store) (s_getState store)
                        (s_replaceReducer store)),
              set_cells (cells w1 ++ [composed]) w1)
    end.
Proof.
  intros He.
  assert (Hc : createStore fenv eenv (S n) reducer preloadedState (VFun id) w
               = eenv id n (createStore fenv eenv n) reducer preloadedState
                   VUndef w).
  { simpl. now rewrite andb_false_r. }
  rewrite Hc, He. apply applyMiddleware_plain.
Qed.

End EnhancedStore.

(** ** combineReducers.js: retained reducers, diagnostics, absent states *)

Section CombineMore.
Context {U : Type}.
Variable h : host U.

Local Ltac run_cm :=
  unfold cbind, cret, cthrow, ctry, new_object, fresh_id, random_probe_suffix,
    warning, new_cache in *; simpl in *.

(** *** What touches the warnings and the cache of reported keys *)

Lemma call_reducer_keeps key reducer state action (st : cstate U) x st' :
  call_reducer h key reducer state action st = (x, st') ->
  warnings st' = warnings st
  /\ unexpectedKeyCache st' = unexpectedKeyCache st.
Proof.
  unfold call_reducer. destruct reducer; try (now intros [= <- <-]).
  destruct (renv h id _ (uw st)) as [r w']. now intros [= <- <-].
Qed.

Lemma combination_loop_keeps c state action keys hc acc (st : cstate U) r st' :
  combination_loop h c state action keys hc acc st = (r, st') ->
  warnings st' = warnings st
  /\ unexpectedKeyCache st' = unexpectedKeyCache st.
Proof.
  revert hc acc st. induction keys as [|key rest IH]; intros hc acc st; simpl.
  - now intros [= <- <-].
  - destruct (read_prop h state key) as [prev|e]; [|now intros [= <- <-]].
    unfold cbind at 1.
    destruct (call_reducer h key _ prev action st) as [[v|e] st1] eqn:Ec;
      apply call_reducer_keeps in Ec as [Hw Hk].
    + destruct (is_undefined v).
      * destruct (raise_message h (A := bool * list (string * value))
                    key action st1) as (rm & w2 & _ & Hraise).
        rewrite (Hraise st1 eq_refl). intros [= <- <-]. auto.
      * intros Hl. apply IH in Hl as [-> ->]. auto.
    + intros [= <- <-]. auto.
Qed.

Lemma validation_keeps reducers keys (st : cstate U) r st' :
  for_each (assert_one h reducers) keys st = (r, st') ->
  warnings st' = warnings st
  /\ unexpectedKeyCache st' = unexpectedKeyCache st.
Proof.
  revert st. induction keys as [|key rest IH]; intros st; simpl.
  - now intros [= <- <-].
  - unfold cbind at 1, assert_one.
    unfold cbind at 1, new_object, cbind at 1, fresh_id, cret.
    unfold cbind at 1.
    match goal with
    | |- context [call_reducer h key ?f ?s ?a ?st0] =>
        destruct (call_reducer h key f s a st0) as [[v1|e1] st1] eqn:E1;
        apply call_reducer_keeps in E1 as [Hw1 Hk1]; simpl in Hw1, Hk1
    end; [|now intros [= <- <-]].
    destruct (is_undefined v1); [unfold cthrow; now intros [= <- <-]|].
    unfold cbind at 1, random_probe_suffix.
    unfold cbind at 1, new_object, cbind at 1, fresh_id, cret.
    unfold cbind at 1.
    match goal with
    | |- context [call_reducer h key ?f ?s ?a ?st0] =>
        destruct (call_reducer h key f s a st0) as [[v2|e2] st2] eqn:E2;
        apply call_reducer_keeps in E2 as [Hw2 Hk2]; simpl in Hw2, Hk2
    end; [|intros [= <- <-]; split; congruence].
    destruct (is_undefined v2);
      [unfold cthrow; intros [= <- <-]; split; congruence|].
    intros Hrest. apply IH in Hrest as [-> ->]. split; congruence.
Qed.

(** *** The first loop, exactly *)



(** *** The report of unexpected keys *)








(** What a run of [combination] past its diagnostics leaves of the
    warnings and the cache objects: what the diagnostics left. *)
Lemma combination_after_report c state action (st : cstate U) r st' sa :
  is_undefined state = false ->
  truthy (shapeAssertionError c) = false ->
  report_unexpected_state_shape h c state action st = (Ok tt, sa) ->
  combination h c state action st = (r, st') ->
  warnings st' = warnings sa /\ unexpectedKeyCache st' = unexpectedKeyCache sa.
Proof.
  intros Hdef Herr Hrep. rewrite combination_unfold. cbv zeta.
  rewrite Hdef, Herr, Hrep.
  destruct (combination_loop h c _ action _ _ _ _) as [[[hc np]|e] s] eqn:El;
    apply combination_loop_keeps in El; simpl in El;
    intros [= <- <-]; exact El.
Qed.


(** In a production build the library gives no warning and keeps no record
    of unexpected keys, neither in [combineReducers] nor in any call of
    the function it returns. *)
Theorem production_build_gives_no_warning :
  production h = true ->
  (forall reducers (st : cstate U) r st',
      combineReducers h reducers st = (r, st') ->
      warnings st' = warnings st
      /\ unexpectedKeyCache st' = unexpectedKeyCache st)
  /\ (forall c state action (st : cstate U) r st',
        combination h c state action st = (r, st') ->
        warnings st' = warnings st
        /\ unexpectedKeyCache st' = unexpectedKeyCache st).
Proof.
  intros Hprod. split.
  - intros reducers st r st'. unfold combineReducers. rewrite Hprod. simpl negb.
    cbv iota.
    assert (Hret : forall keys acc (s : cstate U),
               exists fr, retain_functions h reducers keys acc s = (Ok fr, s)).
    { induction keys as [|k keys IH]; intros acc s; simpl.
      - now exists acc.
      - rewrite Hprod. simpl. unfold cbind, cret. apply IH. }
    destruct (Hret (obj_keys reducers) [] st) as (fr & Hfr).
    rewrite (cbind_ok _ _ _ _ _ Hfr).
    unfold cbind at 1, cret at 1.
    unfold cbind at 1, ctry, assertReducerShape. unfold cbind at 1.
    destruct (for_each (assert_one h fr) (obj_keys fr) st) as [[[]|e] st3] eqn:Ev;
      apply validation_keeps in Ev; unfold cret; now intros [= <- <-].
  - intros c state action st r st'.
    rewrite combination_unfold. cbv zeta.
    destruct (default_state_frame state st) as (_ & Hw & Hk & _).
    cbv zeta in Hw, Hk.
    set (st_a := if is_undefined state then _ else st) in *.
    destruct (truthy (shapeAssertionError c)); [intros [= <- <-]; auto|].
    assert (Hrep : forall s a (x : cstate U),
               report_unexpected_state_shape h c s a x = (Ok tt, x)).
    { intros s a x. unfold report_unexpected_state_shape. now rewrite Hprod. }
    rewrite Hrep.
    destruct (combination_loop h c _ action _ _ _ _) as [[[hc np]|e] s] eqn:El;
      apply combination_loop_keeps in El as [Hw' Hk']; simpl in Hw', Hk';
      intros [= <- <-]; split; congruence.
Qed.

(** *** States that are absent *)

Lemma strict_eq_undefined v : strict_eq v VUndef = true -> v = VUndef.
Proof. now destruct v. Qed.

(** Called with [undefined] for the state, as a store without preloaded
    state does at its creation, the function that [combineReducers]
    returns reads every retained name from a new empty object, so that each
    reducer is called with what that object inherits under its name.  When
    it inherits nothing under the retained names (none is called
    [toString], say), every reducer is called with [undefined] and the call,
    when it returns, returns a new record of the values they answered, never
    the empty object that stands for the missing state.  It does return
    when no error was captured and the reducers answer the action with
    defined values. *)
Theorem combination_builds_the_initial_state
    reducers st0 c st1 action (st : cstate U) :
  combineReducers h reducers st0 = (Ok c, st1) ->
  finalReducerKeys c <> [] ->
  (forall v st',
      combination h c VUndef action st = (Ok v, st') ->
      exists subs,
        map sub_key subs = finalReducerKeys c
        /\ Forall (fun s => sub_prev s
                            = inherited h (VObj (next_obj (uw st)) true [])
                                (sub_key s)
                            /\ sub_next s <> VUndef) subs
        /\ calls st' = calls st ++ map (sub_call c action) subs
        /\ ((forall key, In key (finalReducerKeys c) ->
               inherited h (VObj (next_obj (uw st)) true []) key = VUndef) ->
            v = VObj (S (next_obj (uw st))) true
                  (map (fun s => (sub_key s, sub_next s)) subs)))
  /\ (truthy (shapeAssertionError c) = false ->
      returns_defined h c action ->
      exists v st', combination h c VUndef action st = (Ok v, st')).
Proof.
  intros Hc Hne.
  destruct (combineReducers_spec h reducers st0)
    as (c' & st1' & trace & Hc' & _ & _ & Hkeys & Hnd & Hfn & _).
  rewrite Hc in Hc'. injection Hc' as <- <-.
  assert (Hd : diagnostics_return h c (VObj (next_obj (uw st)) true []))
    by (do 3 right; left; eauto).
  split.
  - intros v st' Hrun.
    rewrite combination_unfold in Hrun. cbv zeta in Hrun. simpl in Hrun.
    destruct (truthy (shapeAssertionError c)); [discriminate|].
    match type of Hrun with
    | context [report_unexpected_state_shape h c ?s action ?t] =>
        destruct (report_quiet h c s action t Hd) as (st_b & Hrep & Huw & Hcb)
    end.
    rewrite Hrep in Hrun. simpl in Huw, Hcb.
    destruct (combination_loop h c _ action (finalReducerKeys c) false [] _)
      as [[[hc np]|e] st2] eqn:Eloop; [|discriminate].
    injection Hrun as <- <-.
    apply combination_loop_ok in Eloop
      as (subs & Hsubs & Hcalls' & Hall & -> & ->).
    exists subs. split; [exact Hsubs|].
    split.
    { eapply Forall_impl; [exact Hall|]. intros s [Hp Hn]. simpl in Hp.
      split; [congruence|exact Hn]. }
    split; [rewrite Hcalls'; simpl; now rewrite Hcb|].
    intros Hnone.
    rewrite fold_obj_set_fresh by (simpl; now rewrite Hsubs).
    destruct subs as [|s subs]; [simpl in Hsubs; congruence|].
    apply Forall_cons in Hall as [[Hp Hn] _]. simpl in Hp.
    rewrite Hnone in Hp by (rewrite <- Hsubs; now left).
    injection Hp as Hp.
    simpl. rewrite <- Hp.
    destruct (strict_eq (sub_next s) VUndef) eqn:Es.
    + apply strict_eq_undefined in Es. congruence.
    + simpl. now rewrite Huw.
  - intros Hfalse Hdef.
    rewrite combination_unfold. cbv zeta. simpl. rewrite Hfalse.
    match goal with
    | |- context [report_unexpected_state_shape h c ?s action ?t] =>
        destruct (report_quiet h c s action t Hd) as (st_b & -> & _)
    end.
    match goal with
    | |- context [combination_loop h c ?s0 action ?ks ?b ?a ?s] =>
        destruct (combination_loop_total h c s0 action ks b a s)
          as ([hc np] & st' & ->); auto
    end.
    + intros key. simpl. eauto.
    + eauto.
Qed.

(** The default [{}] stands for [undefined] only: called with [null] for the
    state, the function that [combineReducers] returns fails on reading the
    first retained name from it, before any reducer is called. *)
Theorem combination_of_null_state_raises c action (st : cstate U) key keys :
  truthy (shapeAssertionError c) = false ->
  finalReducerKeys c = key :: keys ->
  exists e st',
    combination h c VNull action st = (Err e, st')
    /\ get_prop VNull key = Err e
    /\ calls st' = calls st.
Proof.
  intros Hfalse Hkeys.
  rewrite combination_unfold. cbv zeta. simpl is_undefined. cbv iota.
  rewrite Hfalse.
  assert (Hd : diagnostics_return h c VNull)
    by (do 2 right; left; split; [reflexivity|discriminate]).
  destruct (report_quiet h c VNull action st Hd) as (st_b & -> & _ & Hcalls).
  rewrite Hkeys. simpl. unfold cthrow.
  eexists _, _. split; [reflexivity|]. split; [reflexivity|exact Hcalls].
Qed.

Lemma obj_get_forall (P : value -> Prop) props key :
  Forall (fun kv => P kv.2) props -> P VUndef -> P (obj_get props key).
Proof.
  intros Hall Hu. induction Hall as [|[k v] props Hv _ IH]; simpl; [exact Hu|].
  now destruct (String.eqb k key).
Qed.

Lemma retain_functions_none reducers keys acc (st : cstate U) :
  Forall (fun kv => is_function kv.2 = false) reducers ->
  exists st',
    retain_functions h reducers keys acc st = (Ok acc, st')
    /\ calls st' = calls st /\ uw st' = uw st.
Proof.
  intros Hnone. revert st. induction keys as [|key keys IH]; intros st; simpl.
  - now exists st.
  - rewrite (obj_get_forall (fun v => is_function v = false) reducers key Hnone
               eq_refl).
    unfold cbind.
    destruct (negb (production h) && is_undefined (obj_get reducers key)).
    + unfold warning at 1.
      destruct (IH (CState (uw st) (unexpectedKeyCache st)
                      (warnings st ++ ["No reducer provided for key "
                                       +:+ dq +:+ key +:+ dq]) (calls st)))
        as (st' & -> & Hc & Hu).
      now exists st'.
    + unfold cret at 1. apply IH.
Qed.

(** When no value of its argument is a function, [combineReducers] calls
    nothing and returns a function that hands back the state it is given
    (a new empty object for [undefined]) without calling anything either;
    outside production every call of it gives the warning that the store
    has no valid reducer. *)
Theorem combination_without_reducers
    reducers st0 c st1 state action (st : cstate U) :
  Forall (fun kv => is_function kv.2 = false) reducers ->
  combineReducers h reducers st0 = (Ok c, st1) ->
  finalReducers c = []
  /\ calls st1 = calls st0
  /\ exists st',
       combination h c state action st
       = (Ok (if is_undefined state then VObj (next_obj (uw st)) true []
              else state), st')
       /\ calls st' = calls st
       /\ warnings st'
          = warnings st
            ++ (if production h then []
                else ["Store does not have a valid reducer. Make sure the argument passed "
                      +:+ "to combineReducers is an object whose values are reducers."]).
Proof.
  intros Hnone Hc. unfold combineReducers in Hc.
  destruct (retain_functions_none reducers (obj_keys reducers) [] st0 Hnone)
    as (sa & Hret & Hca & _).
  rewrite (cbind_ok _ _ _ _ _ Hret) in Hc.
  assert (Hcc : exists cache,
             c = Combined [] [] cache VUndef /\ calls st1 = calls sa).
  { destruct (negb (production h)); run_cm; injection Hc as <- <-; eauto. }
  destruct Hcc as (cache & -> & Hcs).
  split; [reflexivity|]. split; [congruence|].
  unfold combination, default_state, report_unexpected_state_shape,
    getUnexpectedStateShapeWarningMessage.
  destruct (is_undefined state), (production h); run_cm;
    eexists; repeat split; now rewrite ?app_nil_r.
Qed.

(** Outside production and with no captured error, every call of
    [combination] on a state that is given and is not a plain object (a
    number, [null], an array, an object with a prototype of its own, ...)
    asks for the class name of the state, as [({}).toString.call(state)]
    spells it.  With a class name, the call gives one warning, which names
    that class and the retained names and calls the state the preloaded one
    when the action is the INIT action; nothing is cached, so the next call
    warns again.  Without one, the call fails with a [TypeError] before any
    reducer is called. *)
Theorem combination_reports_a_state_that_is_no_plain_object
    c state action (st : cstate U) r st' :
  production h = false ->
  truthy (shapeAssertionError c) = false ->
  finalReducers c <> [] ->
  is_undefined state = false ->
  isPlainObject state = false ->
  combination h c state action st = (r, st') ->
  match class_name h state with
  | Some class =>
      warnings st'
      = warnings st
        ++ ["The "
            +:+ (if truthy action
                    && strict_eq (action_type_of h action) (VStr ActionTypes_INIT)
                 then "preloadedState argument passed to createStore"
                 else "previous state received by the reducer")
            +:+ " has unexpected type of " +:+ dq +:+ class +:+ dq
            +:+ ". Expected argument to be an object with the following "
            +:+ "keys: " +:+ dq +:+ join_keys (obj_keys (finalReducers c)) +:+ dq]
      /\ unexpectedKeyCache st' = unexpectedKeyCache st
  | None => r = Err type_error /\ st' = st
  end.
Proof.
  intros Hprod Herr Hne Hdef Hplain Hrun.
  assert (Hlen : Nat.eqb (length (obj_keys (finalReducers c))) 0 = false)
    by (destruct (finalReducers c); [congruence|reflexivity]).
  destruct (class_name h state) as [class|] eqn:Eclass.
  - assert (Hrep : exists sa,
               report_unexpected_state_shape h c state action st = (Ok tt, sa)
               /\ warnings sa
                  = warnings st
                    ++ ["The "
                        +:+ (if truthy action
                                && strict_eq (action_type_of h action)
                                     (VStr ActionTypes_INIT)
                             then "preloadedState argument passed to createStore"
                             else "previous state received by the reducer")
                        +:+ " has unexpected type of " +:+ dq +:+ class +:+ dq
                        +:+ ". Expected argument to be an object with the following "
                        +:+ "keys: " +:+ dq
                        +:+ join_keys (obj_keys (finalReducers c)) +:+ dq]
               /\ unexpectedKeyCache sa = unexpectedKeyCache st).
    { unfold report_unexpected_state_shape. rewrite Hprod. simpl negb. cbv iota.
      unfold cbind, getUnexpectedStateShapeWarningMessage.
      rewrite Hlen, Hplain, Eclass. simpl.
      unfold warning, cret. eexists. split; [reflexivity|]. simpl. auto. }
    destruct Hrep as (sa & Hrep & Hw & Hk).
    destruct (combination_after_report c state action st r st' sa Hdef Herr
                Hrep Hrun) as [-> ->].
    auto.
  - rewrite combination_unfold in Hrun. cbv zeta in Hrun.
    rewrite Hdef, Herr in Hrun.
    unfold report_unexpected_state_shape in Hrun. rewrite Hprod in Hrun.
    simpl negb in Hrun. cbv iota in Hrun.
    unfold cbind, getUnexpectedStateShapeWarningMessage in Hrun.
    rewrite Hlen, Hplain, Eclass in Hrun. simpl in Hrun.
    unfold cthrow in Hrun. now injection Hrun as <- <-.
Qed.

End CombineMore.

(** ** The further properties on the example programs *)

Lemma ex_world_quiet_ok : store_ok ex_world_quiet.
Proof.
  constructor; simpl; auto; repeat constructor.
  intros l. unfold registered, subscribed. simpl.
  destruct l; simpl; try reflexivity.
  rewrite !andb_true_r.
  repeat match goal with
         | |- context [if ?b then _ else _] => destruct b
         end; reflexivity.
Qed.

Lemma quiet_fenv_is_quiet (f : nat) args : quiet (quiet_fenv f args).
Proof.
  unfold quiet_fenv.
  destruct f as [|[|[|[|[|[|[|[|[|[|[|[|f]]]]]]]]]]]]; try constructor.
  - destruct (counter_reducer args); constructor.
  - intros r. constructor.
Qed.

Lemma createStore_asks_reducer_for_initial_state_witness :
  exists w',
    createStore store_fenv no_enhancers 2 (VFun 0) VUndef VUndef world0
    = Some (Ok base_store, w')
    /\ getState w' = VNum 0
    /\ currentReducer w' = VFun 0
    /\ get_array w' (nextListeners w') = []
    /\ subscriptions w' = []
    /\ isDispatching w' = false.
Proof.
  apply (createStore_asks_reducer_for_initial_state store_fenv no_enhancers 1
           (VFun 0) VUndef world0 (Ok (VNum 0)) ex_world_init
           eq_refl eq_refl eq_refl).
  vm_compute. constructor.
Defined.

Lemma createStore_checks_its_arguments_witness :
  createStore store_fenv no_enhancers 1 (VFun 0) VUndef (VNum 3) world0
  = Some (Err (VError "Expected the enhancer to be a function."), world0)
  /\ createStore store_fenv no_enhancers 1 (VNum 3) VUndef VUndef world0
     = Some (Err (VError "Expected the reducer to be a function."), world0).
Proof.
  split.
  - apply (proj1 (createStore_checks_its_arguments store_fenv no_enhancers 0
                    (VFun 0) VUndef (VNum 3) world0)); reflexivity.
  - apply (proj1 (proj2 (createStore_checks_its_arguments store_fenv
                           no_enhancers 0 (VNum 3) VUndef VUndef world0)));
      reflexivity.
Defined.

Lemma subscribe_then_unsubscribe_restores_registry_witness :
  store_ok ex_world_listeners
  /\ get_array (unsubscribe 2 (subscribe (VFun 10) ex_world_listeners).2)
       (nextListeners (unsubscribe 2 (subscribe (VFun 10) ex_world_listeners).2))
     = [VFun 11; VFun 13].
Proof.
  split; [exact ex_world_listeners_ok|].
  apply (proj1 (proj2 (proj2
           (subscribe_then_unsubscribe_restores_registry (VFun 10)
              ex_world_listeners ex_world_listeners_ok eq_refl)))).
  reflexivity.
Defined.

Lemma replaceReducer_installs_then_dispatches_init_witness :
  replaceReducer store_fenv (exec store_fenv 3) (notify store_fenv 3) (VNum 1)
    ex_created
  = Some (Err (VError "Expected the nextReducer to be a function."), ex_created)
  /\ exists w',
       replaceReducer store_fenv (exec store_fenv 3) (notify store_fenv 3)
         (VFun 1) ex_world_busy
       = Some (Err (VError "Reducers may not dispatch actions."), w')
       /\ currentReducer w' = VFun 1
       /\ currentState w' = currentState ex_world_busy
       /\ isDispatching w' = true.
Proof.
  split.
  - apply (proj1 (replaceReducer_installs_then_dispatches_init store_fenv 3
                    (VNum 1) ex_created)). reflexivity.
  - apply (proj1 (proj2 (replaceReducer_installs_then_dispatches_init
                           store_fenv 3 (VFun 1) ex_world_busy)));
      reflexivity.
Defined.

Lemma created_store_stays_consistent_witness :
  createStore store_fenv no_enhancers 2 (VFun 0) VUndef VUndef world0
  = Some (Ok base_store, ex_created)
  /\ run_prog store_fenv 3 (Subscribe (VFun 10) lift_outcome) ex_created
     = Some (Ok 0, ex_world_subscribed)
  /\ store_ok ex_world_subscribed
  /\ isDispatching ex_world_subscribed = false.
Proof.
  assert (Hc : createStore store_fenv no_enhancers 2 (VFun 0) VUndef VUndef
                 world0 = Some (Ok base_store, ex_created))
    by (vm_compute; reflexivity).
  assert (Hr : run_prog store_fenv 3 (Subscribe (VFun 10) lift_outcome)
                 ex_created = Some (Ok 0, ex_world_subscribed))
    by (vm_compute; reflexivity).
  split; [exact Hc|]. split; [exact Hr|].
  pose proof (created_store_stays_consistent store_fenv no_enhancers 2 3
                (VFun 0) VUndef world0 base_store ex_created
                (Subscribe (VFun 10) lift_outcome) (Ok 0) ex_world_subscribed
                eq_refl Hc Hr) as H.
  exact (conj (proj1 H) (proj1 (proj2 H))).
Defined.

Lemma dispatch_answers_witness :
  dispatch_in store_fenv 3 (VStr "INC") ex_created
  = Some (Err (VError ("Actions must be plain objects. "
                       +:+ "Use custom middleware for async actions.")),
          ex_created)
  /\ dispatch_in store_fenv 3 (VObj 8 true [("kind", VStr "INC")]) ex_world_busy
     = Some (Err (VError ("Actions may not have an undefined "
                          +:+ dq +:+ "type" +:+ dq +:+ " property. "
                          +:+ "Have you misspelled a constant?")),
             ex_world_busy).
Proof.
  split.
  - apply (proj1 (dispatch_answers store_fenv 3 (VStr "INC") ex_created)).
    reflexivity.
  - apply (proj1 (proj2 (dispatch_answers store_fenv 3
                           (VObj 8 true [("kind", VStr "INC")]) ex_world_busy))
             8 [("kind", VStr "INC")]); reflexivity.
Defined.

Lemma dispatch_ends_when_callbacks_do_not_dispatch_witness :
  exists N r w',
    (forall m, N <= m ->
               dispatch_in quiet_fenv m ex_inc ex_world_quiet = Some (r, w'))
    /\ isDispatching w' = false
    /\ (forall v, r = Ok v -> v = ex_inc).
Proof.
  apply (dispatch_ends_when_callbacks_do_not_dispatch quiet_fenv ex_inc
           ex_world_quiet quiet_fenv_is_quiet ex_world_quiet_ok
           (valid_action_of_type 77 (VStr "INC") eq_refl) eq_refl).
Defined.


Lemma compose_of_concatenation_witness :
  compose Some obind 0%Z ([ex_add 1; ex_half] ++ [ex_add 3; ex_add 4]) [5%Z]
  = obind (compose Some obind 0%Z [ex_add 3; ex_add 4] [5%Z])
      (fun r => compose Some obind 0%Z [ex_add 1; ex_half] [r]).
Proof.
  apply (compose_of_concatenation Some obind 0%Z).
  - intros [x|] f g; reflexivity.
  - intros [x|] f g Hfg; simpl; auto.
  - discriminate.
  - discriminate.
Defined.

Lemma applyMiddleware_wraps_dispatch_first_outermost_witness :
  createStore store_fenv no_enhancers 10 (VFun 0) VUndef VUndef world0
  = Some (Ok base_store, ex_created)
  /\ exists api,
       applyMiddleware store_fenv 10
         (map plain_middleware [ex_wrap_twice; ex_wrap_same])
         (createStore store_fenv no_enhancers 10) (VFun 0) VUndef VUndef world0
       = Some (Ok (Store (ex_wrap_twice api
                            (ex_wrap_same api (s_dispatch base_store)))
                         (s_subscribe base_store) (s_getState base_store)
                         (s_replaceReducer base_store)),
               set_cells [ex_wrap_twice api
                            (ex_wrap_same api (s_dispatch base_store))]
                 ex_created).
Proof.
  assert (Hc : createStore store_fenv no_enhancers 10 (VFun 0) VUndef VUndef
                 world0 = Some (Ok base_store, ex_created))
    by (vm_compute; reflexivity).
  split; [exact Hc|]. eexists.
  exact (proj1 (applyMiddleware_wraps_dispatch_first_outermost store_fenv 10
                  [ex_wrap_twice; ex_wrap_same]
                  (createStore store_fenv no_enhancers 10) (VFun 0) VUndef
                  VUndef world0 base_store ex_created Hc)).
Defined.

Lemma applyMiddleware_stops_at_failing_middleware_witness :
  applyMiddleware store_fenv 10 ([] ++ failing_middleware :: [eager_middleware])
    (createStore store_fenv no_enhancers 10) (VFun 0) VUndef VUndef world0
  = Some (Err (VError "cannot construct"),
          set_cells [s_dispatch base_store] ex_created)
  /\ cells (set_cells [s_dispatch base_store] ex_created) !! 0
     = Some (s_dispatch base_store).
Proof.
  assert (Hc : createStore store_fenv no_enhancers 10 (VFun 0) VUndef VUndef
                 world0 = Some (Ok base_store, ex_created))
    by (vm_compute; reflexivity).
  exact (applyMiddleware_stops_at_failing_middleware store_fenv 10 []
           failing_middleware [eager_middleware]
           (createStore store_fenv no_enhancers 10) (VFun 0) VUndef VUndef
           world0 base_store ex_created [] _ _ _ Hc eq_refl eq_refl).
Defined.

Lemma createStore_with_applyMiddleware_witness :
  createStore store_fenv middleware_enhancers 3 (VFun 0) VUndef (VFun 30) world0
  = match createStore store_fenv middleware_enhancers 2 (VFun 0) VUndef VUndef
            world0 with
    | None => None
    | Some (Err e, w1) => Some (Err e, w1)
    | Some (Ok store, w1) =>
        let api :=
          MiddlewareAPI (s_getState store)
            (fun action => CallDispatch (length (cells w1)) action lift_outcome) in
        let composed :=
          fold_right (fun wrap next => wrap api next) (s_dispatch store)
            [ex_wrap_twice; ex_wrap_same] in
        Some (Ok (Store composed (s_subscribe store) (s_getState store)
                        (s_replaceReducer store)),
              set_cells (cells w1 ++ [composed]) w1)
    end.
Proof.
  apply (createStore_with_applyMiddleware store_fenv middleware_enhancers 2 30
           [ex_wrap_twice; ex_wrap_same] (VFun 0) VUndef world0).
  intros fuel cs. reflexivity.
Defined.



Lemma production_build_gives_no_warning_witness :
  production production_host = true
  /\ warnings (combineReducers production_host ex_reducers_mixed cstate0).2 = []
  /\ warnings (combination production_host ex_combined ex_state ex_inc cstate0).2
     = [].
Proof.
  split; [reflexivity|].
  pose proof (production_build_gives_no_warning production_host eq_refl) as H.
  split.
  - exact (proj1 (proj1 H ex_reducers_mixed cstate0 _ _ (surjective_pairing _))).
  - exact (proj1 (proj2 H ex_combined ex_state ex_inc cstate0 _ _
                    (surjective_pairing _))).
Defined.

Lemma combination_builds_the_initial_state_witness :
  combineReducers example_host [("count", VFun 0)] cstate0
  = (Ok ex_combined, ex_cstate)
  /\ exists v st',
       combination example_host ex_combined VUndef ex_nop ex_cstate = (Ok v, st').
Proof.
  assert (Hc : combineReducers example_host [("count", VFun 0)] cstate0
               = (Ok ex_combined, ex_cstate)) by (vm_compute; reflexivity).
  split; [exact Hc|].
  apply (proj2 (combination_builds_the_initial_state example_host
                  [("count", VFun 0)] cstate0 ex_combined ex_cstate ex_nop
                  ex_cstate Hc ltac:(discriminate)) eq_refl).
  intros key id prev w [<-|[]] [= <-]. simpl.
  destruct prev; simpl; eauto.
Defined.

(** With a reducer named [toString] the missing state is not replaced by
    a record of initial values: the reducer is given the function that the
    empty object inherits, returns it, and the call returns the empty
    object. *)
Example absent_state_with_an_inherited_name :
  exists st',
    combination example_host ex_named_combined VUndef ex_nop ex_named_cstate
    = (Ok (VObj (next_obj (uw ex_named_cstate)) true []), st')
    /\ calls st'
       = calls ex_named_cstate
         ++ [Call "toString" (VFun 5) (VFun 101) ex_nop (Ok (VFun 101))].
Proof. eexists. split; vm_compute; reflexivity. Qed.

Lemma combination_of_null_state_raises_witness :
  exists e st',
    combination example_host ex_combined VNull ex_inc ex_cstate = (Err e, st')
    /\ get_prop VNull "count" = Err e
    /\ calls st' = calls ex_cstate.
Proof.
  exact (combination_of_null_state_raises example_host ex_combined ex_inc
           ex_cstate "count" [] eq_refl eq_refl).
Defined.

Lemma combination_without_reducers_witness :
  finalReducers (Combined [] [] (Some 0) VUndef) = []
  /\ calls (combineReducers example_host [("n", VNum 1)] cstate0).2 = calls cstate0
  /\ exists st',
       combination example_host (Combined [] [] (Some 0) VUndef) ex_state ex_inc cstate0
       = (Ok ex_state, st')
       /\ calls st' = calls cstate0
       /\ warnings st'
          = warnings cstate0
            ++ ["Store does not have a valid reducer. Make sure the argument passed "
                +:+ "to combineReducers is an object whose values are reducers."].
Proof.
  exact (combination_without_reducers example_host [("n", VNum 1)] cstate0
           (Combined [] [] (Some 0) VUndef)
           (combineReducers example_host [("n", VNum 1)] cstate0).2
           ex_state ex_inc cstate0
           ltac:(repeat constructor)
           ltac:(vm_compute; reflexivity)).
Defined.

Lemma only_dispatch_changes_the_state_witness :
  quiet ex_subscribe_and_leave
  /\ exists r w',
       run_prog store_fenv 0 ex_subscribe_and_leave ex_created = Some (r, w')
       /\ currentState w' = currentState ex_created
       /\ currentReducer w' = currentReducer ex_created
       /\ isDispatching w' = isDispatching ex_created.
Proof.
  assert (Hq : quiet ex_subscribe_and_leave).
  { constructor. intros [handle|e]; repeat constructor. }
  split; [exact Hq|].
  exact (proj1 (only_dispatch_changes_the_state store_fenv 0
                  ex_subscribe_and_leave ex_created Hq)).
Defined.

Lemma combination_reports_a_state_that_is_no_plain_object_witness :
  warnings (combination example_host ex_combined ex_state_array ex_inc
              ex_cstate).2
  = warnings ex_cstate
    ++ ["The "
        +:+ (if truthy ex_inc
                && strict_eq (action_type_of example_host ex_inc)
                     (VStr ActionTypes_INIT)
             then "preloadedState argument passed to createStore"
             else "previous state received by the reducer")
        +:+ " has unexpected type of " +:+ dq +:+ "Array" +:+ dq
        +:+ ". Expected argument to be an object with the following "
        +:+ "keys: " +:+ dq +:+ join_keys (obj_keys (finalReducers ex_combined))
        +:+ dq]
  /\ unexpectedKeyCache
       (combination example_host ex_combined ex_state_array ex_inc ex_cstate).2
     = unexpectedKeyCache ex_cstate.
Proof.
  exact (combination_reports_a_state_that_is_no_plain_object example_host
           ex_combined ex_state_array ex_inc ex_cstate _ _
           eq_refl eq_refl ltac:(discriminate) eq_refl eq_refl
           (surjective_pairing _)).
Defined.

(** *** Scenarios *)

(** [bindActionCreators({ inc, version: 3, fail }, store.dispatch)] on a
    counter store: calling [inc] counts, calling [fail] raises and leaves
    the count. *)
Example bound_creators_drive_the_store :
  match bindActionCreators creators_fenv (VObj 60 true ex_creators)
          (s_dispatch base_store) cstate0 with
  | (Ok (BoundObject _ props), st) =>
      warnings st = [bind_warning_message "version" "number"]
      /\ match bound_get props "inc", bound_get props "fail" with
         | Some inc, Some fail =>
             match run_prog creators_fenv 3 (inc []) ex_created with
             | Some (Ok _, w1) =>
                 currentState w1 = VNum 1
                 /\ match run_prog creators_fenv 3 (fail []) w1 with
                    | Some (Err e, w2) =>
                        e = VError "cannot create" /\ currentState w2 = VNum 1
                    | _ => False
                    end
             | _ => False
             end
         | _, _ => False
         end
  | _ => False
  end.
Proof. vm_compute. repeat split. Qed.

(** [createStore(counter, applyMiddleware(twice, same))]: every action is
    sent to the store twice. *)
Example wrapped_store_counts_twice :
  match createStore store_fenv middleware_enhancers 5 (VFun 0)
          (VFun 30) VUndef world0 with
  | Some (Ok store, w1) =>
      currentState w1 = VNum 0
      /\ match run_prog store_fenv 5 (s_dispatch store ex_inc) w1 with
         | Some (Ok a, w2) => a = ex_inc /\ currentState w2 = VNum 2
         | _ => False
         end
  | _ => False
  end.
Proof. vm_compute. repeat split. Qed.
